(** * DayZ killfeed: a shallow embedding of [killfeed.py]

    The development follows the source file top to bottom: text and
    regular expressions (Python's [str] and [re]), the four kill patterns,
    event extraction, sanitisation and formatting, the delayed delivery
    queue, the ADM file selector and the tailing engine.

    Text is modelled as [string], a sequence of 8-bit characters read as
    the code points 0..255.  A log file is given by the text it holds and
    stands for the UTF-8 encoding of that text; file offsets and sizes
    count the bytes of the encoding. *)

From Stdlib Require Import ZArith Ascii String List Bool Lia.
From Stdlib Require Import Floats.SpecFloat.
From stdpp Require Import gmap strings.

Open Scope string_scope.
Open Scope Z_scope.

(** Let [simpl] unfold string concatenation on a constructor. *)
#[local] Arguments String.append !s1 s2 : simpl nomatch.

(** ** Python values and control *)

(** The exceptions the modelled code can raise. *)
Inductive exn : Type :=
| ValueError
| OSError
| FileNotFoundError.

(** A call either returns a value or raises. *)
Inductive outcome (A : Type) : Type :=
| Return (a : A)
| Raise (e : exn).
Arguments Return {A} a.
Arguments Raise {A} e.

Definition bind {A B : Type} (x : outcome A) (f : A -> outcome B) : outcome B :=
  match x with
  | Return a => f a
  | Raise e => Raise e
  end.

Notation "'do' x <- e ; k" := (bind e (fun x => k))
  (at level 10, x name, e at level 100, k at level 200).

(** ** Text *)

Module Text.

Definition dquote : ascii := "034"%char.
Definition backslash : ascii := "092"%char.
Definition newline : ascii := "010"%char.
Definition carriage : ascii := "013"%char.

(** [quoted s] is [s] between two double quotes. *)
Definition quoted (s : string) : string :=
  String dquote (s ++ String dquote "").

(** [not text] in Python: the empty string is the only falsy one. *)
Definition truthy (s : string) : bool :=
  match s with
  | "" => false
  | String _ _ => true
  end.

Fixpoint startswith (p s : string) : bool :=
  match p, s with
  | "", _ => true
  | String a p', String b s' => Ascii.eqb a b && startswith p' s'
  | String _ _, "" => false
  end.

(** [sub in s] *)
Fixpoint contains (sub s : string) : bool :=
  startswith sub s ||
  match s with
  | "" => false
  | String _ s' => contains sub s'
  end.

Fixpoint drop (n : nat) (s : string) : string :=
  match n, s with
  | O, _ => s
  | S n', String _ s' => drop n' s'
  | S _, "" => ""
  end.

Fixpoint take (n : nat) (s : string) : string :=
  match n, s with
  | O, _ => ""
  | S n', String a s' => String a (take n' s')
  | S _, "" => ""
  end.

(** [s.endswith(suffix)] *)
Definition endswith (suffix s : string) : bool :=
  String.eqb (drop (String.length s - String.length suffix) s) suffix
  && (String.length suffix <=? String.length s)%nat.

Definition is_digit (c : ascii) : bool :=
  let n := nat_of_ascii c in ((48 <=? n) && (n <=? 57))%nat.

Definition digit_val (c : ascii) : Z := Z.of_nat (nat_of_ascii c) - 48.

(** [int(s)] on a string of decimal digits, most significant first. *)
Fixpoint int_of_digits_acc (acc : Z) (s : string) : Z :=
  match s with
  | "" => acc
  | String c s' => int_of_digits_acc (10 * acc + digit_val c) s'
  end.

Definition int_of_digits (s : string) : Z := int_of_digits_acc 0 s.

Definition digit_char (d : Z) : ascii := ascii_of_nat (Z.to_nat (48 + d)).

(** Decimal rendering of a non-negative integer; [fuel] bounds the number
    of digits. *)
Fixpoint dec_digits (fuel : nat) (n : Z) (acc : string) : string :=
  match fuel with
  | O => acc
  | S fuel' =>
      let acc' := String (digit_char (n mod 10)) acc in
      if n <? 10 then acc' else dec_digits fuel' (n / 10) acc'
  end.

Definition str_of_nonneg (n : Z) : string :=
  dec_digits (S (Z.to_nat (Z.log2 n))) n "".

End Text.

(** ** Regular expressions: the fragment of [re] the source uses

    Repetition is applied to single-character classes only, which is all
    the patterns of the source need.  Matching is backtracking with
    Python's priorities: greedy repetitions try the longest run first,
    lazy ones the shortest, alternatives left to right. *)

Module Re.

Inductive regex : Type :=
| Eps
| Chr (c : ascii)
| Cls (p : ascii -> bool)
| Rep (p : ascii -> bool) (lo : nat) (hi : option nat) (greedy : bool)
| Grp (i : nat) (r : regex)
| Cat (r1 r2 : regex)
| Alt (r1 r2 : regex)
| Eol.

(** Capture groups: group number to captured text, latest first. *)
Definition captures := list (nat * string).

Fixpoint group (i : nat) (c : captures) : option string :=
  match c with
  | [] => None
  | (j, t) :: c' => if Nat.eqb i j then Some t else group i c'
  end.

(** Character classes. *)
Definition digit : ascii -> bool := Text.is_digit.
Definition dot (c : ascii) : bool := negb (Ascii.eqb c Text.newline).
Definition not_quote (c : ascii) : bool := negb (Ascii.eqb c Text.dquote).
Definition digit_or_dot (c : ascii) : bool := Text.is_digit c || Ascii.eqb c "."%char.
Definition is_char (a c : ascii) : bool := Ascii.eqb c a.
(** [\s] on code points below 256. *)
Definition space (c : ascii) : bool :=
  let n := nat_of_ascii c in
  (((9 <=? n) && (n <=? 13)) || ((28 <=? n) && (n <=? 32))
   || (n =? 133) || (n =? 160))%nat.

Fixpoint lit (s : string) : regex :=
  match s with
  | "" => Eps
  | String c s' => Cat (Chr c) (lit s')
  end.

Fixpoint cat (rs : list regex) : regex :=
  match rs with
  | [] => Eps
  | r :: rs' => Cat r (cat rs')
  end.

Section Match.
Context {R : Type}.

(** The part of a repetition above its lower bound; [budget] is the
    number of further characters allowed, [None] when unbounded. *)
Definition spend (budget : option nat) : option (option nat) :=
  match budget with
  | None => Some None
  | Some O => None
  | Some (S n) => Some (Some n)
  end.

Fixpoint rep_greedy (p : ascii -> bool) (budget : option nat) (s : string)
    (k : string -> option R) : option R :=
  match s with
  | String a s' =>
      match spend budget with
      | Some b' =>
          if p a then
            match rep_greedy p b' s' k with
            | Some r => Some r
            | None => k s
            end
          else k s
      | None => k s
      end
  | "" => k s
  end.

Fixpoint rep_lazy (p : ascii -> bool) (budget : option nat) (s : string)
    (k : string -> option R) : option R :=
  match k s with
  | Some r => Some r
  | None =>
      match s with
      | String a s' =>
          match spend budget with
          | Some b' => if p a then rep_lazy p b' s' k else None
          | None => None
          end
      | "" => None
      end
  end.

(** The mandatory first [lo] characters. *)
Fixpoint rep_min (p : ascii -> bool) (lo : nat) (s : string)
    (k : string -> option R) : option R :=
  match lo with
  | O => k s
  | S lo' =>
      match s with
      | String a s' => if p a then rep_min p lo' s' k else None
      | "" => None
      end
  end.

(** [lo] mandatory characters, then up to [hi - lo] more. *)
Definition rep (p : ascii -> bool) (lo : nat) (hi : option nat) (greedy : bool)
    (s : string) (k : string -> option R) : option R :=
  let budget := option_map (fun h => (h - lo)%nat) hi in
  rep_min p lo s (fun s' =>
    if greedy then rep_greedy p budget s' k else rep_lazy p budget s' k).

(** [run r s c k]: match [r] at the head of [s] with captures [c], then
    continue with [k] on what is left; [None] makes the caller backtrack. *)
Fixpoint run (r : regex) (s : string) (c : captures)
    (k : string -> captures -> option R) : option R :=
  match r with
  | Eps => k s c
  | Chr a =>
      match s with
      | String b s' => if Ascii.eqb b a then k s' c else None
      | "" => None
      end
  | Cls p =>
      match s with
      | String b s' => if p b then k s' c else None
      | "" => None
      end
  | Rep p lo hi greedy => rep p lo hi greedy s (fun s' => k s' c)
  | Grp i r1 =>
      run r1 s c (fun s' c' =>
        k s' ((i, Text.take (String.length s - String.length s') s) :: c'))
  | Cat r1 r2 => run r1 s c (fun s' c' => run r2 s' c' k)
  | Alt r1 r2 =>
      match run r1 s c k with
      | Some x => Some x
      | None => run r2 s c k
      end
  | Eol =>
      match s with
      | "" => k s c
      | String b "" => if Ascii.eqb b Text.newline then k s c else None
      | String _ (String _ _) => None
      end
  end.
End Match.

(** [pattern.match(s)]: anchored at the start. *)
Definition re_match (r : regex) (s : string) : option captures :=
  run r s [] (fun _ c => Some c).

(** [pattern.search(s)]: the leftmost start position that matches. *)
Fixpoint search (r : regex) (s : string) : option captures :=
  match re_match r s with
  | Some c => Some c
  | None =>
      match s with
      | String _ s' => search r s'
      | "" => None
      end
  end.

(** Number of capture groups of a pattern. *)
Fixpoint ngroups (r : regex) : nat :=
  match r with
  | Grp _ r1 => S (ngroups r1)
  | Cat r1 r2 | Alt r1 r2 => (ngroups r1 + ngroups r2)%nat
  | _ => O
  end.

(** Static facts about a pattern: the least number of characters a match
    consumes, the groups it may set, and the groups every match sets to a
    non-empty text. *)
Fixpoint minlen (r : regex) : nat :=
  match r with
  | Eps | Eol => 0
  | Chr _ | Cls _ => 1
  | Rep _ lo _ _ => lo
  | Grp _ r1 => minlen r1
  | Cat r1 r2 => (minlen r1 + minlen r2)%nat
  | Alt r1 r2 => Nat.min (minlen r1) (minlen r2)
  end.

Fixpoint grps (r : regex) : list nat :=
  match r with
  | Grp i r1 => i :: grps r1
  | Cat r1 r2 | Alt r1 r2 => (grps r1 ++ grps r2)%list
  | _ => []
  end.

Definition mem (i : nat) (l : list nat) : bool := existsb (Nat.eqb i) l.

Fixpoint sure (r : regex) : list nat :=
  match r with
  | Grp i r1 =>
      ((if (0 <? minlen r1)%nat then [i] else [])
         ++ List.filter (fun j => negb (Nat.eqb j i)) (sure r1))%list
  | Cat r1 r2 => (List.filter (fun j => negb (mem j (grps r2))) (sure r1) ++ sure r2)%list
  | Alt r1 r2 => List.filter (fun j => mem j (sure r2)) (sure r1)
  | _ => []
  end.

Definition nonempty_group (i : nat) (c : captures) : Prop :=
  exists t, group i c = Some t /\ t <> "".

(** What a successful [run] of [r] from [(s, c)] hands to its
    continuation at [(s', c')]. *)
Definition post (r : regex) (s : string) (c : captures) (s' : string) (c' : captures)
    : Prop :=
  (String.length s' + minlen r <= String.length s)%nat
  /\ (forall i, In i (sure r) -> nonempty_group i c')
  /\ (forall i, ~ In i (grps r) -> group i c' = group i c).

(** [match.groups()]: groups 1..n, [None] for one that took no part. *)
Definition groups (r : regex) (c : captures) : list (option string) :=
  map (fun i => group i c) (seq 1 (ngroups r)).

End Re.

(** ** Python floats

    A [float] is an IEEE 754 binary64 value, here a [spec_float] of the
    standard library with precision 53 and maximal exponent 1024. *)

Module Float.

Definition prec : Z := 53.
Definition emax : Z := 1024.

(** Scanning a literal made of digits and at most one point: the integer
    read so far, the number of digits after the point and whether any digit
    was seen. *)
Fixpoint scan_frac (m k : Z) (seen : bool) (s : string) : option (Z * Z * bool) :=
  match s with
  | "" => Some (m, k, seen)
  | String c s' =>
      if Text.is_digit c then scan_frac (10 * m + Text.digit_val c) (k + 1) true s'
      else None
  end.

Fixpoint scan_int (m : Z) (seen : bool) (s : string) : option (Z * Z * bool) :=
  match s with
  | "" => Some (m, 0, seen)
  | String c s' =>
      if Text.is_digit c then scan_int (10 * m + Text.digit_val c) true s'
      else if Ascii.eqb c "."%char then scan_frac m 0 seen s'
      else None
  end.

(** The double nearest to [m / 10^k], ties to even; overflow gives
    infinity. *)
Definition of_decimal (m k : Z) : spec_float :=
  match m with
  | Zpos p =>
      SFdiv prec emax (S754_finite false p 0)
                      (S754_finite false (Z.to_pos (10 ^ k)) 0)
  | _ => S754_zero false
  end.

(** [float(s)] for the strings a [[\d.]+] group can capture.  A string
    with two points, or with no digit, is not a number: [ValueError]. *)
Definition py_float (s : string) : outcome spec_float :=
  match scan_int 0 false s with
  | Some (m, k, true) => Return (of_decimal m k)
  | _ => Raise ValueError
  end.

(** [x > 0] *)
Definition gt_zero (x : spec_float) : bool :=
  SFltb (S754_zero false) x.

(** The integer nearest to [m * 2^e], ties to even. *)
Definition round_half_even (m e : Z) : Z :=
  if 0 <=? e then m * 2 ^ e
  else
    let d := 2 ^ (- e) in
    let q := m / d in
    let r := m mod d in
    if 2 * r <? d then q
    else if d <? 2 * r then q + 1
    else if Z.even q then q else q + 1.

Definition sign_str (s : bool) : string := if s then "-" else "".

(** [format(x, '.0f')] *)
Definition format_f0 (x : spec_float) : string :=
  match x with
  | S754_nan => "nan"
  | S754_infinity s => sign_str s ++ "inf"
  | S754_zero s => sign_str s ++ "0"
  | S754_finite s m e => sign_str s ++ Text.str_of_nonneg (round_half_even (Zpos m) e)
  end.

End Float.

(** ** The parser object and its kill patterns *)

(** A value of a dictionary entry that holds a string or [None]. *)
Definition py_str (v : option string) : string :=
  match v with
  | Some s => s
  | None => "None"
  end.

(** The value of [distance]: the literal [0] or a float. *)
Inductive distance_val : Type :=
| DZero
| DFloat (x : spec_float).

(** The dictionary [kill_data]. *)
Record KillRecord : Type := {
  timestamp : string;
  victim : option string;
  killer : option string;
  weapon : option string;
  distance : distance_val;
  original_line : string
}.

Section Patterns.
Import Re.

Definition digits (n : nat) : regex := Rep digit n (Some n) true.

(** [\d{2}:\d{2}:\d{2}] *)
Definition hms : regex :=
  cat [digits 2; Chr ":"; digits 2; Chr ":"; digits 2].

(** [\d{4}-\d{2}-\d{2}:\d{2}:\d{2}:\d{2}] *)
Definition ymd_hms : regex :=
  cat [digits 4; Chr "-"; digits 2; Chr "-"; digits 2; Chr ":";
       digits 2; Chr ":"; digits 2; Chr ":"; digits 2].

Definition any_star : regex := Rep dot 0 None true.
Definition name_group (i : nat) : regex := Grp i (Rep not_quote 1 None true).

(** The common head of the four patterns: the stamp as group 1, the
    text [ | Player ], the quoted victim as group 2, a space, [.*], the
    phrase, a space, the quoted killer as group 3, a space, [.*] and
    [with ]; a quoted name is a double quote, one or more characters
    other than a double quote, and a double quote. *)
Definition kill_head (stamp : regex) (phrase : string) : regex :=
  cat [Grp 1 stamp; lit " | Player "; Chr Text.dquote; name_group 2;
       Chr Text.dquote; Chr " "; any_star; lit phrase; Chr " "; Chr Text.dquote;
       name_group 3; Chr Text.dquote; Chr " "; any_star; lit "with "].

(** killed by Player, with distance:
    [... .*with (.+?) from ([\d.]+) meters?] *)
Definition pattern1 : regex :=
  cat [kill_head hms "killed by Player";
       Grp 4 (Rep dot 1 None false); lit " from ";
       Grp 5 (Rep digit_or_dot 1 None true); lit " meter";
       Rep (is_char "s") 0 (Some 1%nat) true].

(** killed by Player, without distance: [... .*with (.+?)(?:\s|$)] *)
Definition pattern2 : regex :=
  cat [kill_head hms "killed by Player";
       Grp 4 (Rep dot 1 None false); Alt (Cls space) Eol].

(** has been killed by player, with distance:
    [... .*with (.+) from ([\d.]+)m] *)
Definition pattern3 : regex :=
  cat [kill_head ymd_hms "has been killed by player";
       Grp 4 (Rep dot 1 None true); lit " from ";
       Grp 5 (Rep digit_or_dot 1 None true); Chr "m"].

(** has been killed by player, without distance: [... .*with (.+)] *)
Definition pattern4 : regex :=
  cat [kill_head ymd_hms "has been killed by player";
       Grp 4 (Rep dot 1 None true)].

Definition kill_patterns : list regex :=
  [pattern1; pattern2; pattern3; pattern4].
End Patterns.

(** ** Event extraction *)

(** [groups[i]]; the callers check the length first. *)
Definition item (gs : list (option string)) (i : nat) : option string :=
  nth i gs None.

(** Truth value of a group: [None] and the empty string are falsy. *)
Definition group_truthy (g : option string) : bool :=
  match g with
  | Some s => Text.truthy s
  | None => false
  end.

(** [now_hms] stands for [datetime.now().strftime(...)]. *)
Definition extract_kill_data (now_hms : string) (gs : list (option string))
    (original : string) : outcome (option KillRecord) :=
  if negb (Text.contains "killed by Player" original
           || Text.contains "has been killed by player" original)
  then Return None
  else if (4 <=? length gs)%nat then
    let ts := if group_truthy (item gs 0) then py_str (item gs 0) else now_hms in
    do d <- (if (4 <? length gs)%nat && group_truthy (item gs 4)
             then do x <- Float.py_float (py_str (item gs 4)); Return (DFloat x)
             else Return DZero);
    Return (Some {| timestamp := ts;
                    victim := item gs 1;
                    killer := item gs 2;
                    weapon := item gs 3;
                    distance := d;
                    original_line := original |})
  else Return None.

Fixpoint parse_with (patterns : list Re.regex) (now_hms line : string)
    : outcome (option KillRecord) :=
  match patterns with
  | [] => Return None
  | pattern :: rest =>
      match Re.search pattern line with
      | Some c => extract_kill_data now_hms (Re.groups pattern c) line
      | None => parse_with rest now_hms line
      end
  end.

Definition parse_kill_event (now_hms line : string) : outcome (option KillRecord) :=
  parse_with kill_patterns now_hms line.

Module Samples.
Import Text.

Definition nl : string := String newline "".

Definition line_ak : string :=
  "14:32:10 | Player " ++ quoted "Bob" ++ " (id=1) killed by Player "
    ++ quoted "Alice" ++ " (id=2) with AK74 from 123 meters" ++ nl.

Definition line_bad_distance : string :=
  "14:32:10 | Player " ++ quoted "Bob" ++ " (id=1) killed by Player "
    ++ quoted "Alice" ++ " (id=2) with AK74 from 1.2.3 meters" ++ nl.

Definition line_m4 : string :=
  "14:32:10 | Player " ++ quoted "Bob" ++ " (id=1) killed by Player "
    ++ quoted "Alice" ++ " (id=2) with M4 A1" ++ nl.

Definition line_mosin : string :=
  "2025-08-12:13:38:51 | Player " ++ quoted "Bob" ++ " (x) has been killed by player "
    ++ quoted "Al" ++ " (y) with Mosin 9130 from 12.5m" ++ nl.

Definition line_mosin_near : string :=
  "2025-08-12:13:38:51 | Player " ++ quoted "Bob" ++ " (x) has been killed by player "
    ++ quoted "Al" ++ " (y) with Mosin 9130" ++ nl.

Definition line_lone_point : string :=
  "14:32:10 | Player " ++ quoted "Bob" ++ " (id=1) killed by Player "
    ++ quoted "Alice" ++ " (id=2) with AK74 from . meters" ++ nl.

Fixpoint repeat_char (c : ascii) (n : nat) : string :=
  match n with
  | O => ""
  | S n' => String c (repeat_char c n')
  end.

(** A distance of 310 digits. *)
Definition line_far : string :=
  "14:32:10 | Player " ++ quoted "Bob" ++ " (id=1) killed by Player "
    ++ quoted "Alice" ++ " (id=2) with AK74 from " ++ repeat_char "9" 310
    ++ " meters" ++ nl.

Definition kill_far : KillRecord :=
  {| timestamp := "14:32:10";
     victim := Some "Bob";
     killer := Some "Alice";
     weapon := Some "AK74";
     distance := DFloat (S754_infinity false);
     original_line := line_far |}.
End Samples.

(** ** Sanitisation and formatting *)

(** [s.replace(old, new)] for a one-character [old]. *)
Fixpoint replace (old : ascii) (new : string) (s : string) : string :=
  match s with
  | "" => ""
  | String c s' =>
      if Ascii.eqb c old then new ++ replace old new s'
      else String c (replace old new s')
  end.

Definition escape_chars : list ascii :=
  [Text.backslash; "*"; "_"; "`"; "~"; "|"]%char.

Definition sanitize_discord_text (text : string) : string :=
  if negb (Text.truthy text) then text
  else
    fold_left
      (fun sanitized char => replace char (String Text.backslash (String char "")) sanitized)
      escape_chars text.

(** The same call on a dictionary value: [None] is returned as it is. *)
Definition sanitize_value (v : option string) : option string :=
  option_map sanitize_discord_text v.

Definition distance_str (d : distance_val) : string :=
  match d with
  | DZero => ""
  | DFloat x => if Float.gt_zero x then " (" ++ Float.format_f0 x ++ "m)" else ""
  end.

Definition weapon_str (w : option string) : option string :=
  match w with
  | Some s => if String.eqb s "Unknown" then Some "unknown weapon" else Some s
  | None => None
  end.

Definition format_discord_message (kill_data : option KillRecord) : string :=
  match kill_data with
  | None => ""
  | Some kd =>
      let safe_killer := sanitize_value (killer kd) in
      let safe_victim := sanitize_value (victim kd) in
      "**" ++ py_str safe_killer ++ "** killed **" ++ py_str safe_victim
        ++ "** with " ++ py_str (weapon_str (weapon kd)) ++ distance_str (distance kd)
  end.

(** ** The parser state *)

(** Clock readings are in microseconds. *)
Definition seconds (n : Z) : Z := n * 1000000.

Definition FILE_CHECK_INTERVAL : Z := seconds 30.
Definition CHECK_INTERVAL : Z := seconds 5.
Definition DELAY_BEFORE_SEND : Z := seconds 300.

(** The fields of [DayZLogParser] that the modelled methods use. *)
Record Parser : Type := {
  log_directory : string;
  last_position : gmap string Z;
  current_log_file : option string;
  message_queue : list (string * Z);
  shutdown_requested : bool
}.

Definition with_queue (q : list (string * Z)) (st : Parser) : Parser :=
  {| log_directory := log_directory st;
     last_position := last_position st;
     current_log_file := current_log_file st;
     message_queue := q;
     shutdown_requested := shutdown_requested st |}.

Definition with_current (f : option string) (st : Parser) : Parser :=
  {| log_directory := log_directory st;
     last_position := last_position st;
     current_log_file := f;
     message_queue := message_queue st;
     shutdown_requested := shutdown_requested st |}.

Definition new_parser (logs_dir : string) : Parser :=
  {| log_directory := logs_dir;
     last_position := ∅;
     current_log_file := None;
     message_queue := [];
     shutdown_requested := false |}.

Definition get_file_position (filepath : string) (st : Parser) : Z :=
  default 0 (last_position st !! filepath).

Definition set_file_position (filepath : string) (position : Z) (st : Parser) : Parser :=
  {| log_directory := log_directory st;
     last_position := <[filepath := position]> (last_position st);
     current_log_file := current_log_file st;
     message_queue := message_queue st;
     shutdown_requested := shutdown_requested st |}.

(** ** The delivery queue *)

(** What the webhook answers to a POST: a status code, or the request
    fails with an exception. *)
Inductive response : Type :=
| Status (code : Z)
| Failed.

(** The webhook: its answer may depend on everything posted before. *)
Definition webhook := list string -> string -> response.

(** [send_to_discord]: every POST is recorded in the list of attempts,
    whatever the answer. *)
Definition send_to_discord (hook : webhook) (message : string) (attempts : list string)
    : bool * list string :=
  if negb (Text.truthy message) then (false, attempts)
  else
    match hook attempts message with
    | Status code => (code =? 204, (attempts ++ [message])%list)
    | Failed => (false, (attempts ++ [message])%list)
    end.

(** [now] is [datetime.now()]. *)
Definition queue_message (now : Z) (message : string) (st : Parser) : Parser :=
  if Text.truthy message
  then with_queue (message_queue st ++ [(message, now + DELAY_BEFORE_SEND)])%list st
  else st.

(** The first loop of a drain cycle. *)
Fixpoint split_due (now : Z) (queue : list (string * Z))
    (messages_to_send : list string) (remaining_messages : list (string * Z))
    : list string * list (string * Z) :=
  match queue with
  | [] => (messages_to_send, remaining_messages)
  | (message, send_time) :: queue' =>
      if send_time <=? now
      then split_due now queue' (messages_to_send ++ [message])%list remaining_messages
      else split_due now queue' messages_to_send
             (remaining_messages ++ [(message, send_time)])%list
  end.

(** The second loop: one [send_to_discord] per message, result unused. *)
Fixpoint send_each (hook : webhook) (messages : list string) (attempts : list string)
    : list string :=
  match messages with
  | [] => attempts
  | message :: rest => send_each hook rest (snd (send_to_discord hook message attempts))
  end.

(** One pass of the loop of [process_message_queue], up to its sleep,
    taken on its own: what the tailing task appends to the queue while a
    send is awaited lands behind [remaining_messages]. *)
Definition process_message_queue (hook : webhook) (now : Z) (st : Parser)
    (attempts : list string) : Parser * list string :=
  let '(messages_to_send, remaining_messages) := split_due now (message_queue st) [] [] in
  (with_queue remaining_messages st, send_each hook messages_to_send attempts).

Definition graceful_shutdown (hook : webhook) (st : Parser) (attempts : list string)
    : Parser * list string :=
  match message_queue st with
  | [] => (st, attempts)
  | _ :: _ => (with_queue [] st, send_each hook (map fst (message_queue st)) attempts)
  end.

(** ** Dates *)

(** A naive [datetime]. *)
Record datetime : Type := {
  year : Z; month : Z; day : Z;
  hour : Z; minute : Z; second : Z; microsecond : Z
}.

Definition is_leap (y : Z) : bool :=
  (y mod 4 =? 0) && (negb (y mod 100 =? 0) || (y mod 400 =? 0)).

Definition days_in_month (y m : Z) : Z :=
  if m =? 2 then (if is_leap y then 29 else 28)
  else if (m =? 4) || (m =? 6) || (m =? 9) || (m =? 11) then 30
  else 31.

Definition between (lo x hi : Z) : bool := (lo <=? x) && (x <=? hi).

(** [datetime(y, m, d, h, mi, s)]: out-of-range fields raise. *)
Definition mk_datetime (y m d h mi s : Z) : outcome datetime :=
  if between 1 y 9999 && between 1 m 12 && between 1 d (days_in_month y m)
     && between 0 h 23 && between 0 mi 59 && between 0 s 59
  then Return {| year := y; month := m; day := d;
                 hour := h; minute := mi; second := s; microsecond := 0 |}
  else Raise ValueError.

(** Comparison of two lists of fields, first difference decides. *)
Fixpoint lex_ltb (a b : list Z) : bool :=
  match a, b with
  | x :: a', y :: b' => (x <? y) || ((x =? y) && lex_ltb a' b')
  | _, _ => false
  end.

Definition dt_fields (t : datetime) : list Z :=
  [year t; month t; day t; hour t; minute t; second t; microsecond t].

(** [a < b] on datetimes. *)
Definition dt_ltb (a b : datetime) : bool := lex_ltb (dt_fields a) (dt_fields b).

(** ** The file system as the program observes it

    Each field is one call; a failing call is [None] (an [OSError]) or the
    raised exception.  [fs_getmtime] is the modification time already
    converted by [datetime.fromtimestamp].  [fs_getsize] is the size in
    bytes.  [fs_open] is the whole text of the file at the moment it is
    opened, as the UTF-8 decoder gives it before newlines are translated. *)
Record FileSystem : Type := {
  fs_exists : string -> bool;
  fs_listdir : string -> option (list string);
  fs_getmtime : string -> option datetime;
  fs_getsize : string -> option Z;
  fs_open : string -> outcome string
}.

(** [os.path.join(a, b)] with the POSIX separator. *)
Definition path_join (a b : string) : string :=
  if Text.startswith "/" b then b
  else if negb (Text.truthy a) || Text.endswith "/" a then a ++ b
  else a ++ "/" ++ b.

(** ** The file selector *)

Section AdmNames.
Import Re.

(** [DayZServer_x64_(\d{4})_(\d{2})_(\d{2})_(\d{2})(\d{2})(\d{2})(\d+)\.ADM] *)
Definition underscore_pattern : regex :=
  cat [lit "DayZServer_x64_"; Grp 1 (digits 4); Chr "_"; Grp 2 (digits 2);
       Chr "_"; Grp 3 (digits 2); Chr "_"; Grp 4 (digits 2); Grp 5 (digits 2);
       Grp 6 (digits 2); Grp 7 (Rep digit 1 None true); lit ".ADM"].

(** [DayZServer_x64_(\d{4})-(\d{2})-(\d{2})_(\d{2})-(\d{2})-(\d{2})\.ADM] *)
Definition dash_pattern : regex :=
  cat [lit "DayZServer_x64_"; Grp 1 (digits 4); Chr "-"; Grp 2 (digits 2);
       Chr "-"; Grp 3 (digits 2); Chr "_"; Grp 4 (digits 2); Chr "-";
       Grp 5 (digits 2); Chr "-"; Grp 6 (digits 2); lit ".ADM"].
End AdmNames.

(** [int(g)] for a group of digits. *)
Definition int_item (gs : list (option string)) (i : nat) : Z :=
  Text.int_of_digits (py_str (item gs i)).

(** [datetime(int(year), ..., int(second))] on the first six groups. *)
Definition datetime_of_groups (gs : list (option string)) : outcome datetime :=
  mk_datetime (int_item gs 0) (int_item gs 1) (int_item gs 2)
              (int_item gs 3) (int_item gs 4) (int_item gs 5).

(** One [re.match] followed by the guarded construction: [None] means
    that control falls through to the next statement. *)
Definition try_pattern (pattern : Re.regex) (filename : string) : option datetime :=
  match Re.re_match pattern filename with
  | Some c =>
      match datetime_of_groups (Re.groups pattern c) with
      | Return t => Some t
      | Raise _ => None
      end
  | None => None
  end.

Definition parse_adm_timestamp (filename : string) : option datetime :=
  match try_pattern underscore_pattern filename with
  | Some t => Some t
  | None => try_pattern dash_pattern filename
  end.

(** The first loop of [find_latest_adm_file]. *)
Fixpoint collect_adm (fs : FileSystem) (log_dir : string) (names : list string)
    : list (string * string) :=
  match names with
  | [] => []
  | filename :: rest =>
      if Text.endswith ".ADM" filename then
        let filepath := path_join log_dir filename in
        if fs_exists fs filepath
        then (filepath, filename) :: collect_adm fs log_dir rest
        else collect_adm fs log_dir rest
      else collect_adm fs log_dir rest
  end.

(** [latest_timestamp is None or t > latest_timestamp] *)
Definition newer (t : datetime) (latest_timestamp : option datetime) : bool :=
  match latest_timestamp with
  | None => true
  | Some l => dt_ltb l t
  end.

(** The second loop, on the pair of its two variables. *)
Fixpoint pick_latest (fs : FileSystem) (adm_files : list (string * string))
    (latest_file : option string) (latest_timestamp : option datetime)
    : option string * option datetime :=
  match adm_files with
  | [] => (latest_file, latest_timestamp)
  | (filepath, filename) :: rest =>
      if String.eqb filename "DayZServer_x64.ADM" then
        match fs_getmtime fs filepath with
        | Some mod_time =>
            if newer mod_time latest_timestamp
            then pick_latest fs rest (Some filepath) (Some mod_time)
            else pick_latest fs rest latest_file latest_timestamp
        | None => pick_latest fs rest latest_file latest_timestamp
        end
      else
        match parse_adm_timestamp filename with
        | Some timestamp =>
            if newer timestamp latest_timestamp
            then pick_latest fs rest (Some filepath) (Some timestamp)
            else pick_latest fs rest latest_file latest_timestamp
        | None => pick_latest fs rest latest_file latest_timestamp
        end
  end.

Definition find_latest_adm_file (fs : FileSystem) (log_dir : string) : option string :=
  if negb (fs_exists fs log_dir) then None
  else
    match fs_listdir fs log_dir with
    | None => None
    | Some names =>
        match collect_adm fs log_dir names with
        | [] => None
        | adm_files => fst (pick_latest fs adm_files None None)
        end
    end.

(** ** The tailing engine *)

(** [f.readline()] until it returns the empty string, in text mode with
    universal newlines: [cur] is the line being read. *)
Fixpoint read_lines (cur : string) (s : string) : list string :=
  match s with
  | "" => if Text.truthy cur then [cur] else []
  | String c s' =>
      if Ascii.eqb c Text.carriage then
        match s' with
        | String c2 s'' =>
            if Ascii.eqb c2 Text.newline
            then (cur ++ String Text.newline "") :: read_lines "" s''
            else (cur ++ String Text.newline "") :: read_lines "" s'
        | "" => [cur ++ String Text.newline ""]
        end
      else if Ascii.eqb c Text.newline
      then (cur ++ String Text.newline "") :: read_lines "" s'
      else read_lines (cur ++ String c "") s'
  end.

(** The bytes of a log file.  The code opens it with [encoding='utf-8',
    errors='ignore'] and moves in it with [seek], [tell] and
    [os.path.getsize], all three in bytes: a character below 128 is one
    byte of the file, a character from 128 to 255 is two. *)
Module Utf8.

(** The bytes of one character. *)
Definition bytes_of (c : ascii) : string :=
  let n := nat_of_ascii c in
  if (n <? 128)%nat then String c ""
  else String (ascii_of_nat (192 + n / 64))
         (String (ascii_of_nat (128 + n mod 64)) "").

(** [text.encode('utf-8')] *)
Fixpoint encode (s : string) : string :=
  match s with
  | "" => ""
  | String c s' => bytes_of c ++ encode s'
  end.

(** The size of the file that holds [s]. *)
Definition byte_length (s : string) : nat := String.length (encode s).

(** A continuation byte, [10xxxxxx]. *)
Definition continuation (b : ascii) : bool :=
  let n := nat_of_ascii b in ((128 <=? n) && (n <? 192))%nat.

(** The first byte of a character from 128 to 255: [0xC2] or [0xC3]. *)
Definition lead (b : ascii) : bool :=
  let n := nat_of_ascii b in ((n =? 194) || (n =? 195))%nat.

(** The decoder with [errors='ignore'], on the bytes of an encoded text
    from any offset: a byte that starts no character (a continuation byte
    without its first byte, a first byte without its continuation) is left
    out and decoding resumes at the next byte.  The first bytes of longer
    sequences do not occur in the encoding of a text. *)
Fixpoint decode (b : string) : string :=
  match b with
  | "" => ""
  | String x b' =>
      if (nat_of_ascii x <? 128)%nat then String x (decode b')
      else if lead x then
        match b' with
        | String y b'' =>
            if continuation y
            then String (ascii_of_nat ((nat_of_ascii x - 192) * 64
                                       + (nat_of_ascii y - 128)))
                   (decode b'')
            else decode b'
        | "" => ""
        end
      else decode b'
  end.

(** [f.seek(position)] and what the decoder gives from there to the end
    of the file. *)
Definition seek (position : nat) (content : string) : string :=
  decode (Text.drop position (encode content)).

End Utf8.

(** [f.seek(last_pos)], the reading loop and [f.tell()].  The loop ends
    when [readline] meets the end of the file, and [tell] is then the
    offset of that end in bytes, or [last_pos] when the seek went beyond
    it.  A stored position is never negative: it comes from [tell], from
    [os.path.getsize] or is 0. *)
Definition read_new (last_pos : Z) (content : string) : list string * Z :=
  let size := Z.of_nat (Utf8.byte_length content) in
  (read_lines "" (Utf8.seek (Z.to_nat last_pos) content),
   if last_pos <=? size then size else last_pos).

(** The clock readings of one pass. *)
Record Clock : Type := {
  now_hms : string;   (* datetime.now().strftime *)
  now : Z;            (* datetime.now() *)
  time : Z            (* time.time() *)
}.

(** The loop over the lines read.  A raised exception leaves the queue
    as the lines before it made it. *)
Fixpoint process_lines (clk : Clock) (new_lines : list string) (st : Parser)
    : Parser * option exn :=
  match new_lines with
  | [] => (st, None)
  | line :: rest =>
      match parse_kill_event (now_hms clk) line with
      | Raise e => (st, Some e)
      | Return None => process_lines clk rest st
      | Return (Some kd) =>
          let message := format_discord_message (Some kd) in
          process_lines clk rest
            (if Text.truthy message then queue_message (now clk) message st else st)
      end
  end.

(** How one pass of the loop of [monitor_single_file] ends. *)
Inductive pass_end : Type :=
| Sleep (delay : Z)        (* sleep, then test the loop condition again *)
| Break                    (* leave the loop *)
| SleepBreak (delay : Z).  (* sleep, then leave the loop *)

Definition path_truthy (p : option string) : bool :=
  match p with
  | Some s => Text.truthy s
  | None => false
  end.

Definition path_differs (p : option string) (filepath : string) : bool :=
  match p with
  | Some s => negb (String.eqb s filepath)
  | None => true
  end.

(** The rotation check at the end of a pass. *)
Definition check_rotation (fs : FileSystem) (filepath : string) (last_pos : Z)
    (st : Parser) : Parser * pass_end :=
  match fs_getsize fs filepath with
  | Some current_size =>
      ((if current_size <? last_pos then set_file_position filepath 0 st else st),
       Sleep (seconds 1))
  | None => (st, Break)
  end.

(** One pass of the loop of [monitor_single_file]; the local variable
    [last_file_check_time] is threaded next to the parser. *)
Definition monitor_single_file (fs : FileSystem) (clk : Clock) (filepath : string)
    (st : Parser) (last_file_check_time : Z) : Parser * Z * pass_end :=
  let last_pos := get_file_position filepath st in
  match fs_open fs filepath with
  | Raise FileNotFoundError => (st, last_file_check_time, SleepBreak (seconds 5))
  | Raise _ => (st, last_file_check_time, Sleep (seconds 5))
  | Return content =>
      let '(new_lines, new_pos) := read_new last_pos content in
      match process_lines clk new_lines st with
      | (st1, Some _) => (st1, last_file_check_time, Sleep (seconds 5))
      | (st1, None) =>
          let st2 := match new_lines with
                     | [] => st1
                     | _ :: _ => set_file_position filepath new_pos st1
                     end in
          if FILE_CHECK_INTERVAL <=? time clk - last_file_check_time then
            let latest_file := find_latest_adm_file fs (log_directory st2) in
            if path_truthy latest_file && path_differs latest_file filepath
            then (st2, time clk, Break)
            else let '(st3, e) := check_rotation fs filepath last_pos st2 in
                 (st3, time clk, e)
          else let '(st3, e) := check_rotation fs filepath last_pos st2 in
               (st3, last_file_check_time, e)
      end
  end.

(** Start at the end of a newly chosen file. *)
Definition start_at_end (fs : FileSystem) (latest_file : string) (st : Parser) : Parser :=
  match fs_getsize fs latest_file with
  | Some file_size => set_file_position latest_file file_size st
  | None => set_file_position latest_file 0 st
  end.

(** How the selecting part of a pass of [monitor_latest_file] ends. *)
Inductive selection : Type :=
| Retry (delay : Z)          (* sleep and start the pass again *)
| Monitor (filepath : string).  (* call monitor_single_file on it *)

(** One pass of the loop of [monitor_latest_file], up to the call of
    [monitor_single_file]. *)
Definition monitor_latest_file (fs : FileSystem) (st : Parser) : Parser * selection :=
  let latest_file := find_latest_adm_file fs (log_directory st) in
  match current_log_file st with
  | None =>
      match latest_file with
      | Some f =>
          if Text.truthy f
          then (start_at_end fs f (with_current (Some f) st), Monitor f)
          else (st, Retry (seconds 30))
      | None => (st, Retry (seconds 30))
      end
  | Some current =>
      let st1 :=
        match latest_file with
        | Some f =>
            if Text.truthy f && negb (String.eqb f current)
            then start_at_end fs f (with_current (Some f) st)
            else st
        | None => st
        end in
      match current_log_file st1 with
      | Some f => if Text.truthy f then (st1, Monitor f) else (st1, Retry (seconds 5))
      | None => (st1, Retry (seconds 5))
      end
  end.

(** Every queued message is a non-empty text: [queue_message] is the
    only producer and refuses the empty one. *)
Definition queue_ok (st : Parser) : Prop :=
  Forall (fun entry => Text.truthy (fst entry) = true) (message_queue st).

(** [now >= send_time] *)
Definition is_due (now : Z) (entry : string * Z) : bool := snd entry <=? now.

(** The logical timestamp of an ADM file: the modification time for the
    static name, the time parsed from the name otherwise. *)
Definition stamp (fs : FileSystem) (entry : string * string) : option datetime :=
  if String.eqb (snd entry) "DayZServer_x64.ADM"
  then fs_getmtime fs (fst entry)
  else parse_adm_timestamp (snd entry).

(** The candidates of a directory, as pairs of path and name: empty when
    the directory is missing or cannot be listed. *)
Definition candidates (fs : FileSystem) (log_dir : string) : list (string * string) :=
  if fs_exists fs log_dir then
    match fs_listdir fs log_dir with
    | Some names => collect_adm fs log_dir names
    | None => []
    end
  else [].

(** No candidate is later than [t]. *)
Definition latest_among (fs : FileSystem) (files : list (string * string))
    (t : datetime) : Prop :=
  forall entry t', In entry files -> stamp fs entry = Some t' -> dt_ltb t t' = false.

(** The state of the second loop after the files [done]. *)
Definition pick_inv (fs : FileSystem) (done : list (string * string))
    (latest_file : option string) (latest_timestamp : option datetime) : Prop :=
  match latest_file, latest_timestamp with
  | None, None => forall entry, In entry done -> stamp fs entry = None
  | Some filepath, Some t =>
      (exists filename, In (filepath, filename) done
                        /\ stamp fs (filepath, filename) = Some t)
      /\ latest_among fs done t
  | _, _ => False
  end.

(** The parser when the rotation check of a pass runs: the lines read
    are processed and, if there were any, the new offset is stored. *)
Definition at_check (clk : Clock) (filepath : string) (content : string) (st : Parser)
    : Parser :=
  let '(new_lines, new_pos) := read_new (get_file_position filepath st) content in
  let st1 := fst (process_lines clk new_lines st) in
  match new_lines with
  | [] => st1
  | _ :: _ => set_file_position filepath new_pos st1
  end.

Module SampleFiles.
Definition underscore_name : string := "DayZServer_x64_2025_05_24_224940076.ADM".
Definition dash_name : string := "DayZServer_x64_2025-08-12_13-38-51.ADM".
Definition lower_name : string := "DayZServer_x64_2025-08-12_13-38-51.adm".

(** A directory [/profiles] that lists [names]; every path exists, no
    modification time is known, every file has 1000 bytes. *)
Definition listing (names : list string) : FileSystem :=
  {| fs_exists := fun _ => true;
     fs_listdir := fun d => if String.eqb d "/profiles" then Some names else None;
     fs_getmtime := fun _ => None;
     fs_getsize := fun _ => Some 1000;
     fs_open := fun _ => Return (Samples.repeat_char "x" 1000) |}.

(** No directory at all. *)
Definition nothing : FileSystem :=
  {| fs_exists := fun _ => false;
     fs_listdir := fun _ => None;
     fs_getmtime := fun _ => None;
     fs_getsize := fun _ => None;
     fs_open := fun _ => Raise FileNotFoundError |}.
(** The file of [dash_name] after a rotation: eleven bytes. *)
Definition rotated : FileSystem :=
  {| fs_exists := fun _ => true;
     fs_listdir := fun d => if String.eqb d "/profiles" then Some [dash_name] else None;
     fs_getmtime := fun _ => None;
     fs_getsize := fun _ => Some 11;
     fs_open := fun _ => Return ("fresh line" ++ Samples.nl) |}.

Definition noon : Clock :=
  {| now_hms := "12:00:00"; now := seconds 43200; time := seconds 43200 |}.

(** A parser that has read [dash_name] up to offset 1000. *)
Definition reader : Parser :=
  set_file_position (path_join "/profiles" dash_name) 1000
    (with_current (Some (path_join "/profiles" dash_name)) (new_parser "/profiles")).

(** A file that holds a good line followed by a line with a malformed
    distance. *)
Definition with_bad_line : FileSystem :=
  {| fs_exists := fun _ => true;
     fs_listdir := fun d => if String.eqb d "/profiles" then Some [dash_name] else None;
     fs_getmtime := fun _ => None;
     fs_getsize := fun _ => Some 200;
     fs_open := fun _ => Return (Samples.line_ak ++ Samples.line_bad_distance) |}.

(** A parser that monitors [dash_name] from offset 0. *)
Definition beginner : Parser :=
  set_file_position (path_join "/profiles" dash_name) 0
    (with_current (Some (path_join "/profiles" dash_name)) (new_parser "/profiles")).
End SampleFiles.

(** ** What the specification says of sanitisation

    Every character of the input is copied; each of the six reserved ones
    is preceded by one backslash. *)

Definition reserved (c : ascii) : bool :=
  existsb (Ascii.eqb c) escape_chars.

Fixpoint escape_each (s : string) : string :=
  match s with
  | "" => ""
  | String c s' =>
      if reserved c then String Text.backslash (String c (escape_each s'))
      else String c (escape_each s')
  end.

(** The loop of [sanitize_discord_text]: the six replacements in the
    order of the source. *)
Definition six_replacements (text : string) : string :=
  fold_left
    (fun sanitized char => replace char (String Text.backslash (String char "")) sanitized)
    escape_chars text.

(** A record with another value of [distance]. *)
Definition with_distance (d : distance_val) (kd : KillRecord) : KillRecord :=
  {| timestamp := timestamp kd;
     victim := victim kd;
     killer := killer kd;
     weapon := weapon kd;
     distance := d;
     original_line := original_line kd |}.

(** The message without its distance suffix. *)
Definition message_body (kd : KillRecord) : string :=
  "**" ++ py_str (sanitize_value (killer kd)) ++ "** killed **"
    ++ py_str (sanitize_value (victim kd)) ++ "** with " ++ py_str (weapon_str (weapon kd)).

(** [n] is an integer nearest to [m * 2^e]: twice the distance between
    them is at most one, both sides scaled to integers. *)
Definition nearest_integer (n m e : Z) : Prop :=
  Z.abs (2 * (m * 2 ^ Z.max 0 e) - 2 * n * 2 ^ Z.max 0 (- e)) <= 2 ^ Z.max 0 (- e).

(** ** What a pattern matches

    The texts a pattern can match, without the order in which the matcher
    tries them: [matches r s c s' c'] says that [r] matches a prefix of
    [s], leaving [s'], and turns the captures [c] into [c']. *)

Definition all_in (p : ascii -> bool) (w : string) : Prop :=
  forall a, In a (list_ascii_of_string w) -> p a = true.

Inductive matches : Re.regex -> string -> Re.captures -> string -> Re.captures -> Prop :=
| M_Eps s c : matches Re.Eps s c s c
| M_Chr a s c : matches (Re.Chr a) (String a s) c s c
| M_Cls (p : ascii -> bool) b s c :
    p b = true -> matches (Re.Cls p) (String b s) c s c
| M_Rep (p : ascii -> bool) lo hi g w s c :
    all_in p w ->
    (lo <= String.length w)%nat ->
    (forall h, hi = Some h -> String.length w <= lo + (h - lo))%nat ->
    matches (Re.Rep p lo hi g) (w ++ s) c s c
| M_Grp i r s c s' c' :
    matches r s c s' c' ->
    matches (Re.Grp i r) s c s'
            ((i, Text.take (String.length s - String.length s') s) :: c')
| M_Cat r1 r2 s c s1 c1 s2 c2 :
    matches r1 s c s1 c1 -> matches r2 s1 c1 s2 c2 ->
    matches (Re.Cat r1 r2) s c s2 c2
| M_Alt_l r1 r2 s c s' c' :
    matches r1 s c s' c' -> matches (Re.Alt r1 r2) s c s' c'
| M_Alt_r r1 r2 s c s' c' :
    matches r2 s c s' c' -> matches (Re.Alt r1 r2) s c s' c'
| M_Eol_end c : matches Re.Eol "" c "" c
| M_Eol_newline c :
    matches Re.Eol (String Text.newline "") c (String Text.newline "") c.

(** A float that is zero, a positive number or plus infinity: neither
    negative nor a NaN. *)
Definition nonneg_float (x : spec_float) : Prop :=
  match x with
  | S754_zero s | S754_infinity s | S754_finite s _ _ => s = false
  | S754_nan => False
  end.

(** Reading a sanitised text back: a backslash is dropped and the
    character after it kept. *)
Fixpoint unescape (s : string) : string :=
  match s with
  | "" => ""
  | String c s' =>
      if Ascii.eqb c Text.backslash then
        match s' with
        | String d s'' => String d (unescape s'')
        | "" => ""
        end
      else String c (unescape s')
  end.

(** The number of reserved characters of a text. *)
Fixpoint count_reserved (s : string) : nat :=
  match s with
  | "" => 0
  | String c s' => ((if reserved c then 1 else 0) + count_reserved s')%nat
  end.

(** ** Runs of the queue

    What the two tasks do to the queue, in the order in which the event
    loop runs them: the tailing task enqueues, the drain task makes one
    pass. *)
Inductive queue_op : Type :=
| Enqueue (now : Z) (message : string)
| Drain (now : Z).

Fixpoint run_queue (hook : webhook) (ops : list queue_op) (st : Parser)
    (attempts : list string) : Parser * list string :=
  match ops with
  | [] => (st, attempts)
  | Enqueue now message :: rest =>
      run_queue hook rest (queue_message now message st) attempts
  | Drain now :: rest =>
      let '(st', attempts') := process_message_queue hook now st attempts in
      run_queue hook rest st' attempts'
  end.

(** The non-empty messages that a run enqueues, in order. *)
Fixpoint enqueued (ops : list queue_op) : list string :=
  match ops with
  | [] => []
  | Enqueue _ message :: rest =>
      if Text.truthy message then message :: enqueued rest else enqueued rest
  | Drain _ :: rest => enqueued rest
  end.

(** ** Runs of the tailing loop *)

(** The messages that the lines of a read put in the queue when no line
    raises: one per line that gives a record. *)
Fixpoint messages_of (new_lines : list string) : list string :=
  match new_lines with
  | [] => []
  | line :: rest =>
      match parse_kill_event "" line with
      | Return (Some kd) => format_discord_message (Some kd) :: messages_of rest
      | _ => messages_of rest
      end
  end.

(** No line of the text makes [parse_kill_event] raise. *)
Definition parses (text : string) : Prop :=
  forall line e, In line (read_lines "" text) -> parse_kill_event "" line <> Raise e.

(** A text that is empty or ends with a line feed: the writer has
    finished its last line. *)
Definition line_aligned (text : string) : Prop :=
  text = "" \/ exists body, text = body ++ String Text.newline "".

(** The loop of [monitor_single_file] over the successive states of the
    world, one per pass: it goes on while the passes end in a sleep and
    no shutdown is requested. *)
Fixpoint monitor_passes (world : list (FileSystem * Clock)) (filepath : string)
    (st : Parser) (last_file_check_time : Z) : Parser :=
  match world with
  | [] => st
  | (fs, clk) :: rest =>
      if shutdown_requested st then st
      else
        let '(st', t', e) := monitor_single_file fs clk filepath st last_file_check_time in
        match e with
        | Sleep _ => monitor_passes rest filepath st' t'
        | _ => st'
        end
  end.

(** A world in which the file at [filepath] only grows, by whole lines
    that parse, from [content] by the chunks [grown]; its size is read
    after the text and agrees with it; no other file becomes the latest. *)
Fixpoint grows (filepath : string) (log_dir : string) (content : string)
    (world : list (FileSystem * Clock)) (grown : list string) : Prop :=
  match world, grown with
  | [], [] => True
  | (fs, clk) :: world', chunk :: grown' =>
      fs_open fs filepath = Return (content ++ chunk)
      /\ fs_getsize fs filepath = Some (Z.of_nat (Utf8.byte_length (content ++ chunk)))
      /\ path_truthy (find_latest_adm_file fs log_dir)
         && path_differs (find_latest_adm_file fs log_dir) filepath = false
      /\ line_aligned chunk
      /\ parses chunk
      /\ grows filepath log_dir (content ++ chunk) world' grown'
  | _, _ => False
  end.

(** All the chunks, one after the other. *)
Fixpoint joined (grown : list string) : string :=
  match grown with
  | [] => ""
  | chunk :: rest => chunk ++ joined rest
  end.

(** What a pass may change: the queue, by appending, and the position of
    the monitored file. *)
Definition framed (filepath : string) (st st' : Parser) : Prop :=
  (exists added, message_queue st' = (message_queue st ++ added)%list)
  /\ (forall other, other <> filepath ->
        get_file_position other st' = get_file_position other st)
  /\ current_log_file st' = current_log_file st
  /\ log_directory st' = log_directory st
  /\ shutdown_requested st' = shutdown_requested st.

(** A character that ends no line. *)
Definition unbroken (c : ascii) : bool :=
  negb (Ascii.eqb c Text.carriage) && negb (Ascii.eqb c Text.newline).

(** A finished line: characters that end no line, then a line feed. *)
Fixpoint whole_line (line : string) : bool :=
  match line with
  | "" => false
  | String c "" => Ascii.eqb c Text.newline
  | String c rest => unbroken c && whole_line rest
  end.

(** Universal newlines, as the documentation of [open] has them: a
    carriage return followed by a line feed, and a carriage return alone,
    are each given to the reader as one line feed. *)
Fixpoint universal (s : string) : string :=
  match s with
  | "" => ""
  | String c s' =>
      if Ascii.eqb c Text.carriage then
        String Text.newline
          match s' with
          | String c2 s'' => if Ascii.eqb c2 Text.newline then universal s'' else universal s'
          | "" => ""
          end
      else String c (universal s')
  end.

(** Lines with a character of two bytes. *)
Module Accents.
Definition e_acute : ascii := "233"%char.

Definition zoe : string := "Zo" ++ String e_acute "".

Definition line_zoe : string :=
  "14:32:10 | Player " ++ Text.quoted zoe ++ " (id=1) killed by Player "
    ++ Text.quoted "Alice" ++ " (id=2) with AK74 from 123 meters" ++ Samples.nl.
End Accents.

Module SampleRuns.
(** The monitored file and a world that shows [content] in it. *)
Definition path : string := path_join "/profiles" SampleFiles.dash_name.

Definition showing (content : string) : FileSystem :=
  {| fs_exists := fun _ => true;
     fs_listdir := fun d =>
       if String.eqb d "/profiles" then Some [SampleFiles.dash_name] else None;
     fs_getmtime := fun _ => None;
     fs_getsize := fun _ => Some (Z.of_nat (Utf8.byte_length content));
     fs_open := fun _ => Return content |}.

(** A parser that has read the first line of the file. *)
Definition start : Parser :=
  set_file_position path (Z.of_nat (Utf8.byte_length Samples.line_m4))
    (with_current (Some path) (new_parser "/profiles")).

(** Two passes: a kill line is appended before the first, another one
    before the second. *)
Definition two_passes : list (FileSystem * Clock) :=
  [(showing (Samples.line_m4 ++ Accents.line_zoe), SampleFiles.noon);
   (showing ((Samples.line_m4 ++ Accents.line_zoe) ++ Samples.line_mosin),
    SampleFiles.noon)].

(** The file is read with two lines in it and is cut down to ten bytes
    more than the first line before its size is taken. *)
Definition cut_after_read : FileSystem :=
  {| fs_exists := fun _ => true;
     fs_listdir := fun d =>
       if String.eqb d "/profiles" then Some [SampleFiles.dash_name] else None;
     fs_getmtime := fun _ => None;
     fs_getsize := fun _ => Some (Z.of_nat (Utf8.byte_length Samples.line_m4) + 10);
     fs_open := fun _ => Return (Samples.line_m4 ++ Samples.line_ak) |}.
End SampleRuns.

(** ** The two naming conventions *)

(** A text of exactly [n] decimal digits. *)
Definition digit_text (n : nat) (s : string) : Prop :=
  String.length s = n /\ all_in Re.digit s.

(** [DayZServer_x64_YYYY-MM-DD_HH-MM-SS.ADM] *)
Definition dash_format (y mo d h mi s : string) : string :=
  "DayZServer_x64_" ++ y ++ "-" ++ mo ++ "-" ++ d ++ "_" ++ h ++ "-" ++ mi ++ "-" ++ s
    ++ ".ADM".

(** [DayZServer_x64_YYYY_MM_DD_HHMMSSfff.ADM], [frac] standing for the
    digits after the seconds. *)
Definition underscore_format (y mo d h mi s frac : string) : string :=
  "DayZServer_x64_" ++ y ++ "_" ++ mo ++ "_" ++ d ++ "_" ++ h ++ mi ++ s ++ frac ++ ".ADM".

(** The datetime of six texts of digits, none when they are no date. *)
Definition datetime_of_texts (y mo d h mi s : string) : option datetime :=
  match mk_datetime (Text.int_of_digits y) (Text.int_of_digits mo) (Text.int_of_digits d)
                    (Text.int_of_digits h) (Text.int_of_digits mi) (Text.int_of_digits s) with
  | Return t => Some t
  | Raise _ => None
  end.

(** ** Configuration and start *)

(** The two constants at the head of the source, both blank. *)
Definition DISCORD_WEBHOOK_URL : string := "".
Definition DAYZ_LOGS_DIR : string := "".

(** The parsed command line: a flag that is absent is [None]. *)
Record Args : Type := {
  discord_webhook : option string;
  logs_path : option string
}.

(** [CONSTANT if CONSTANT else args.flag] *)
Definition constant_or (constant : string) (argument : option string) : option string :=
  if Text.truthy constant then Some constant else argument.

(** [get_config], for any values of the two constants. *)
Definition get_config_with (webhook_constant dir_constant : string) (args : Args)
    : option string * option string :=
  let webhook := constant_or webhook_constant (discord_webhook args) in
  let logs_dir := constant_or dir_constant (logs_path args) in
  if negb (path_truthy webhook) then (None, None)
  else if negb (path_truthy logs_dir) then (None, None)
  else (webhook, logs_dir).

Definition get_config (args : Args) : option string * option string :=
  get_config_with DISCORD_WEBHOOK_URL DAYZ_LOGS_DIR args.

(** How the main block ends: it runs a new parser with a webhook, or
    exits with a status. *)
Inductive start : Type :=
| Runs (webhook : string) (parser : Parser)
| Exits (status : Z).

Definition main_with (webhook_constant dir_constant : string) (args : Args) : start :=
  match get_config_with webhook_constant dir_constant args with
  | (Some webhook, Some logs_dir) =>
      if Text.truthy webhook && Text.truthy logs_dir
      then Runs webhook (new_parser logs_dir)
      else Exits 1
  | _ => Exits 1
  end.

Definition main (args : Args) : start :=
  main_with DISCORD_WEBHOOK_URL DAYZ_LOGS_DIR args.

(** [should_check_for_newer_file] on the field [last_file_check], which
    it reads and sets: the answer and the new value of the field. *)
Definition should_check_for_newer_file (current_time last_file_check : Z) : bool * Z :=
  if FILE_CHECK_INTERVAL <=? current_time - last_file_check
  then (true, current_time)
  else (false, last_file_check).

(** * Properties *)

(** ** Text *)

Lemma append_assoc (a b c : string) : (a ++ b) ++ c = a ++ (b ++ c).
Proof. induction a as [|x a IH]; simpl; [reflexivity | now rewrite IH]. Qed.

Lemma append_nil_r (a : string) : a ++ "" = a.
Proof. induction a as [|x a IH]; simpl; [reflexivity | now rewrite IH]. Qed.

Lemma length_append (a b : string) :
  String.length (a ++ b) = (String.length a + String.length b)%nat.
Proof. induction a as [|x a IH]; simpl; [reflexivity | now rewrite IH]. Qed.

(** ** Sanitisation *)

Lemma replace_append (old : ascii) (new a b : string) :
  replace old new (a ++ b) = replace old new a ++ replace old new b.
Proof.
  induction a as [|x a IH]; simpl; [reflexivity|].
  destruct (Ascii.eqb x old); rewrite IH; [now rewrite append_assoc | reflexivity].
Qed.

Lemma six_replacements_append (a b : string) :
  six_replacements (a ++ b) = six_replacements a ++ six_replacements b.
Proof.
  unfold six_replacements, escape_chars. simpl fold_left.
  now rewrite !replace_append.
Qed.

Lemma six_replacements_char (c : ascii) :
  six_replacements (String c "") =
  if reserved c then String Text.backslash (String c "") else String c "".
Proof.
  destruct c as [[] [] [] [] [] [] [] []]; vm_compute; reflexivity.
Qed.

Lemma six_replacements_escape (text : string) :
  six_replacements text = escape_each text.
Proof.
  induction text as [|c s IH]; [reflexivity|].
  change (String c s) with (String c "" ++ s).
  rewrite six_replacements_append, six_replacements_char, IH.
  simpl. destruct (reserved c); reflexivity.
Qed.

(** C3. For every input string, [sanitize_discord_text] returns the input
    with each occurrence of the six reserved characters (backslash,
    asterisk, underscore, backtick, tilde, pipe) preceded by exactly one
    backslash and every other character unchanged: the six replacements
    in sequence never escape a character twice. *)
Theorem sanitize_discord_text_escapes_each_once (text : string) :
  sanitize_discord_text text = escape_each text.
Proof.
  unfold sanitize_discord_text.
  destruct text as [|c s]; [reflexivity|].
  simpl negb. cbv iota.
  apply six_replacements_escape.
Qed.

(** ** Decimal rendering *)

Lemma digit_val_digit_char (d : Z) :
  0 <= d < 10 -> Text.digit_val (Text.digit_char d) = d.
Proof.
  intros H.
  assert (d = 0 \/ d = 1 \/ d = 2 \/ d = 3 \/ d = 4 \/ d = 5 \/ d = 6
          \/ d = 7 \/ d = 8 \/ d = 9) as Hd by lia.
  repeat (destruct Hd as [-> | Hd]; [reflexivity|]). now subst.
Qed.

Lemma is_digit_digit_char (d : Z) :
  0 <= d < 10 -> Text.is_digit (Text.digit_char d) = true.
Proof.
  intros H.
  assert (d = 0 \/ d = 1 \/ d = 2 \/ d = 3 \/ d = 4 \/ d = 5 \/ d = 6
          \/ d = 7 \/ d = 8 \/ d = 9) as Hd by lia.
  repeat (destruct Hd as [-> | Hd]; [reflexivity|]). now subst.
Qed.

Lemma int_of_digits_acc_append (a0 : Z) (p q : string) :
  Text.int_of_digits_acc a0 (p ++ q) =
  Text.int_of_digits_acc (Text.int_of_digits_acc a0 p) q.
Proof.
  revert a0. induction p as [|c p IH]; intros a0; simpl; [reflexivity | apply IH].
Qed.

(** [dec_digits] puts in front of [acc] the digits of [n], least
    significant last. *)
Lemma dec_digits_spec (fuel : nat) :
  forall (n : Z) (acc : string),
    0 <= n < 2 ^ Z.of_nat fuel ->
    exists p, Text.dec_digits fuel n acc = p ++ acc
              /\ forall a0, Text.int_of_digits_acc a0 p
                            = a0 * 10 ^ Z.of_nat (String.length p) + n.
Proof.
  induction fuel as [|fuel IH]; intros n acc Hn.
  - exists "". split; [reflexivity|]. intros a0. simpl in *. lia.
  - cbn [Text.dec_digits].
    assert (0 <= n mod 10 < 10) as Hm by (apply Z.mod_pos_bound; lia).
    destruct (n <? 10) eqn:Hlt.
    + apply Z.ltb_lt in Hlt.
      exists (String (Text.digit_char (n mod 10)) ""). split; [reflexivity|].
      intros a0. cbn [Text.int_of_digits_acc String.length].
      rewrite digit_val_digit_char by exact Hm.
      rewrite Z.mod_small by lia. change (Z.of_nat 1) with 1. lia.
    + apply Z.ltb_ge in Hlt.
      destruct (IH (n / 10) (String (Text.digit_char (n mod 10)) acc)) as (p & Hp & Hv).
      { split; [apply Z.div_pos; lia|].
        apply Z.div_lt_upper_bound; [lia|].
        rewrite Nat2Z.inj_succ, Z.pow_succ_r in Hn by lia. lia. }
      exists (p ++ String (Text.digit_char (n mod 10)) ""). split.
      * rewrite Hp, append_assoc. reflexivity.
      * intros a0. rewrite int_of_digits_acc_append, Hv.
        cbn [Text.int_of_digits_acc]. rewrite digit_val_digit_char by exact Hm.
        rewrite length_append. cbn [String.length].
        rewrite Nat2Z.inj_add. change (Z.of_nat 1) with 1.
        rewrite Z.pow_add_r by lia. change (10 ^ 1) with 10.
        pose proof (Z.div_mod n 10 ltac:(lia)). lia.
Qed.

(** The rendering read back as a number is the number itself. *)
Lemma str_of_nonneg_value (n : Z) :
  0 <= n -> Text.int_of_digits (Text.str_of_nonneg n) = n.
Proof.
  intros Hn. unfold Text.str_of_nonneg, Text.int_of_digits.
  destruct (dec_digits_spec (S (Z.to_nat (Z.log2 n))) n "") as (p & Hp & Hv).
  - split; [exact Hn|].
    rewrite Nat2Z.inj_succ, Z2Nat.id by apply Z.log2_nonneg.
    destruct (Z.eq_dec n 0) as [-> | Hne]; [reflexivity|].
    apply Z.log2_spec. lia.
  - rewrite Hp, append_nil_r, Hv. lia.
Qed.

(** The rendering ends with a digit. *)
Lemma dec_digits_last (fuel : nat) :
  forall (n : Z) (acc : string),
    exists p, Text.dec_digits (S fuel) n acc
              = p ++ String (Text.digit_char (n mod 10)) acc.
Proof.
  induction fuel as [|fuel IH]; intros n acc.
  - exists "". cbn [Text.dec_digits]. destruct (n <? 10); reflexivity.
  - remember (S fuel) as f. cbn [Text.dec_digits].
    destruct (n <? 10); [exists ""; reflexivity|]. subst f.
    destruct (IH (n / 10) (String (Text.digit_char (n mod 10)) acc)) as (p & Hp).
    exists (p ++ String (Text.digit_char ((n / 10) mod 10)) "").
    rewrite Hp, append_assoc. reflexivity.
Qed.

(** ** Formatting *)

Lemma round_half_even_nearest (m e : Z) :
  0 < m -> nearest_integer (Float.round_half_even m e) m e.
Proof.
  intros Hm. unfold nearest_integer, Float.round_half_even.
  destruct (0 <=? e) eqn:He.
  - apply Z.leb_le in He.
    rewrite (Z.max_r 0 e), (Z.max_l 0 (- e)) by lia.
    change (2 ^ 0) with 1.
    replace (2 * (m * 2 ^ e) - 2 * (m * 2 ^ e) * 1) with 0 by ring.
    simpl. lia.
  - apply Z.leb_gt in He.
    rewrite (Z.max_l 0 e), (Z.max_r 0 (- e)) by lia.
    change (2 ^ 0) with 1.
    assert (0 < 2 ^ (- e)) as Hd by (apply Z.pow_pos_nonneg; lia).
    set (d := 2 ^ (- e)) in *.
    pose proof (Z.div_mod m d ltac:(lia)) as Hdm.
    pose proof (Z.mod_pos_bound m d Hd) as Hr.
    set (q := m / d) in *. set (r := m mod d) in *.
    destruct (2 * r <? d) eqn:H1; [apply Z.ltb_lt in H1; nia|].
    apply Z.ltb_ge in H1.
    destruct (d <? 2 * r) eqn:H2; [apply Z.ltb_lt in H2; nia|].
    apply Z.ltb_ge in H2.
    destruct (Z.even q); nia.
Qed.

Lemma drop_drop (a b : nat) (s : string) :
  Text.drop a (Text.drop b s) = Text.drop (b + a) s.
Proof.
  revert s. induction b as [|b IH]; intros s; [reflexivity|].
  destruct s as [|c s]; simpl; [destruct a; reflexivity | apply IH].
Qed.

Lemma drop_append_length (a b : string) :
  Text.drop (String.length a) (a ++ b) = b.
Proof. induction a as [|c a IH]; simpl; [reflexivity | exact IH]. Qed.

Lemma message_body_with_distance (d : distance_val) (kd : KillRecord) :
  message_body (with_distance d kd) = message_body kd.
Proof. reflexivity. Qed.

Lemma format_body_suffix (kd : KillRecord) :
  format_discord_message (Some kd) = message_body kd ++ distance_str (distance kd).
Proof.
  unfold format_discord_message, message_body.
  now rewrite !append_assoc.
Qed.

(** C4, as the code has it. [format_discord_message] is a total function:
    without a record it returns the empty string, with a record never the
    empty string; with distance 0 (the literal or a float zero) the
    message has no distance suffix; with a finite float distance above 0
    the message ends with the suffix made of a space, an opening bracket,
    N, the letter m and a closing bracket, where N is an integer nearest
    to the distance; with an infinite distance the suffix holds the text
    inf in place of a number. *)
Theorem format_discord_message_shape :
  format_discord_message None = ""
  /\ (forall kd, format_discord_message (Some kd) <> "")
  /\ (forall kd, format_discord_message (Some (with_distance DZero kd)) = message_body kd)
  /\ (forall kd s,
        format_discord_message (Some (with_distance (DFloat (S754_zero s)) kd))
        = message_body kd)
  /\ (forall kd m e,
        exists n, nearest_integer n (Zpos m) e
          /\ format_discord_message (Some (with_distance (DFloat (S754_finite false m e)) kd))
             = message_body kd ++ " (" ++ Text.str_of_nonneg n ++ "m)")
  /\ (forall kd,
        format_discord_message (Some (with_distance (DFloat (S754_infinity false)) kd))
        = message_body kd ++ " (infm)").
Proof.
  split; [reflexivity|].
  split; [intros kd; discriminate|].
  split.
  { intros kd. rewrite format_body_suffix, message_body_with_distance.
    apply append_nil_r. }
  split.
  { intros kd s. rewrite format_body_suffix, message_body_with_distance.
    destruct s; apply append_nil_r. }
  split.
  { intros kd m e. exists (Float.round_half_even (Zpos m) e). split.
    - apply round_half_even_nearest. lia.
    - rewrite format_body_suffix, message_body_with_distance. reflexivity. }
  intros kd. rewrite format_body_suffix, message_body_with_distance. reflexivity.
Qed.

(** The record of the counterexample is one that extraction produces. *)
Lemma parse_kill_event_far :
  parse_kill_event "00:00:00" Samples.line_far = Return (Some Samples.kill_far).
Proof. vm_compute. reflexivity. Qed.

(** C4, as the specification states it, fails for an infinite distance:
    it is above 0, and the message ends with the text inf between the
    bracket and the letter m, so for no integer N at all does the message
    end with the suffix built from N. *)
Lemma format_discord_message_infinite_distance :
  Float.gt_zero (S754_infinity false) = true
  /\ format_discord_message (Some Samples.kill_far)
     = "**Alice** killed **Bob** with AK74 (infm)"
  /\ forall n : Z,
       Text.endswith (" (" ++ Text.str_of_nonneg n ++ "m)")
                     (format_discord_message (Some Samples.kill_far)) = false.
Proof.
  split; [reflexivity|]. split; [reflexivity|].
  intros n.
  assert (format_discord_message (Some Samples.kill_far)
          = "**Alice** killed **Bob** with AK74 (infm)") as -> by reflexivity.
  assert (exists p d, Text.str_of_nonneg n = p ++ String d "" /\ Text.is_digit d = true)
    as (p & d & -> & Hd).
  { destruct (dec_digits_last (Z.to_nat (Z.log2 n)) n "") as (p & Hp).
    exists p, (Text.digit_char (n mod 10)). split; [exact Hp|].
    apply is_digit_digit_char, Z.mod_pos_bound. lia. }
  unfold Text.endswith.
  destruct (String.eqb _ _) eqn:Heq; [|reflexivity].
  destruct (Nat.leb _ _) eqn:Hle; [|reflexivity].
  exfalso.
  apply String.eqb_eq in Heq. apply Nat.leb_le in Hle.
  replace (" (" ++ (p ++ String d "") ++ "m)")
    with ((" (" ++ p) ++ String d "m)") in *
    by (now rewrite !append_assoc).
  rewrite length_append in *. cbn [String.length] in Hle, Heq.
  apply (f_equal (Text.drop (String.length (" (" ++ p)))) in Heq.
  rewrite drop_append_length, drop_drop in Heq.
  rewrite length_append in Heq. cbn [String.length] in Heq.
  replace (41 - (2 + String.length p + 3) + (2 + String.length p))%nat
    with 38%nat in Heq by (rewrite length_append in Hle; cbn [String.length] in Hle; lia).
  vm_compute in Heq. injection Heq as Hf.
  rewrite <- Hf in Hd. vm_compute in Hd. discriminate.
Qed.

(** ** Regular expressions *)

Module ReFacts.
Import Re.

Section Runs.
Context {R : Type}.

Lemma rep_greedy_post (p : ascii -> bool) (s : string) :
  forall budget (k : string -> option R) x,
    rep_greedy p budget s k = Some x ->
    exists s', k s' = Some x /\ (String.length s' <= String.length s)%nat.
Proof.
  induction s as [|a s IH]; intros budget k x H; simpl in H.
  - exists "". split; [exact H | lia].
  - destruct (spend budget) as [b'|]; [|exists (String a s); split; [exact H | lia]].
    destruct (p a); [|exists (String a s); split; [exact H | lia]].
    destruct (rep_greedy p b' s k) as [y|] eqn:Hg.
    + injection H as ->. apply IH in Hg as (s' & Hk & Hl).
      exists s'. split; [exact Hk | simpl; lia].
    + exists (String a s). split; [exact H | lia].
Qed.

Lemma rep_lazy_post (p : ascii -> bool) (s : string) :
  forall budget (k : string -> option R) x,
    rep_lazy p budget s k = Some x ->
    exists s', k s' = Some x /\ (String.length s' <= String.length s)%nat.
Proof.
  induction s as [|a s IH]; intros budget k x H; simpl in H.
  - destruct (k "") as [y|] eqn:Hk; [|discriminate].
    exists "". split; [congruence | lia].
  - destruct (k (String a s)) as [y|] eqn:Hk.
    + exists (String a s). split; [congruence | lia].
    + destruct (spend budget) as [b'|]; [|discriminate].
      destruct (p a); [|discriminate].
      apply IH in H as (s' & Hk' & Hl).
      exists s'. split; [exact Hk' | simpl; lia].
Qed.

Lemma rep_min_post (p : ascii -> bool) (lo : nat) :
  forall (s : string) (k : string -> option R) x,
    rep_min p lo s k = Some x ->
    exists s', k s' = Some x /\ (String.length s' + lo <= String.length s)%nat.
Proof.
  induction lo as [|lo IH]; intros s k x H; simpl in H.
  - exists s. split; [exact H | lia].
  - destruct s as [|a s]; [discriminate|].
    destruct (p a); [|discriminate].
    apply IH in H as (s' & Hk & Hl).
    exists s'. split; [exact Hk | simpl; lia].
Qed.

Lemma rep_post (p : ascii -> bool) (lo : nat) (hi : option nat) (greedy : bool)
    (s : string) (k : string -> option R) x :
  rep p lo hi greedy s k = Some x ->
  exists s', k s' = Some x /\ (String.length s' + lo <= String.length s)%nat.
Proof.
  unfold rep. intros H.
  apply rep_min_post in H as (s1 & H & Hl).
  destruct greedy.
  - apply rep_greedy_post in H as (s' & Hk & Hl'). exists s'. split; [exact Hk | lia].
  - apply rep_lazy_post in H as (s' & Hk & Hl'). exists s'. split; [exact Hk | lia].
Qed.
End Runs.

Lemma take_nonempty (n : nat) (s : string) :
  (0 < n)%nat -> (0 < String.length s)%nat -> Text.take n s <> "".
Proof.
  intros Hn Hs. destruct n; [lia|]. destruct s; [simpl in Hs; lia|]. discriminate.
Qed.

Lemma mem_In (i : nat) (l : list nat) : mem i l = true <-> In i l.
Proof.
  unfold mem. rewrite existsb_exists. split.
  - intros (j & Hj & He). apply Nat.eqb_eq in He. now subst.
  - intros H. exists i. split; [exact H | apply Nat.eqb_refl].
Qed.

(** The patterns that set no group. *)
Ltac post_same :=
  split; [simpl; lia | split; [intros ? [] | reflexivity]].

Lemma run_post (r : regex) :
  forall (R : Type) (s : string) (c : captures)
         (k : string -> captures -> option R) (x : R),
    run r s c k = Some x ->
    exists s' c', k s' c' = Some x /\ post r s c s' c'.
Proof.
  induction r as [| a | p | p lo hi g | i r IH | r1 IH1 r2 IH2 | r1 IH1 r2 IH2 |];
    intros R s c k x H; cbn [run] in H.
  - exists s, c. split; [exact H|]. post_same.
  - destruct s as [|b s]; [discriminate|]. destruct (Ascii.eqb b a); [|discriminate].
    exists s, c. split; [exact H|]. post_same.
  - destruct s as [|b s]; [discriminate|]. destruct (p b); [|discriminate].
    exists s, c. split; [exact H|]. post_same.
  - apply rep_post in H as (s' & Hk & Hl).
    exists s', c. split; [exact Hk|]. post_same.
  - apply IH in H as (s' & c' & Hk & Hl & Hs & Hu).
    exists s', ((i, Text.take (String.length s - String.length s') s) :: c').
    split; [exact Hk|]. split; [exact Hl|]. split.
    + intros j Hj. cbn [sure] in Hj. apply in_app_or in Hj as [Hj | Hj].
      * destruct (0 <? minlen r)%nat eqn:Hm; [|contradiction].
        apply Nat.ltb_lt in Hm. destruct Hj as [<- | []].
        exists (Text.take (String.length s - String.length s') s).
        split; [simpl; now rewrite Nat.eqb_refl|].
        apply take_nonempty; lia.
      * apply filter_In in Hj as (Hj & Hne).
        apply negb_true_iff in Hne.
        destruct (Hs j Hj) as (t & Ht & Hne').
        exists t. split; [simpl; now rewrite Hne | exact Hne'].
    + intros j Hj. cbn [grps] in Hj. simpl.
      destruct (Nat.eqb j i) eqn:He.
      * apply Nat.eqb_eq in He. subst. exfalso. apply Hj. now left.
      * apply Hu. intros Hin. apply Hj. now right.
  - apply IH1 in H as (s1 & c1 & H & Hl1 & Hs1 & Hu1).
    apply IH2 in H as (s2 & c2 & Hk & Hl2 & Hs2 & Hu2).
    exists s2, c2. split; [exact Hk|]. split; [simpl; lia|]. split.
    + intros j Hj. cbn [sure] in Hj. apply in_app_or in Hj as [Hj | Hj].
      * apply filter_In in Hj as (Hj & Hne). apply negb_true_iff in Hne.
        destruct (Hs1 j Hj) as (t & Ht & Hne').
        exists t. split; [|exact Hne'].
        rewrite Hu2; [exact Ht|]. intros Hin. apply mem_In in Hin. congruence.
      * apply Hs2, Hj.
    + intros j Hj. cbn [grps] in Hj.
      rewrite Hu2, Hu1; [reflexivity | |]; intros Hin; apply Hj, in_or_app; tauto.
  - destruct (run r1 s c k) as [y|] eqn:H1.
    + injection H as ->. apply IH1 in H1 as (s' & c' & Hk & Hl & Hs & Hu).
      exists s', c'. split; [exact Hk|]. split; [simpl; lia|]. split.
      * intros j Hj. cbn [sure] in Hj. apply filter_In in Hj as (Hj & _). auto.
      * intros j Hj. apply Hu. intros Hin. apply Hj. cbn [grps]. apply in_or_app. tauto.
    + apply IH2 in H as (s' & c' & Hk & Hl & Hs & Hu).
      exists s', c'. split; [exact Hk|]. split; [simpl; lia|]. split.
      * intros j Hj. cbn [sure] in Hj. apply filter_In in Hj as (_ & Hj).
        apply mem_In in Hj. auto.
      * intros j Hj. apply Hu. intros Hin. apply Hj. cbn [grps]. apply in_or_app. tauto.
  - exists s, c. split.
    + destruct s as [|b [|b' s]]; [exact H | | discriminate].
      destruct (Ascii.eqb b Text.newline); [exact H | discriminate].
    + post_same.
Qed.

(** Every match found by [search] has set the sure groups of the pattern
    to non-empty texts. *)
Lemma search_sure (r : regex) (s : string) (c : captures) :
  search r s = Some c -> forall i, In i (sure r) -> nonempty_group i c.
Proof.
  induction s as [|a s IH]; cbn [search]; unfold re_match.
  - destruct (run r "" [] _) as [y|] eqn:H; [|discriminate].
    intros [= ->]. apply run_post in H as (s' & c' & [= ->] & _ & Hs & _). exact Hs.
  - destruct (run r (String a s) [] _) as [y|] eqn:H.
    + intros [= ->]. apply run_post in H as (s' & c' & [= ->] & _ & Hs & _). exact Hs.
    + exact IH.
Qed.

End ReFacts.

(** ** Event extraction *)

Module KillFacts.
Import Re ReFacts.

Lemma item_groups (r : regex) (c : captures) (i : nat) :
  (i < ngroups r)%nat -> item (groups r c) i = group (S i) c.
Proof.
  intros Hi. unfold item, groups.
  rewrite (nth_indep _ None (group (S (ngroups r)) c))
    by (rewrite length_map, length_seq; exact Hi).
  change (group (S (ngroups r)) c) with ((fun i => group i c) (S (ngroups r))).
  rewrite map_nth. rewrite seq_nth by exact Hi. reflexivity.
Qed.

(** What [extract_kill_data] returns, when it returns a record. *)
Lemma extract_kill_data_fields (now_hms : string) (gs : list (option string))
    (original : string) (kd : KillRecord) :
  extract_kill_data now_hms gs original = Return (Some kd) ->
  victim kd = item gs 1 /\ killer kd = item gs 2
  /\ (Text.contains "killed by Player" original
      || Text.contains "has been killed by player" original) = true.
Proof.
  unfold extract_kill_data. intros H.
  destruct (Text.contains "killed by Player" original
            || Text.contains "has been killed by player" original);
    [|discriminate].
  simpl negb in H. cbv iota in H.
  destruct (4 <=? length gs)%nat; [|discriminate].
  destruct ((4 <? length gs)%nat && group_truthy (item gs 4)).
  - destruct (Float.py_float (py_str (item gs 4))); [|discriminate].
    injection H as <-. auto.
  - injection H as <-. auto.
Qed.

(** Groups 2 and 3, the two player names, are sure groups of each of the
    four patterns. *)
Lemma kill_patterns_sure (r : regex) :
  In r kill_patterns ->
  In 2%nat (sure r) /\ In 3%nat (sure r) /\ (2 < ngroups r)%nat.
Proof.
  intros [<- | [<- | [<- | [<- | []]]]]; vm_compute; intuition lia.
Qed.

Lemma parse_with_fields (now_hms line : string) (kd : KillRecord) :
  forall patterns,
    (forall r, In r patterns -> In r kill_patterns) ->
    parse_with patterns now_hms line = Return (Some kd) ->
    (exists v, victim kd = Some v /\ v <> "")
    /\ (exists k, killer kd = Some k /\ k <> "")
    /\ (Text.contains "killed by Player" line
        || Text.contains "has been killed by player" line) = true.
Proof.
  induction patterns as [|r rest IH]; intros Hsub H; cbn [parse_with] in H.
  - discriminate.
  - destruct (search r line) as [c|] eqn:Hs.
    + destruct (kill_patterns_sure r (Hsub r (or_introl eq_refl))) as (H2 & H3 & Hn).
      apply extract_kill_data_fields in H as (Hv & Hk & Hp).
      rewrite item_groups in Hv, Hk by lia.
      split; [|split; [|exact Hp]].
      * destruct (search_sure r line c Hs 2%nat H2) as (t & Ht & Hne).
        exists t. split; [congruence | exact Hne].
      * destruct (search_sure r line c Hs 3%nat H3) as (t & Ht & Hne).
        exists t. split; [congruence | exact Hne].
    + apply IH; [|exact H]. intros r' Hr'. apply Hsub. now right.
Qed.

(** Whenever [parse_kill_event] returns a record, its killer and victim
    are non-empty strings and the line holds one of the two phrases. *)
Lemma parse_kill_event_record (now_hms line : string) (kd : KillRecord) :
  parse_kill_event now_hms line = Return (Some kd) ->
  (exists v, victim kd = Some v /\ v <> "")
  /\ (exists k, killer kd = Some k /\ k <> "")
  /\ (Text.contains "killed by Player" line
      || Text.contains "has been killed by player" line) = true.
Proof. apply parse_with_fields. auto. Qed.

(** A line that no pattern matches gives no record. *)
Lemma parse_kill_event_no_match (now_hms line : string) :
  (forall r, In r kill_patterns -> search r line = None) ->
  parse_kill_event now_hms line = Return None.
Proof.
  unfold parse_kill_event. intros H.
  assert (forall patterns, (forall r, In r patterns -> In r kill_patterns) ->
                           parse_with patterns now_hms line = Return None) as Hall.
  { induction patterns as [|r rest IH]; intros Hsub; [reflexivity|].
    cbn [parse_with]. rewrite (H r (Hsub r (or_introl eq_refl))).
    apply IH. intros r' Hr'. apply Hsub. now right. }
  apply Hall. auto.
Qed.

End KillFacts.

(** The example of the specification, end to end. *)
Example parse_and_format_ak :
  option_map (fun kd => (killer kd, victim kd, weapon kd, distance kd))
    (match parse_kill_event "00:00:00" Samples.line_ak with
     | Return r => r
     | Raise _ => None
     end)
  = Some (Some "Alice", Some "Bob", Some "AK74",
          DFloat (S754_finite false 8655355533852672 (-46)))
  /\ 8655355533852672 = 123 * 2 ^ 46
  /\ format_discord_message
       (match parse_kill_event "00:00:00" Samples.line_ak with
        | Return r => r
        | Raise _ => None
        end)
     = "**Alice** killed **Bob** with AK74 (123m)".
Proof. repeat split; vm_compute; reflexivity. Qed.

(** The other three patterns on lines of their own. *)
Example parse_other_patterns :
  map (fun line =>
         match parse_kill_event "00:00:00" line with
         | Return (Some kd) => format_discord_message (Some kd)
         | _ => ""
         end)
      [Samples.line_m4; Samples.line_mosin; Samples.line_mosin_near]
  = ["**Alice** killed **Bob** with M4";
     "**Al** killed **Bob** with Mosin 9130 (12m)";
     "**Al** killed **Bob** with Mosin 9130"].
Proof. vm_compute. reflexivity. Qed.

(** [float] on texts of digits and points; the last two are the largest
    finite double and the first text that rounds to infinity. *)
Example py_float_values :
  map Float.py_float ["."; ""; "1.2.3"; "1."; ".5"; "0.0"; "0.1"]
  = [Raise ValueError; Raise ValueError; Raise ValueError;
     Return (S754_finite false 4503599627370496 (-52));
     Return (S754_finite false 4503599627370496 (-53));
     Return (S754_zero false);
     Return (S754_finite false 7205759403792794 (-56))]
  /\ Float.of_decimal (2 ^ 1024 - 2 ^ 970 - 1) 0
     = S754_finite false 9007199254740991 971
  /\ Float.of_decimal (2 ^ 1024 - 2 ^ 970) 0 = S754_infinity false.
Proof. repeat split; vm_compute; reflexivity. Qed.

(** Ties go to the even neighbour. *)
Example format_f0_values :
  map Float.format_f0
      [S754_finite false 1 (-1); S754_finite false 3 (-1); S754_finite false 5 (-1);
       S754_finite false 123 0; S754_finite false 5 1; S754_infinity false]
  = ["0"; "2"; "2"; "123"; "10"; "inf"].
Proof. vm_compute. reflexivity. Qed.

(** C1, at a line where the code departs from it.  The line holds the
    phrase killed by Player and the first pattern matches it, with a
    single point as its distance group; [parse_kill_event] does not return
    a record but raises [ValueError]. *)
Theorem parse_kill_event_raises_on_lone_point (now_hms : string) :
  Text.contains "killed by Player" Samples.line_lone_point = true
  /\ option_map (Re.groups pattern1) (Re.search pattern1 Samples.line_lone_point)
     = Some [Some "14:32:10"; Some "Bob"; Some "Alice"; Some "AK74"; Some "."]
  /\ parse_kill_event now_hms Samples.line_lone_point = Raise ValueError.
Proof. repeat split; vm_compute; reflexivity. Qed.

(** C2, at a line where the code departs from it.  The first pattern
    matches the line and its distance group, a text with two points, is
    not a number; [float] raises [ValueError] and so does
    [parse_kill_event]: no record with distance 0 is returned. *)
Theorem parse_kill_event_raises_on_malformed_distance (now_hms : string) :
  option_map (Re.groups pattern1) (Re.search pattern1 Samples.line_bad_distance)
  = Some [Some "14:32:10"; Some "Bob"; Some "Alice"; Some "AK74"; Some "1.2.3"]
  /\ Float.py_float "1.2.3" = Raise ValueError
  /\ parse_kill_event now_hms Samples.line_bad_distance = Raise ValueError.
Proof. repeat split; vm_compute; reflexivity. Qed.

(** ** The delivery queue *)

Section Queue.
Variable hook : webhook.

Lemma split_due_spec (now : Z) (queue : list (string * Z)) :
  forall to_send remaining,
    split_due now queue to_send remaining
    = ((to_send ++ map fst (List.filter (is_due now) queue))%list,
       (remaining ++ List.filter (fun entry => negb (is_due now entry)) queue)%list).
Proof.
  induction queue as [|[message send_time] queue IH]; intros to_send remaining.
  - simpl. now rewrite !app_nil_r.
  - cbn [split_due List.filter].
    change (is_due now (message, send_time)) with (send_time <=? now).
    destruct (send_time <=? now); rewrite IH; cbn [negb map fst];
      now rewrite <- app_assoc.
Qed.

(** One call of [send_to_discord] on a non-empty message is one more
    attempt, whatever the webhook answers. *)
Lemma send_to_discord_attempt (message : string) (attempts : list string) :
  Text.truthy message = true ->
  snd (send_to_discord hook message attempts) = (attempts ++ [message])%list.
Proof.
  intros Hm. unfold send_to_discord. rewrite Hm. simpl negb. cbv iota.
  destruct (hook attempts message); reflexivity.
Qed.

Lemma send_each_attempts (messages : list string) :
  forall attempts,
    Forall (fun m => Text.truthy m = true) messages ->
    send_each hook messages attempts = (attempts ++ messages)%list.
Proof.
  induction messages as [|m messages IH]; intros attempts Hall.
  - simpl. now rewrite app_nil_r.
  - inversion Hall as [|? ? Hm Hrest]; subst.
    cbn [send_each]. rewrite send_to_discord_attempt by exact Hm.
    rewrite IH by exact Hrest. now rewrite <- app_assoc.
Qed.

Lemma queue_ok_texts (st : Parser) :
  queue_ok st -> Forall (fun m => Text.truthy m = true) (map fst (message_queue st)).
Proof. unfold queue_ok. intros H. now apply Forall_map. Qed.

Lemma due_texts_ok (now : Z) (st : Parser) :
  queue_ok st ->
  Forall (fun m => Text.truthy m = true)
         (map fst (List.filter (is_due now) (message_queue st))).
Proof.
  unfold queue_ok. intros H. apply Forall_map.
  apply List.Forall_forall. intros entry Hin. apply filter_In in Hin as (Hin & _).
  eapply List.Forall_forall in H; [exact H | exact Hin].
Qed.

(** The invariant is kept by the three operations on the queue. *)
Lemma queue_message_ok (now : Z) (message : string) (st : Parser) :
  queue_ok st -> queue_ok (queue_message now message st).
Proof.
  unfold queue_ok, queue_message. intros H.
  destruct (Text.truthy message) eqn:Hm; [|exact H].
  cbn [with_queue message_queue]. apply Forall_app. split; [exact H|].
  constructor; [exact Hm | constructor].
Qed.

Lemma process_message_queue_ok (now : Z) (st : Parser) (attempts : list string) :
  queue_ok st -> queue_ok (fst (process_message_queue hook now st attempts)).
Proof.
  unfold queue_ok, process_message_queue. intros H.
  rewrite split_due_spec. cbn [fst with_queue message_queue app].
  apply List.Forall_forall. intros entry Hin. apply filter_In in Hin as (Hin & _).
  eapply List.Forall_forall in H; [exact H | exact Hin].
Qed.

(** The result of a drain pass on a queue of non-empty messages. *)
Lemma process_message_queue_pass (now : Z) (st : Parser) (attempts : list string) :
  queue_ok st ->
  process_message_queue hook now st attempts
  = (with_queue (List.filter (fun entry => negb (is_due now entry)) (message_queue st)) st,
     (attempts ++ map fst (List.filter (is_due now) (message_queue st)))%list).
Proof.
  intros Hok. unfold process_message_queue.
  rewrite split_due_spec. cbn [app].
  now rewrite send_each_attempts by (apply due_texts_ok, Hok).
Qed.

(** C6. In a drain cycle on a queue of non-empty messages, the due
    messages are those with [send_time <= now]; each of them is posted
    exactly once, in queue order and whatever the webhook answers, and
    the queue left by the cycle is exactly the messages not yet due. *)
Theorem process_message_queue_cycle (now : Z) (st : Parser) (attempts : list string) :
  queue_ok st ->
  process_message_queue hook now st attempts
  = (with_queue (List.filter (fun entry => negb (is_due now entry)) (message_queue st)) st,
     (attempts ++ map fst (List.filter (is_due now) (message_queue st)))%list).
Proof.
  intros Hok. unfold process_message_queue.
  rewrite split_due_spec. cbn [app].
  rewrite send_each_attempts by (apply due_texts_ok, Hok).
  reflexivity.
Qed.

(** C5. After a non-empty message is enqueued at time [now], the
    shutdown flush posts every queued message, the new one last and
    whatever its send time, and leaves the queue empty; a drain cycle
    at a time before [now + DELAY_BEFORE_SEND] posts exactly what it
    would post without the new message and keeps the new message at
    the end of the queue. *)
Theorem queue_then_flush_or_drain (now : Z) (message : string) (st : Parser)
    (attempts : list string) :
  Text.truthy message = true ->
  queue_ok st ->
  graceful_shutdown hook (queue_message now message st) attempts
  = (with_queue [] st, (attempts ++ map fst (message_queue st) ++ [message])%list)
  /\ forall later : Z,
       later < now + DELAY_BEFORE_SEND ->
       process_message_queue hook later (queue_message now message st) attempts
       = (with_queue
            (message_queue (fst (process_message_queue hook later st attempts))
               ++ [(message, now + DELAY_BEFORE_SEND)])%list st,
          snd (process_message_queue hook later st attempts)).
Proof.
  intros Hm Hok. split.
  - unfold graceful_shutdown, queue_message. rewrite Hm.
    cbn [with_queue message_queue].
    destruct (message_queue st ++ [(message, now + DELAY_BEFORE_SEND)])%list
      as [|e q] eqn:Hq.
    { destruct (message_queue st); discriminate. }
    rewrite <- Hq, map_app. cbn [map fst].
    rewrite send_each_attempts.
    + reflexivity.
    + apply Forall_app. split; [apply queue_ok_texts, Hok|].
      constructor; [exact Hm | constructor].
  - intros later Hlater.
    assert (queue_ok (queue_message now message st)) as Hok'
      by (apply queue_message_ok, Hok).
    rewrite !process_message_queue_pass by assumption.
    unfold queue_message. rewrite Hm.
    cbn [with_queue message_queue fst snd].
    rewrite !List.filter_app, map_app. cbn [List.filter].
    change (is_due later (message, now + DELAY_BEFORE_SEND))
      with (now + DELAY_BEFORE_SEND <=? later).
    replace (now + DELAY_BEFORE_SEND <=? later) with false
      by (symmetry; apply Z.leb_gt; exact Hlater).
    cbn [negb map]. now rewrite app_nil_r.
Qed.
End Queue.

(** A queue with one message due, one not, and a webhook that refuses. *)
Lemma process_message_queue_cycle_witness :
  process_message_queue (fun _ _ => Status 500) (seconds 400)
    (with_queue [("early", seconds 300); ("late", seconds 500)] (new_parser "/logs"))
    []
  = (with_queue [("late", seconds 500)] (new_parser "/logs"), ["early"]).
Proof.
  apply (process_message_queue_cycle (fun _ _ => Status 500) (seconds 400)
           (with_queue [("early", seconds 300); ("late", seconds 500)]
              (new_parser "/logs")) []).
  repeat constructor.
Defined.

Lemma queue_then_flush_or_drain_witness :
  graceful_shutdown (fun _ _ => Failed)
    (queue_message 0 "**A** killed **B** with M4" (new_parser "/logs")) []
  = (with_queue [] (new_parser "/logs"), ["**A** killed **B** with M4"])
  /\ forall later : Z,
       later < 0 + DELAY_BEFORE_SEND ->
       process_message_queue (fun _ _ => Failed) later
         (queue_message 0 "**A** killed **B** with M4" (new_parser "/logs")) []
       = (with_queue [("**A** killed **B** with M4", 0 + DELAY_BEFORE_SEND)]
            (new_parser "/logs"), []).
Proof.
  apply (queue_then_flush_or_drain (fun _ _ => Failed) 0
           "**A** killed **B** with M4" (new_parser "/logs") []).
  - reflexivity.
  - constructor.
Defined.

(** ** The file selector *)

Lemma lex_ltb_trans (a : list Z) :
  forall b c, lex_ltb a b = true -> lex_ltb b c = true -> lex_ltb a c = true.
Proof.
  induction a as [|x a IH]; intros [|y b] [|z c]; cbn [lex_ltb]; try discriminate.
  intros Hab Hbc.
  apply orb_true_iff in Hab as [Hab | Hab]; apply orb_true_iff in Hbc as [Hbc | Hbc];
    apply orb_true_iff.
  - left. apply Z.ltb_lt in Hab, Hbc. apply Z.ltb_lt. lia.
  - apply andb_true_iff in Hbc as (Hbc & _).
    left. apply Z.ltb_lt in Hab. apply Z.eqb_eq in Hbc. apply Z.ltb_lt. lia.
  - apply andb_true_iff in Hab as (Hab & _).
    left. apply Z.ltb_lt in Hbc. apply Z.eqb_eq in Hab. apply Z.ltb_lt. lia.
  - apply andb_true_iff in Hab as (Hab & Hab'). apply andb_true_iff in Hbc as (Hbc & Hbc').
    right. apply Z.eqb_eq in Hab, Hbc. apply andb_true_iff. split.
    + apply Z.eqb_eq. lia.
    + eapply IH; eassumption.
Qed.

Lemma dt_ltb_trans (a b c : datetime) :
  dt_ltb a b = true -> dt_ltb b c = true -> dt_ltb a c = true.
Proof. apply lex_ltb_trans. Qed.

(** A timestamp that replaces the latest one is later than everything
    the latest one was not earlier than. *)
Lemma newer_keeps_latest (l t t' : datetime) :
  dt_ltb l t = true -> dt_ltb l t' = false -> dt_ltb t t' = false.
Proof.
  intros Hlt Hl. destruct (dt_ltb t t') eqn:Htt; [|reflexivity].
  rewrite (dt_ltb_trans l t t' Hlt Htt) in Hl. discriminate.
Qed.

Lemma pick_inv_skip (fs : FileSystem) (done : list (string * string))
    (entry : string * string) lf lt :
  pick_inv fs done lf lt ->
  (forall t', stamp fs entry = Some t' -> newer t' lt = false) ->
  pick_inv fs (done ++ [entry]) lf lt.
Proof.
  unfold pick_inv, latest_among.
  destruct lf as [fp|], lt as [t|]; try contradiction.
  - intros ((fn & Hin & Hst) & Hmax) Hskip. split.
    + exists fn. split; [apply in_or_app; now left | exact Hst].
    + intros e t' He Hs. apply in_app_or in He as [He | [<- | []]].
      * eapply Hmax; eassumption.
      * apply Hskip in Hs. exact Hs.
  - intros Hnone Hskip e He. apply in_app_or in He as [He | [<- | []]].
    + apply Hnone, He.
    + destruct (stamp fs entry) as [t'|] eqn:Hs; [|reflexivity].
      specialize (Hskip t' eq_refl). discriminate.
Qed.

Lemma pick_inv_take (fs : FileSystem) (done : list (string * string))
    (filepath filename : string) (t : datetime) lf lt :
  pick_inv fs done lf lt ->
  stamp fs (filepath, filename) = Some t ->
  newer t lt = true ->
  pick_inv fs (done ++ [(filepath, filename)]) (Some filepath) (Some t).
Proof.
  unfold pick_inv, latest_among.
  intros Hinv Hst Hnew. split.
  - exists filename. split; [apply in_or_app; right; now left | exact Hst].
  - intros e t' He Hs. apply in_app_or in He as [He | [<- | []]].
    + destruct lf as [fp|], lt as [l|]; try contradiction.
      * destruct Hinv as (_ & Hmax). simpl in Hnew.
        eapply newer_keeps_latest; [exact Hnew|]. eapply Hmax; eassumption.
      * rewrite (Hinv e He) in Hs. discriminate.
    + rewrite Hst in Hs. injection Hs as <-.
      destruct (dt_ltb t t) eqn:Hirr; [|reflexivity].
      exfalso. clear -Hirr. unfold dt_ltb in Hirr.
      induction (dt_fields t) as [|x l IH]; [discriminate|].
      cbn [lex_ltb] in Hirr. rewrite Z.ltb_irrefl, Z.eqb_refl in Hirr. auto.
Qed.

Lemma pick_latest_inv (fs : FileSystem) (files : list (string * string)) :
  forall done lf lt,
    pick_inv fs done lf lt ->
    pick_inv fs (done ++ files)
             (fst (pick_latest fs files lf lt)) (snd (pick_latest fs files lf lt)).
Proof.
  induction files as [|[filepath filename] files IH]; intros done lf lt Hinv.
  - rewrite app_nil_r. exact Hinv.
  - replace (done ++ (filepath, filename) :: files)%list
      with ((done ++ [(filepath, filename)]) ++ files)%list
      by (now rewrite <- app_assoc).
    cbn [pick_latest].
    pose proof (pick_inv_skip fs done (filepath, filename) lf lt Hinv) as Hskip.
    pose proof (pick_inv_take fs done filepath filename) as Htake.
    unfold stamp in Hskip, Htake. cbn [fst snd] in Hskip, Htake.
    destruct (String.eqb filename "DayZServer_x64.ADM").
    + destruct (fs_getmtime fs filepath) as [t|].
      * destruct (newer t lt) eqn:Hn; apply IH.
        -- eapply Htake; eauto.
        -- apply Hskip. intros t' [= <-]. exact Hn.
      * apply IH, Hskip. discriminate.
    + destruct (parse_adm_timestamp filename) as [t|].
      * destruct (newer t lt) eqn:Hn; apply IH.
        -- eapply Htake; eauto.
        -- apply Hskip. intros t' [= <-]. exact Hn.
      * apply IH, Hskip. discriminate.
Qed.

Lemma find_latest_adm_file_candidates (fs : FileSystem) (log_dir : string) :
  find_latest_adm_file fs log_dir
  = fst (pick_latest fs (candidates fs log_dir) None None).
Proof.
  unfold find_latest_adm_file, candidates.
  destruct (fs_exists fs log_dir); [|reflexivity].
  destruct (fs_listdir fs log_dir) as [names|]; [|reflexivity].
  destruct (collect_adm fs log_dir names); reflexivity.
Qed.

Lemma collect_adm_In (fs : FileSystem) (log_dir : string) (names : list string)
    (filepath filename : string) :
  In (filepath, filename) (collect_adm fs log_dir names) <->
  In filename names /\ Text.endswith ".ADM" filename = true
  /\ filepath = path_join log_dir filename /\ fs_exists fs filepath = true.
Proof.
  induction names as [|n names IH]; cbn [collect_adm In]; [tauto|].
  destruct (Text.endswith ".ADM" n) eqn:He.
  - destruct (fs_exists fs (path_join log_dir n)) eqn:Hx.
    + cbn [In]. rewrite IH. split.
      * intros [[= <- <-] | H]; [tauto | tauto].
      * intros ([<- | H] & H1 & -> & H3); [left; reflexivity | right; tauto].
    + rewrite IH. split; [tauto|].
      intros ([<- | H] & H1 & -> & H3); [congruence | tauto].
  - rewrite IH. split; [tauto|].
    intros ([<- | H] & H1 & H2 & H3); [congruence | tauto].
Qed.

Lemma endswith_append (suffix a s : string) :
  Text.endswith suffix s = true -> Text.endswith suffix (a ++ s) = true.
Proof.
  unfold Text.endswith. intros H.
  apply andb_true_iff in H as (Heq & Hle). apply Nat.leb_le in Hle.
  apply andb_true_iff. rewrite length_append. split; [|apply Nat.leb_le; lia].
  replace (String.length a + String.length s - String.length suffix)%nat
    with (String.length a + (String.length s - String.length suffix))%nat by lia.
  rewrite <- drop_drop, drop_append_length. exact Heq.
Qed.

Lemma endswith_path_join (suffix log_dir filename : string) :
  Text.endswith suffix filename = true ->
  Text.endswith suffix (path_join log_dir filename) = true.
Proof.
  intros H. unfold path_join.
  destruct (Text.startswith "/" filename); [exact H|].
  destruct (negb (Text.truthy log_dir) || Text.endswith "/" log_dir).
  - now apply endswith_append.
  - now apply endswith_append, endswith_append.
Qed.

Lemma collect_adm_none (fs : FileSystem) (log_dir : string) (names : list string) :
  (forall n, In n names -> Text.endswith ".ADM" n = false) ->
  collect_adm fs log_dir names = [].
Proof.
  induction names as [|n names IH]; intros H; [reflexivity|].
  cbn [collect_adm]. rewrite (H n (or_introl eq_refl)).
  apply IH. intros n' Hn'. apply H. now right.
Qed.

(** The result of the selector against the candidates of the directory. *)
Lemma find_latest_adm_file_latest (fs : FileSystem) (log_dir : string) :
  match find_latest_adm_file fs log_dir with
  | Some filepath =>
      exists filename t,
        In (filepath, filename) (candidates fs log_dir)
        /\ stamp fs (filepath, filename) = Some t
        /\ latest_among fs (candidates fs log_dir) t
  | None => forall entry, In entry (candidates fs log_dir) -> stamp fs entry = None
  end.
Proof.
  rewrite find_latest_adm_file_candidates.
  pose proof (pick_latest_inv fs (candidates fs log_dir) [] None None) as H.
  cbn [app] in H. specialize (H (fun entry (Hin : In entry []) => match Hin with end)).
  unfold pick_inv in H.
  destruct (fst (pick_latest fs (candidates fs log_dir) None None)) as [fp|],
           (snd (pick_latest fs (candidates fs log_dir) None None)) as [t|];
    try contradiction.
  - destruct H as ((fn & Hin & Hst) & Hmax). exists fn, t. auto.
  - exact H.
Qed.

(** C9. [find_latest_adm_file] returns a candidate (a listed name ending
    in .ADM whose path exists) that has a logical timestamp than which no
    candidate has a later one; the logical timestamp is the modification
    time for the static name and the time parsed from the name for the
    other names.  It returns none when no candidate has a logical
    timestamp, in particular when the directory is missing, cannot be
    listed or lists no name ending in .ADM.  Of the underscore-format file
    of 24 May 2025 and the dash-format file of 12 August 2025 it selects
    the dash-format one, in either listing order. *)
Theorem find_latest_adm_file_maximum :
  (forall fs log_dir,
     match find_latest_adm_file fs log_dir with
     | Some filepath =>
         exists filename t,
           In (filepath, filename) (candidates fs log_dir)
           /\ stamp fs (filepath, filename) = Some t
           /\ latest_among fs (candidates fs log_dir) t
     | None => forall entry, In entry (candidates fs log_dir) -> stamp fs entry = None
     end)
  /\ (forall fs log_dir,
        fs_exists fs log_dir = false -> find_latest_adm_file fs log_dir = None)
  /\ (forall fs log_dir,
        fs_listdir fs log_dir = None -> find_latest_adm_file fs log_dir = None)
  /\ (forall fs log_dir names,
        fs_listdir fs log_dir = Some names ->
        (forall n, In n names -> Text.endswith ".ADM" n = false) ->
        find_latest_adm_file fs log_dir = None)
  /\ find_latest_adm_file
       (SampleFiles.listing [SampleFiles.underscore_name; SampleFiles.dash_name])
       "/profiles"
     = Some (path_join "/profiles" SampleFiles.dash_name)
  /\ find_latest_adm_file
       (SampleFiles.listing [SampleFiles.dash_name; SampleFiles.underscore_name])
       "/profiles"
     = Some (path_join "/profiles" SampleFiles.dash_name).
Proof.
  split; [|split; [|split; [|split; [|split]]]].
  - exact find_latest_adm_file_latest.
  - intros fs log_dir H. unfold find_latest_adm_file. now rewrite H.
  - intros fs log_dir H. unfold find_latest_adm_file. rewrite H.
    destruct (fs_exists fs log_dir); reflexivity.
  - intros fs log_dir names Hl Hn. unfold find_latest_adm_file. rewrite Hl.
    rewrite (collect_adm_none fs log_dir names Hn).
    destruct (fs_exists fs log_dir); reflexivity.
  - vm_compute. reflexivity.
  - vm_compute. reflexivity.
Qed.

Lemma find_latest_adm_file_maximum_witness :
  find_latest_adm_file SampleFiles.nothing "/profiles" = None.
Proof.
  apply (proj1 (proj2 find_latest_adm_file_maximum) SampleFiles.nothing "/profiles").
  reflexivity.
Defined.

(** The selected path comes from a listed name with the exact suffix. *)
Lemma find_latest_adm_file_listed (fs : FileSystem) (log_dir filepath : string) :
  find_latest_adm_file fs log_dir = Some filepath ->
  (exists names filename,
      fs_listdir fs log_dir = Some names
      /\ In filename names
      /\ Text.endswith ".ADM" filename = true
      /\ filepath = path_join log_dir filename)
  /\ Text.endswith ".ADM" filepath = true.
Proof.
  intros H.
  pose proof (find_latest_adm_file_latest fs log_dir) as Hmax.
  rewrite H in Hmax. destruct Hmax as (fn & t & Hin & _).
  unfold candidates in Hin.
  destruct (fs_exists fs log_dir); [|destruct Hin].
  destruct (fs_listdir fs log_dir) as [names|] eqn:Hl; [|destruct Hin].
  apply collect_adm_In in Hin as (Hn & He & Hp & _).
  split.
  - exists names, fn. auto.
  - subst filepath. now apply endswith_path_join.
Qed.

Lemma find_latest_adm_file_truthy (fs : FileSystem) (log_dir filepath : string) :
  find_latest_adm_file fs log_dir = Some filepath -> Text.truthy filepath = true.
Proof.
  intros H. apply find_latest_adm_file_listed in H as (_ & H).
  destruct filepath; [discriminate | reflexivity].
Qed.

(** C10. The file that [find_latest_adm_file] returns is the path of a
    listed name that ends in the exact upper-case text .ADM, and the path
    itself ends in it; a directory that lists only a name ending in
    lower-case .adm gives none. *)
Theorem find_latest_adm_file_extension_exact (fs : FileSystem)
    (log_dir filepath : string) :
  find_latest_adm_file fs log_dir = Some filepath ->
  (exists names filename,
      fs_listdir fs log_dir = Some names
      /\ In filename names
      /\ Text.endswith ".ADM" filename = true
      /\ filepath = path_join log_dir filename)
  /\ Text.endswith ".ADM" filepath = true
  /\ find_latest_adm_file (SampleFiles.listing [SampleFiles.lower_name]) "/profiles"
     = None.
Proof.
  intros H. apply find_latest_adm_file_listed in H as (H1 & H2).
  split; [exact H1|]. split; [exact H2|]. vm_compute. reflexivity.
Qed.

Lemma find_latest_adm_file_extension_exact_witness :
  Text.endswith ".ADM" (path_join "/profiles" SampleFiles.dash_name) = true.
Proof.
  apply (find_latest_adm_file_extension_exact
           (SampleFiles.listing [SampleFiles.underscore_name; SampleFiles.dash_name])
           "/profiles" (path_join "/profiles" SampleFiles.dash_name)).
  vm_compute. reflexivity.
Defined.

(** ** The tailing engine *)

Lemma get_set_file_position (filepath : string) (position : Z) (st : Parser) :
  get_file_position filepath (set_file_position filepath position st) = position.
Proof.
  unfold get_file_position, set_file_position. cbn [last_position].
  now rewrite lookup_insert_eq.
Qed.

Lemma queue_message_fields (t : Z) (message : string) (st : Parser) :
  last_position (queue_message t message st) = last_position st
  /\ log_directory (queue_message t message st) = log_directory st
  /\ current_log_file (queue_message t message st) = current_log_file st.
Proof. unfold queue_message. destruct (Text.truthy message); auto. Qed.

(** Processing lines touches the queue only. *)
Lemma process_lines_fields (clk : Clock) (new_lines : list string) :
  forall st,
    last_position (fst (process_lines clk new_lines st)) = last_position st
    /\ log_directory (fst (process_lines clk new_lines st)) = log_directory st
    /\ current_log_file (fst (process_lines clk new_lines st)) = current_log_file st.
Proof.
  induction new_lines as [|line rest IH]; intros st; [auto|].
  cbn [process_lines].
  destruct (parse_kill_event (now_hms clk) line) as [[kd|]|e]; [| apply IH | auto].
  destruct (Text.truthy (format_discord_message (Some kd))); [|apply IH].
  destruct (IH (queue_message (now clk) (format_discord_message (Some kd)) st))
    as (H1 & H2 & H3).
  destruct (queue_message_fields (now clk) (format_discord_message (Some kd)) st)
    as (G1 & G2 & G3).
  repeat split; congruence.
Qed.

Module Utf8Facts.
Import Utf8.

Lemma decode_bytes_of (c : ascii) (rest : string) :
  decode (bytes_of c ++ rest) = String c (decode rest).
Proof. destruct c as [[] [] [] [] [] [] [] []]; reflexivity. Qed.

Lemma encode_append (a b : string) : encode (a ++ b) = encode a ++ encode b.
Proof.
  induction a as [|c a IH]; [reflexivity|].
  cbn [String.append encode]. now rewrite IH, append_assoc.
Qed.

(** Decoding the bytes of a text gives the text back. *)
Lemma decode_encode (s : string) : decode (encode s) = s.
Proof.
  induction s as [|c s IH]; [reflexivity|].
  cbn [encode]. now rewrite decode_bytes_of, IH.
Qed.

Lemma byte_length_append (a b : string) :
  byte_length (a ++ b) = (byte_length a + byte_length b)%nat.
Proof. unfold byte_length. now rewrite encode_append, length_append. Qed.

(** A seek to the end of what was read gives what was appended. *)
Lemma seek_append (old new : string) : seek (byte_length old) (old ++ new) = new.
Proof.
  unfold seek, byte_length. now rewrite encode_append, drop_append_length, decode_encode.
Qed.

Lemma seek_start (s : string) : seek 0 s = s.
Proof. unfold seek. cbn [Text.drop]. apply decode_encode. Qed.

End Utf8Facts.

Lemma drop_all (n : nat) (s : string) :
  (String.length s <= n)%nat -> Text.drop n s = "".
Proof.
  revert s. induction n as [|n IH]; intros [|c s] H; simpl in *;
    [reflexivity | lia | reflexivity | apply IH; lia].
Qed.

(** A seek to the end of the file or beyond finds nothing. *)
Lemma seek_all (n : nat) (s : string) :
  (Utf8.byte_length s <= n)%nat -> Utf8.seek n s = "".
Proof. intros H. unfold Utf8.seek. now rewrite drop_all. Qed.

Lemma read_new_from_start (content : string) :
  read_new 0 content = (read_lines "" content, Z.of_nat (Utf8.byte_length content)).
Proof.
  unfold read_new. cbn [Z.to_nat]. rewrite Utf8Facts.seek_start.
  destruct (0 <=? Z.of_nat (Utf8.byte_length content)) eqn:H; [reflexivity|].
  apply Z.leb_gt in H. lia.
Qed.

(** A read from the end of what was read so far gives the lines appended
    since, and the offset after it is the size of the file. *)
Lemma read_new_append (old new : string) :
  read_new (Z.of_nat (Utf8.byte_length old)) (old ++ new)
  = (read_lines "" new, Z.of_nat (Utf8.byte_length (old ++ new))).
Proof.
  unfold read_new. rewrite Nat2Z.id, Utf8Facts.seek_append.
  rewrite Utf8Facts.byte_length_append.
  destruct (Z.of_nat (Utf8.byte_length old)
            <=? Z.of_nat (Utf8.byte_length old + Utf8.byte_length new)) eqn:H;
    [reflexivity|].
  apply Z.leb_gt in H. lia.
Qed.

Lemma read_lines_nonempty (s : string) :
  forall cur, read_lines cur s <> [] -> Text.truthy cur = true \/ s <> "".
Proof.
  intros cur H. destruct s; [|right; discriminate].
  cbn [read_lines] in H. destruct (Text.truthy cur); [now left | contradiction].
Qed.

(** When the file does not change during a pass, its size is below the
    position stored at the time of the check exactly when it is below the
    position the pass started from, which is what the code compares. *)
Lemma steady_file_position_at_check (clk : Clock) (filepath content : string)
    (st : Parser) :
  Z.of_nat (Utf8.byte_length content)
    < get_file_position filepath (at_check clk filepath content st)
  <-> Z.of_nat (Utf8.byte_length content) < get_file_position filepath st.
Proof.
  unfold at_check, read_new.
  set (last_pos := get_file_position filepath st).
  destruct (read_lines "" (Utf8.seek (Z.to_nat last_pos) content)) as [|l ls] eqn:Hr.
  - unfold get_file_position.
    destruct (process_lines_fields clk [] st) as (-> & _). reflexivity.
  - rewrite get_set_file_position.
    assert (Utf8.seek (Z.to_nat last_pos) content <> "") as Hd.
    { destruct (read_lines_nonempty (Utf8.seek (Z.to_nat last_pos) content) "")
        as [H | H]; [rewrite Hr; discriminate | discriminate | exact H]. }
    assert (Z.to_nat last_pos < Utf8.byte_length content)%nat as Hlt.
    { destruct (Nat.lt_ge_cases (Z.to_nat last_pos) (Utf8.byte_length content)) as [H | H];
        [exact H | exfalso; apply Hd, seek_all, H]. }
    destruct (last_pos <=? Z.of_nat (Utf8.byte_length content)) eqn:Hle; lia.
Qed.

(** A pass in which the file opens and no line raises returns the parser
    of the check, with the position reset or not. *)
Lemma monitor_single_file_at_check (fs : FileSystem) (clk : Clock)
    (filepath : string) (st : Parser) (last_file_check_time : Z) (content : string) :
  fs_open fs filepath = Return content ->
  snd (process_lines clk (fst (read_new (get_file_position filepath st) content)) st)
  = None ->
  fst (fst (monitor_single_file fs clk filepath st last_file_check_time))
  = at_check clk filepath content st
  \/ fst (fst (monitor_single_file fs clk filepath st last_file_check_time))
     = set_file_position filepath 0 (at_check clk filepath content st).
Proof.
  intros Hopen Hlines. unfold monitor_single_file, at_check. rewrite Hopen.
  destruct (read_new (get_file_position filepath st) content) as [new_lines new_pos].
  cbn [fst] in Hlines.
  destruct (process_lines clk new_lines st) as [st1 [e|]]; [discriminate|].
  cbn [fst].
  set (st2 := match new_lines with
              | [] => st1
              | _ :: _ => set_file_position filepath new_pos st1
              end).
  unfold check_rotation.
  destruct (FILE_CHECK_INTERVAL <=? time clk - last_file_check_time);
    [destruct (path_truthy _ && path_differs _ _); [now left|]|];
    (destruct (fs_getsize fs filepath) as [size|]; [|now left]);
    (destruct (size <? get_file_position filepath st); [now right | now left]).
Qed.

Lemma start_at_end_fields (fs : FileSystem) (f : string) (st : Parser) :
  current_log_file (start_at_end fs f st) = current_log_file st.
Proof. unfold start_at_end. destruct (fs_getsize fs f); reflexivity. Qed.

(** Universal newlines: a carriage return, alone or before a line feed,
    ends a line as a line feed does; a last line without one is returned
    as it is. *)
Example read_lines_universal :
  read_lines ""
    ("a" ++ String Text.carriage (String Text.newline "b")
         ++ String Text.carriage ("c" ++ String Text.newline " d"))
  = ["a" ++ Samples.nl; "b" ++ Samples.nl; "c" ++ Samples.nl; " d"].
Proof. reflexivity. Qed.

(** What the malformed distance does to the tailing loop: the pass
    queues the message of the good line, stops at the bad one, sleeps
    five seconds and leaves the position where it was; the next pass
    reads the same two lines and queues the same message again. *)
Example monitor_single_file_bad_line :
  let path := path_join "/profiles" SampleFiles.dash_name in
  let pass st := monitor_single_file SampleFiles.with_bad_line SampleFiles.noon path st
                   (seconds 43190) in
  let once := fst (fst (pass SampleFiles.beginner)) in
  let twice := fst (fst (pass once)) in
  snd (pass SampleFiles.beginner) = Sleep (seconds 5)
  /\ get_file_position path once = 0
  /\ map fst (message_queue once) = ["**Alice** killed **Bob** with AK74 (123m)"]
  /\ get_file_position path twice = 0
  /\ map fst (message_queue twice)
     = ["**Alice** killed **Bob** with AK74 (123m)";
        "**Alice** killed **Bob** with AK74 (123m)"].
Proof. repeat split; vm_compute; reflexivity. Qed.

(** ** The matcher against what a pattern matches *)

Module MatchFacts.
Import Re.

Lemma all_in_nil (p : ascii -> bool) : all_in p "".
Proof. intros a []. Qed.

Lemma all_in_cons (p : ascii -> bool) (a : ascii) (w : string) :
  p a = true -> all_in p w -> all_in p (String a w).
Proof. intros Ha Hw b [<- | Hb]; [exact Ha | apply Hw, Hb]. Qed.

Section Runs.
Context {R : Type}.

Lemma rep_greedy_sound (p : ascii -> bool) (s : string) :
  forall budget (k : string -> option R) x,
    rep_greedy p budget s k = Some x ->
    exists w s', s = w ++ s' /\ all_in p w /\ k s' = Some x
                 /\ forall b, budget = Some b -> (String.length w <= b)%nat.
Proof.
  induction s as [|a s IH]; intros budget k x H; cbn [rep_greedy] in H.
  - exists "", "". repeat split; [apply all_in_nil | exact H | simpl; lia].
  - destruct (spend budget) as [b'|] eqn:Hb.
    + destruct (p a) eqn:Hp.
      * destruct (rep_greedy p b' s k) as [y|] eqn:Hg.
        -- injection H as ->. apply IH in Hg as (w & s' & -> & Hw & Hk & Hlen).
           exists (String a w), s'. repeat split.
           ++ apply all_in_cons; assumption.
           ++ exact Hk.
           ++ intros b ->. destruct b as [|b]; [discriminate|].
              injection Hb as <-. specialize (Hlen b eq_refl). simpl. lia.
        -- exists "", (String a s). repeat split;
             [apply all_in_nil | exact H | simpl; lia].
      * exists "", (String a s). repeat split;
          [apply all_in_nil | exact H | simpl; lia].
    + exists "", (String a s). repeat split;
        [apply all_in_nil | exact H | simpl; lia].
Qed.

Lemma rep_lazy_sound (p : ascii -> bool) (s : string) :
  forall budget (k : string -> option R) x,
    rep_lazy p budget s k = Some x ->
    exists w s', s = w ++ s' /\ all_in p w /\ k s' = Some x
                 /\ forall b, budget = Some b -> (String.length w <= b)%nat.
Proof.
  induction s as [|a s IH]; intros budget k x H; cbn [rep_lazy] in H.
  - destruct (k "") as [y|] eqn:Hk; [|discriminate].
    exists "", "". repeat split; [apply all_in_nil | congruence | simpl; lia].
  - destruct (k (String a s)) as [y|] eqn:Hk.
    + exists "", (String a s). repeat split;
        [apply all_in_nil | congruence | simpl; lia].
    + destruct (spend budget) as [b'|] eqn:Hb; [|discriminate].
      destruct (p a) eqn:Hp; [|discriminate].
      apply IH in H as (w & s' & -> & Hw & Hk' & Hlen).
      exists (String a w), s'. repeat split.
      * apply all_in_cons; assumption.
      * exact Hk'.
      * intros b ->. destruct b as [|b]; [discriminate|].
        injection Hb as <-. specialize (Hlen b eq_refl). simpl. lia.
Qed.

Lemma rep_min_sound (p : ascii -> bool) (lo : nat) :
  forall (s : string) (k : string -> option R) x,
    rep_min p lo s k = Some x ->
    exists w s', s = w ++ s' /\ all_in p w /\ String.length w = lo /\ k s' = Some x.
Proof.
  induction lo as [|lo IH]; intros s k x H; cbn [rep_min] in H.
  - exists "", s. repeat split; [apply all_in_nil | exact H].
  - destruct s as [|a s]; [discriminate|].
    destruct (p a) eqn:Hp; [|discriminate].
    apply IH in H as (w & s' & -> & Hw & Hl & Hk).
    exists (String a w), s'. repeat split;
      [apply all_in_cons; assumption | simpl; now rewrite Hl | exact Hk].
Qed.
End Runs.

Lemma all_in_append (p : ascii -> bool) (w1 w2 : string) :
  all_in p w1 -> all_in p w2 -> all_in p (w1 ++ w2).
Proof.
  intros H1 H2. induction w1 as [|a w1 IH]; [exact H2|].
  cbn [String.append]. apply all_in_cons.
  - apply H1. now left.
  - apply IH. intros b Hb. apply H1. now right.
Qed.

(** Every successful run of the matcher is a match of the pattern. *)
Lemma run_sound (r : regex) :
  forall (R : Type) (s : string) (c : captures)
         (k : string -> captures -> option R) (x : R),
    run r s c k = Some x ->
    exists s' c', matches r s c s' c' /\ k s' c' = Some x.
Proof.
  induction r as [| a | p | p lo hi g | i r IH | r1 IH1 r2 IH2 | r1 IH1 r2 IH2 |];
    intros R s c k x H; cbn [run] in H.
  - exists s, c. split; [constructor | exact H].
  - destruct s as [|b s]; [discriminate|].
    destruct (Ascii.eqb b a) eqn:He; [|discriminate].
    apply Ascii.eqb_eq in He. subst. exists s, c. split; [constructor | exact H].
  - destruct s as [|b s]; [discriminate|]. destruct (p b) eqn:Hp; [|discriminate].
    exists s, c. split; [now constructor | exact H].
  - unfold rep in H.
    apply rep_min_sound in H as (w1 & s1 & -> & Hw1 & Hl1 & H).
    assert (exists w2 s', s1 = w2 ++ s' /\ all_in p w2 /\ k s' c = Some x
                          /\ forall b, option_map (fun h => (h - lo)%nat) hi = Some b ->
                                       (String.length w2 <= b)%nat)
      as (w2 & s' & -> & Hw2 & Hk & Hl2)
      by (destruct g; [apply rep_greedy_sound in H | apply rep_lazy_sound in H]; exact H).
    exists s', c. split; [|exact Hk].
    rewrite <- append_assoc. constructor.
    + now apply all_in_append.
    + rewrite length_append. lia.
    + intros h ->. rewrite length_append. specialize (Hl2 _ eq_refl). lia.
  - apply IH in H as (s' & c' & Hm & Hk).
    exists s', ((i, Text.take (String.length s - String.length s') s) :: c').
    split; [now constructor | exact Hk].
  - apply IH1 in H as (s1 & c1 & Hm1 & H).
    apply IH2 in H as (s2 & c2 & Hm2 & Hk).
    exists s2, c2. split; [econstructor; eassumption | exact Hk].
  - destruct (run r1 s c k) as [y|] eqn:H1.
    + injection H as ->. apply IH1 in H1 as (s' & c' & Hm & Hk).
      exists s', c'. split; [now apply M_Alt_l | exact Hk].
    + apply IH2 in H as (s' & c' & Hm & Hk).
      exists s', c'. split; [now apply M_Alt_r | exact Hk].
  - destruct s as [|b [|b' s]]; [| | discriminate].
    + exists "", c. split; [constructor | exact H].
    + destruct (Ascii.eqb b Text.newline) eqn:He; [|discriminate].
      apply Ascii.eqb_eq in He. subst.
      exists (String Text.newline ""), c. split; [constructor | exact H].
Qed.

(** A match found by [search] is a match of the pattern at some suffix
    of the text. *)
Lemma search_sound (r : regex) (s : string) (c : captures) :
  search r s = Some c ->
  exists before s0 s', s = before ++ s0 /\ matches r s0 [] s' c.
Proof.
  induction s as [|a s IH]; cbn [search]; unfold re_match.
  - destruct (run r "" [] _) as [y|] eqn:H; [|discriminate].
    intros [= ->]. apply run_sound in H as (s' & c' & Hm & [= ->]).
    exists "", "", s'. split; [reflexivity | exact Hm].
  - destruct (run r (String a s) [] _) as [y|] eqn:H.
    + intros [= ->]. apply run_sound in H as (s' & c' & Hm & [= ->]).
      exists "", (String a s), s'. split; [reflexivity | exact Hm].
    + intros Hs. apply IH in Hs as (before & s0 & s' & -> & Hm).
      exists (String a before), s0, s'. split; [reflexivity | exact Hm].
Qed.

End MatchFacts.

Module Inversion.
Import Re MatchFacts.

Lemma matches_cat (r1 r2 : regex) s c s2 c2 :
  matches (Cat r1 r2) s c s2 c2 ->
  exists s1 c1, matches r1 s c s1 c1 /\ matches r2 s1 c1 s2 c2.
Proof. intros H. inversion H; subst. eauto. Qed.

Lemma matches_chr (a : ascii) s c s' c' :
  matches (Chr a) s c s' c' -> s = String a s' /\ c' = c.
Proof. intros H. inversion H; subst. auto. Qed.

Lemma matches_eps s c s' c' : matches Eps s c s' c' -> s = s' /\ c' = c.
Proof. intros H. inversion H; subst. auto. Qed.

Lemma matches_lit (p : string) :
  forall s c s' c', matches (lit p) s c s' c' -> s = p ++ s' /\ c' = c.
Proof.
  induction p as [|a p IH]; intros s c s' c' H; cbn [lit] in H.
  - apply matches_eps in H as (-> & ->). auto.
  - apply matches_cat in H as (s1 & c1 & H1 & H2).
    apply matches_chr in H1 as (-> & ->).
    apply IH in H2 as (-> & ->). auto.
Qed.

Lemma matches_rep (p : ascii -> bool) lo hi g s c s' c' :
  matches (Rep p lo hi g) s c s' c' ->
  exists w, s = w ++ s' /\ c' = c /\ all_in p w /\ (lo <= String.length w)%nat
            /\ forall h, hi = Some h -> (String.length w <= lo + (h - lo))%nat.
Proof. intros H. inversion H; subst. eauto 10. Qed.

(** A match consumes a prefix of the text, at least [minlen] long. *)
Lemma matches_consumes (r : regex) s c s' c' :
  matches r s c s' c' ->
  exists w, s = w ++ s' /\ (minlen r <= String.length w)%nat.
Proof.
  induction 1 as [s c | a s c | p b s c Hp | p lo hi g w s c Hw Hlo Hhi
                  | i r s c s' c' H IH | r1 r2 s c s1 c1 s2 c2 H1 IH1 H2 IH2
                  | r1 r2 s c s' c' H IH | r1 r2 s c s' c' H IH | c | c].
  - exists "". split; [reflexivity | simpl; lia].
  - exists (String a ""). split; [reflexivity | simpl; lia].
  - exists (String b ""). split; [reflexivity | simpl; lia].
  - exists w. split; [reflexivity | exact Hlo].
  - exact IH.
  - destruct IH1 as (w1 & -> & Hl1), IH2 as (w2 & -> & Hl2).
    exists (w1 ++ w2). split; [now rewrite append_assoc|].
    rewrite length_append. simpl. lia.
  - destruct IH as (w & -> & Hl). exists w. split; [reflexivity | simpl; lia].
  - destruct IH as (w & -> & Hl). exists w. split; [reflexivity | simpl; lia].
  - exists "". split; [reflexivity | simpl; lia].
  - exists "". split; [reflexivity | simpl; lia].
Qed.

(** A pattern without groups leaves the captures as they are. *)
Lemma matches_no_groups (r : regex) s c s' c' :
  matches r s c s' c' -> grps r = [] -> c' = c.
Proof.
  induction 1 as [s c | a s c | p b s c Hp | p lo hi g w s c Hw Hlo Hhi
                  | i r s c s' c' H IH | r1 r2 s c s1 c1 s2 c2 H1 IH1 H2 IH2
                  | r1 r2 s c s' c' H IH | r1 r2 s c s' c' H IH | c | c];
    cbn [grps]; intros Hg; try reflexivity; try discriminate.
  - apply app_eq_nil in Hg as (Hg1 & Hg2). rewrite IH2, IH1; auto.
  - apply app_eq_nil in Hg as (Hg1 & Hg2). auto.
  - apply app_eq_nil in Hg as (Hg1 & Hg2). auto.
Qed.

Lemma take_consumed (w s' : string) :
  Text.take (String.length (w ++ s') - String.length s') (w ++ s') = w.
Proof.
  rewrite length_append.
  replace (String.length w + String.length s' - String.length s')%nat
    with (String.length w) by lia.
  induction w as [|a w IH]; [reflexivity|]. simpl. now rewrite IH.
Qed.

(** The text of a group is what its pattern consumed. *)
Lemma matches_grp (i : nat) (r : regex) s c s' c' :
  matches (Grp i r) s c s' c' ->
  exists w c1, s = w ++ s' /\ c' = (i, w) :: c1 /\ matches r (w ++ s') c s' c1.
Proof.
  intros H. inversion H as [| | | | i0 r0 s0 c0 s1 c1 Hm | | | | |]; subst.
  destruct (matches_consumes _ _ _ _ _ Hm) as (w & -> & _).
  exists w, c1. rewrite take_consumed. auto.
Qed.

Lemma matches_grp_rep (i : nat) (p : ascii -> bool) lo hi g s c s' c' :
  matches (Grp i (Rep p lo hi g)) s c s' c' ->
  exists w, s = w ++ s' /\ c' = (i, w) :: c /\ all_in p w
            /\ (lo <= String.length w)%nat.
Proof.
  intros H. apply matches_grp in H as (w & c1 & -> & -> & H).
  apply matches_rep in H as (w' & Heq & -> & Hw & Hlo & _).
  assert (w' = w) as ->.
  { apply (f_equal String.length) in Heq as Hlen. rewrite !length_append in Hlen.
    assert (String.length w = String.length w') as Hl by lia.
    clear -Heq Hl. revert w' Heq Hl.
    induction w as [|a w IH]; intros [|b w'] Heq Hl; try discriminate; [reflexivity|].
    cbn [String.append] in Heq. injection Heq as -> Heq. f_equal. apply IH; auto. }
  eauto.
Qed.

End Inversion.

(** ** The shape of a kill line *)

Module KillShape.
Import Re MatchFacts Inversion.

Lemma startswith_append (p s : string) : Text.startswith p (p ++ s) = true.
Proof.
  induction p as [|a p IH]; [reflexivity|].
  cbn [String.append Text.startswith]. now rewrite Ascii.eqb_refl, IH.
Qed.

Lemma contains_startswith (p s : string) :
  Text.startswith p s = true -> Text.contains p s = true.
Proof. intros H. destruct s; cbn [Text.contains]; now rewrite H. Qed.

Lemma contains_cons (p : string) (a : ascii) (s : string) :
  Text.contains p s = true -> Text.contains p (String a s) = true.
Proof. intros H. cbn [Text.contains]. rewrite H. apply orb_true_r. Qed.

Lemma contains_append (p w s : string) :
  Text.contains p s = true -> Text.contains p (w ++ s) = true.
Proof.
  intros H. induction w as [|a w IH]; [exact H|].
  cbn [String.append]. now apply contains_cons.
Qed.

Lemma length_pos_nonempty (w : string) : (1 <= String.length w)%nat -> w <> "".
Proof. destruct w; simpl; [lia | discriminate]. Qed.

(** The head shared by the four patterns: stamp, victim and killer are
    captured as groups 1 to 3, the names are non-empty and hold no double
    quote, and the phrase occurs in the text. *)
Lemma kill_head_inv (stamp : regex) (phrase : string) s c s' c' :
  grps stamp = [] ->
  matches (kill_head stamp phrase) s c s' c' ->
  exists ts v k,
    c' = (3%nat, k) :: (2%nat, v) :: (1%nat, ts) :: c
    /\ (minlen stamp <= String.length ts)%nat
    /\ all_in not_quote v /\ v <> ""
    /\ all_in not_quote k /\ k <> ""
    /\ Text.contains phrase s = true.
Proof.
  intros Hg H. unfold kill_head, name_group, any_star in H. cbn [cat] in H.
  apply matches_cat in H as (s1 & c1 & H1 & H).
  apply matches_grp in H1 as (ts & c1' & -> & -> & H1).
  pose proof (matches_no_groups _ _ _ _ _ H1 Hg) as ->.
  apply matches_consumes in H1 as (ts' & Hts & Hlen).
  assert (String.length ts' = String.length ts) as Hts'
    by (apply (f_equal String.length) in Hts; rewrite !length_append in Hts; lia).
  apply matches_cat in H as (s2 & c2 & H2 & H).
  apply matches_lit in H2 as (-> & ->).
  apply matches_cat in H as (s3 & c3 & H3 & H).
  apply matches_chr in H3 as (-> & ->).
  apply matches_cat in H as (s4 & c4 & H4 & H).
  apply matches_grp_rep in H4 as (v & -> & -> & Hv & Hvl).
  apply matches_cat in H as (s5 & c5 & H5 & H).
  apply matches_chr in H5 as (-> & ->).
  apply matches_cat in H as (s6 & c6 & H6 & H).
  apply matches_chr in H6 as (-> & ->).
  apply matches_cat in H as (s7 & c7 & H7 & H).
  apply matches_rep in H7 as (mid1 & -> & -> & _).
  apply matches_cat in H as (s8 & c8 & H8 & H).
  apply matches_lit in H8 as (-> & ->).
  apply matches_cat in H as (s9 & c9 & H9 & H).
  apply matches_chr in H9 as (-> & ->).
  apply matches_cat in H as (s10 & c10 & H10 & H).
  apply matches_chr in H10 as (-> & ->).
  apply matches_cat in H as (s11 & c11 & H11 & H).
  apply matches_grp_rep in H11 as (k & -> & -> & Hk & Hkl).
  apply matches_cat in H as (s12 & c12 & H12 & H).
  apply matches_chr in H12 as (-> & ->).
  apply matches_cat in H as (s13 & c13 & H13 & H).
  apply matches_chr in H13 as (-> & ->).
  apply matches_cat in H as (s14 & c14 & H14 & H).
  apply matches_rep in H14 as (mid2 & -> & -> & _).
  apply matches_cat in H as (s15 & c15 & H15 & H).
  apply matches_lit in H15 as (-> & ->).
  apply matches_eps in H as (-> & ->).
  exists ts, v, k. split; [reflexivity|]. split; [lia|].
  split; [exact Hv|]. split; [now apply length_pos_nonempty|].
  split; [exact Hk|]. split; [now apply length_pos_nonempty|].
  apply contains_append, contains_append.
  do 1 apply contains_cons. apply contains_append.
  do 2 apply contains_cons. apply contains_append.
  apply contains_startswith, startswith_append.
Qed.

(** What the groups of a match of a kill pattern are. *)
Lemma kill_pattern_inv (r : regex) s s' c :
  In r kill_patterns ->
  matches r s [] s' c ->
  exists ts v k w rest,
    groups r c = Some ts :: Some v :: Some k :: Some w :: rest
    /\ ts <> ""
    /\ v <> "" /\ all_in not_quote v
    /\ k <> "" /\ all_in not_quote k
    /\ w <> "" /\ all_in dot w
    /\ (rest = [] \/ exists d, rest = [Some d] /\ d <> "" /\ all_in digit_or_dot d)
    /\ (Text.contains "killed by Player" s
        || Text.contains "has been killed by player" s) = true.
Proof.
  intros Hr H.
  assert (forall stamp phrase c1,
             grps stamp = [] -> (1 <= minlen stamp)%nat ->
             phrase = "killed by Player" \/ phrase = "has been killed by player" ->
             forall s1, matches (kill_head stamp phrase) s [] s1 c1 ->
             exists ts v k,
               c1 = [(3%nat, k); (2%nat, v); (1%nat, ts)]
               /\ ts <> ""
               /\ v <> "" /\ all_in not_quote v
               /\ k <> "" /\ all_in not_quote k
               /\ (Text.contains "killed by Player" s
                   || Text.contains "has been killed by player" s) = true) as Hhead.
  { intros stamp phrase c1 Hg Hmin Hph s1 Hm.
    apply kill_head_inv in Hm as (ts & v & k & -> & Hts & Hv & Hvn & Hk & Hkn & Hc);
      [|exact Hg].
    exists ts, v, k. repeat split; try assumption.
    - apply length_pos_nonempty. lia.
    - destruct Hph as [-> | ->]; rewrite Hc; [reflexivity | apply orb_true_r]. }
  destruct Hr as [<- | [<- | [<- | [<- | []]]]];
    unfold pattern1, pattern2, pattern3, pattern4 in H; cbn [cat] in H;
    apply matches_cat in H as (s1 & c1 & Hh & H);
    (eapply Hhead in Hh as (ts & v & k & -> & Hts & Hv & Hva & Hk & Hka & Hc);
     [| reflexivity | vm_compute; lia | auto]);
    apply matches_cat in H as (s2 & c2 & H4 & H);
    apply matches_grp_rep in H4 as (w & -> & -> & Hw & Hwl);
    pose proof (length_pos_nonempty w Hwl) as Hwn.
  - apply matches_cat in H as (s3 & c3 & H3 & H). apply matches_lit in H3 as (-> & ->).
    apply matches_cat in H as (s4 & c4 & H5 & H).
    apply matches_grp_rep in H5 as (d & -> & -> & Hd & Hdl).
    apply matches_cat in H as (s5 & c5 & H6 & H). apply matches_lit in H6 as (-> & ->).
    apply matches_cat in H as (s6 & c6 & H7 & H).
    apply matches_rep in H7 as (t & -> & -> & _).
    apply matches_eps in H as (-> & ->).
    exists ts, v, k, w, [Some d]. repeat split; try assumption.
    right. exists d. repeat split; [|exact Hd]. now apply length_pos_nonempty.
  - apply matches_cat in H as (s3 & c3 & H3 & H).
    assert (c3 = [(4%nat, w); (3%nat, k); (2%nat, v); (1%nat, ts)]) as ->
      by (eapply matches_no_groups; [exact H3 | reflexivity]).
    apply matches_eps in H as (-> & ->).
    exists ts, v, k, w, []. repeat split; try assumption. now left.
  - apply matches_cat in H as (s3 & c3 & H3 & H). apply matches_lit in H3 as (-> & ->).
    apply matches_cat in H as (s4 & c4 & H5 & H).
    apply matches_grp_rep in H5 as (d & -> & -> & Hd & Hdl).
    apply matches_cat in H as (s5 & c5 & H6 & H). apply matches_chr in H6 as (-> & ->).
    apply matches_eps in H as (-> & ->).
    exists ts, v, k, w, [Some d]. repeat split; try assumption.
    right. exists d. repeat split; [|exact Hd]. now apply length_pos_nonempty.
  - apply matches_eps in H as (-> & ->).
    exists ts, v, k, w, []. repeat split; try assumption. now left.
Qed.

(** The same for a match found by [search] in a line. *)
Lemma search_kill_pattern (r : regex) (line : string) (c : captures) :
  In r kill_patterns ->
  search r line = Some c ->
  exists ts v k w rest,
    groups r c = Some ts :: Some v :: Some k :: Some w :: rest
    /\ ts <> ""
    /\ v <> "" /\ all_in not_quote v
    /\ k <> "" /\ all_in not_quote k
    /\ w <> "" /\ all_in dot w
    /\ (rest = [] \/ exists d, rest = [Some d] /\ d <> "" /\ all_in digit_or_dot d)
    /\ (Text.contains "killed by Player" line
        || Text.contains "has been killed by player" line) = true.
Proof.
  intros Hr Hs. apply search_sound in Hs as (before & s0 & s' & -> & Hm).
  destruct (kill_pattern_inv r s0 s' c Hr Hm)
    as (ts & v & k & w & rest & Hg & Hts & Hv & Hva & Hk & Hka & Hw & Hwa & Hrest & Hc).
  exists ts, v, k, w, rest. repeat split; try assumption.
  apply orb_true_iff in Hc as [Hc | Hc]; apply orb_true_iff;
    [left | right]; now apply contains_append.
Qed.

End KillShape.

(** ** Extraction on a matched line *)

Module ExtractionFacts.
Import Re KillShape.

(** [extract_kill_data] on the groups of a match without distance group. *)
Lemma extract_without_distance (now_hms ts v k w line : string) :
  ts <> "" ->
  (Text.contains "killed by Player" line
   || Text.contains "has been killed by player" line) = true ->
  extract_kill_data now_hms [Some ts; Some v; Some k; Some w] line
  = Return (Some {| timestamp := ts; victim := Some v; killer := Some k;
                    weapon := Some w; distance := DZero; original_line := line |}).
Proof.
  intros Hts Hc. unfold extract_kill_data. rewrite Hc.
  destruct ts; [contradiction | reflexivity].
Qed.

(** The same with a distance group: the float of its text, or the
    exception [float] raises. *)
Lemma extract_with_distance (now_hms ts v k w d line : string) :
  ts <> "" -> d <> "" ->
  (Text.contains "killed by Player" line
   || Text.contains "has been killed by player" line) = true ->
  extract_kill_data now_hms [Some ts; Some v; Some k; Some w; Some d] line
  = match Float.py_float d with
    | Return x =>
        Return (Some {| timestamp := ts; victim := Some v; killer := Some k;
                        weapon := Some w; distance := DFloat x;
                        original_line := line |})
    | Raise e => Raise e
    end.
Proof.
  intros Hts Hd Hc. unfold extract_kill_data. rewrite Hc.
  destruct ts; [contradiction|]. destruct d; [contradiction|].
  cbn -[Float.py_float]. destruct (Float.py_float _); reflexivity.
Qed.

Lemma py_float_raises_value_error (d : string) (e : exn) :
  Float.py_float d = Raise e -> e = ValueError.
Proof.
  unfold Float.py_float.
  destruct (Float.scan_int 0 false d) as [[[m k] []]|]; congruence.
Qed.

(** The first pattern that matches decides the result. *)
Lemma parse_with_first_match (now_hms line : string) :
  forall patterns,
    (forall r, In r patterns -> search r line = None)
    \/ exists r c, In r patterns /\ search r line = Some c
                   /\ parse_with patterns now_hms line
                      = extract_kill_data now_hms (groups r c) line.
Proof.
  induction patterns as [|r rest IH]; [left; intros r []|].
  cbn [parse_with]. destruct (search r line) as [c|] eqn:Hs.
  - right. exists r, c. split; [now left | auto].
  - destruct IH as [Hnone | (r' & c' & Hin & Hs' & Heq)].
    + left. intros r' [<- | Hin]; [exact Hs | now apply Hnone].
    + right. exists r', c'. split; [now right | auto].
Qed.

(** The clock argument does not matter on a match of a kill pattern. *)
Lemma parse_with_clock (line : string) :
  forall patterns,
    (forall r, In r patterns -> In r kill_patterns) ->
    forall now_hms, parse_with patterns now_hms line = parse_with patterns "" line.
Proof.
  induction patterns as [|r rest IH]; intros Hsub now_hms; [reflexivity|].
  cbn [parse_with]. destruct (search r line) as [c|] eqn:Hs.
  - destruct (search_kill_pattern r line c (Hsub r (or_introl eq_refl)) Hs)
      as (ts & v & k & w & rest' & -> & Hts & _ & _ & _ & _ & _ & _ & Hrest & Hc).
    destruct Hrest as [-> | (d & -> & Hd & _)].
    + now rewrite !extract_without_distance by assumption.
    + now rewrite !extract_with_distance by assumption.
  - apply IH. intros r' Hr'. apply Hsub. now right.
Qed.

End ExtractionFacts.

(** X1. Whenever [parse_kill_event] returns a record, the record keeps
    the line as [original_line], its timestamp is non-empty, victim and
    killer are non-empty strings without a double quote, the weapon is a
    non-empty string without a line feed, and the line holds one of the
    two phrases. *)
Theorem parse_kill_event_record_complete (now_hms line : string) (kd : KillRecord) :
  parse_kill_event now_hms line = Return (Some kd) ->
  original_line kd = line
  /\ timestamp kd <> ""
  /\ (exists v, victim kd = Some v /\ v <> "" /\ all_in Re.not_quote v)
  /\ (exists k, killer kd = Some k /\ k <> "" /\ all_in Re.not_quote k)
  /\ (exists w, weapon kd = Some w /\ w <> "" /\ all_in Re.dot w)
  /\ (Text.contains "killed by Player" line
      || Text.contains "has been killed by player" line) = true.
Proof.
  intros H.
  destruct (ExtractionFacts.parse_with_first_match now_hms line kill_patterns)
    as [Hnone | (r & c & Hin & Hs & Heq)].
  - rewrite (KillFacts.parse_kill_event_no_match now_hms line Hnone) in H. discriminate.
  - unfold parse_kill_event in H. rewrite Heq in H.
    destruct (KillShape.search_kill_pattern r line c Hin Hs)
      as (ts & v & k & w & rest & Hg & Hts & Hv & Hva & Hk & Hka & Hw & Hwa & Hrest & Hc).
    rewrite Hg in H.
    destruct Hrest as [-> | (d & -> & Hd & _)].
    + rewrite ExtractionFacts.extract_without_distance in H by assumption.
      injection H as <-. cbn [original_line timestamp victim killer weapon].
      split; [reflexivity|]. split; [exact Hts|]. split; [exists v; auto|].
      split; [exists k; auto|]. split; [exists w; auto | exact Hc].
    + rewrite ExtractionFacts.extract_with_distance in H by assumption.
      destruct (Float.py_float d); [|discriminate].
      injection H as <-. cbn [original_line timestamp victim killer weapon].
      split; [reflexivity|]. split; [exact Hts|]. split; [exists v; auto|].
      split; [exists k; auto|]. split; [exists w; auto | exact Hc].
Qed.

Lemma parse_kill_event_record_complete_witness :
  original_line Samples.kill_far = Samples.line_far
  /\ timestamp Samples.kill_far <> ""
  /\ (exists v, victim Samples.kill_far = Some v /\ v <> "" /\ all_in Re.not_quote v)
  /\ (exists k, killer Samples.kill_far = Some k /\ k <> "" /\ all_in Re.not_quote k)
  /\ (exists w, weapon Samples.kill_far = Some w /\ w <> "" /\ all_in Re.dot w)
  /\ (Text.contains "killed by Player" Samples.line_far
      || Text.contains "has been killed by player" Samples.line_far) = true.
Proof.
  apply (parse_kill_event_record_complete "00:00:00" Samples.line_far Samples.kill_far).
  vm_compute. reflexivity.
Defined.

(** X2. [parse_kill_event] returns none exactly when none of the four
    patterns matches the line: the phrase test of [extract_kill_data]
    never turns a match down, since every pattern spells one of the two
    phrases. *)
Theorem parse_kill_event_none_iff_no_match (now_hms line : string) :
  parse_kill_event now_hms line = Return None
  <-> forall r, In r kill_patterns -> Re.search r line = None.
Proof.
  split; [|apply KillFacts.parse_kill_event_no_match].
  intros H. unfold parse_kill_event in H.
  destruct (ExtractionFacts.parse_with_first_match now_hms line kill_patterns)
    as [Hnone | (r & c & Hin & Hs & Heq)]; [exact Hnone|].
  exfalso. rewrite Heq in H.
  destruct (KillShape.search_kill_pattern r line c Hin Hs)
    as (ts & v & k & w & rest & Hg & Hts & Hv & Hva & Hk & Hka & Hw & Hwa & Hrest & Hc).
  rewrite Hg in H.
  destruct Hrest as [-> | (d & -> & Hd & _)].
  - rewrite ExtractionFacts.extract_without_distance in H by assumption. discriminate.
  - rewrite ExtractionFacts.extract_with_distance in H by assumption.
    destruct (Float.py_float d); discriminate.
Qed.

(** X3. The result of [parse_kill_event] does not depend on the clock:
    the stamp group of every pattern is non-empty, so the fallback to the
    current time is never taken. *)
Theorem parse_kill_event_ignores_clock (now1 now2 line : string) :
  parse_kill_event now1 line = parse_kill_event now2 line.
Proof.
  unfold parse_kill_event.
  rewrite (ExtractionFacts.parse_with_clock line kill_patterns (fun _ H => H) now1).
  rewrite (ExtractionFacts.parse_with_clock line kill_patterns (fun _ H => H) now2).
  reflexivity.
Qed.

(** X4. The only exception [parse_kill_event] raises is [ValueError],
    and it raises it only on a line that one of the patterns matches with
    a distance group, a non-empty text of digits and points, that [float]
    does not accept. *)
Theorem parse_kill_event_raises_only_on_distance (now_hms line : string) (e : exn) :
  parse_kill_event now_hms line = Raise e ->
  e = ValueError
  /\ exists r c d,
       In r kill_patterns
       /\ Re.search r line = Some c
       /\ item (Re.groups r c) 4 = Some d
       /\ d <> "" /\ all_in Re.digit_or_dot d
       /\ Float.py_float d = Raise ValueError.
Proof.
  intros H.
  destruct (ExtractionFacts.parse_with_first_match now_hms line kill_patterns)
    as [Hnone | (r & c & Hin & Hs & Heq)].
  - rewrite (KillFacts.parse_kill_event_no_match now_hms line Hnone) in H. discriminate.
  - unfold parse_kill_event in H. rewrite Heq in H.
    destruct (KillShape.search_kill_pattern r line c Hin Hs)
      as (ts & v & k & w & rest & Hg & Hts & Hv & Hva & Hk & Hka & Hw & Hwa & Hrest & Hc).
    rewrite Hg in H.
    destruct Hrest as [-> | (d & -> & Hd & Hda)].
    + rewrite ExtractionFacts.extract_without_distance in H by assumption. discriminate.
    + rewrite ExtractionFacts.extract_with_distance in H by assumption.
      destruct (Float.py_float d) as [x|e'] eqn:Hf; [discriminate|].
      injection H as ->.
      pose proof (ExtractionFacts.py_float_raises_value_error d e Hf) as ->.
      split; [reflexivity|]. exists r, c, d. rewrite Hg. auto 10.
Qed.

Lemma parse_kill_event_raises_only_on_distance_witness :
  ValueError = ValueError
  /\ exists r c d,
       In r kill_patterns
       /\ Re.search r Samples.line_bad_distance = Some c
       /\ item (Re.groups r c) 4 = Some d
       /\ d <> "" /\ all_in Re.digit_or_dot d
       /\ Float.py_float d = Raise ValueError.
Proof.
  apply (parse_kill_event_raises_only_on_distance "00:00:00" Samples.line_bad_distance
           ValueError).
  vm_compute. reflexivity.
Defined.

(** ** The sign of a parsed distance *)

Module FloatFacts.

Lemma shr_1_nonneg (mrs : shr_record) : 0 <= shr_m mrs -> 0 <= shr_m (shr_1 mrs).
Proof.
  destruct mrs as [m r s]. cbn [shr_m]. intros H.
  destruct m as [|[p|p|]|p]; cbn; lia.
Qed.

Lemma iter_pos_shr_1_nonneg (n : positive) :
  forall mrs, 0 <= shr_m mrs -> 0 <= shr_m (SpecFloat.iter_pos shr_1 n mrs).
Proof.
  induction n as [n IH|n IH|]; intros mrs H; cbn [SpecFloat.iter_pos].
  - apply IH, IH, shr_1_nonneg, H.
  - apply IH, IH, H.
  - apply shr_1_nonneg, H.
Qed.

Lemma shr_fexp_nonneg (m e : Z) (l : location) :
  0 <= m -> 0 <= shr_m (fst (shr_fexp Float.prec Float.emax m e l)).
Proof.
  intros H. unfold shr_fexp, shr.
  assert (0 <= shr_m (shr_record_of_loc m l)) as H0
    by (destruct l as [|[]]; exact H).
  destruct (fexp Float.prec Float.emax (Zdigits2 m + e) - e);
    cbn [fst]; [exact H0 | now apply iter_pos_shr_1_nonneg | exact H0].
Qed.

Lemma round_nearest_even_nonneg (m : Z) (l : location) :
  0 <= m -> 0 <= round_nearest_even m l.
Proof.
  intros H. unfold round_nearest_even.
  destruct l as [|[]]; [lia | destruct (Z.even m); lia | lia | lia].
Qed.

Lemma binary_round_aux_nonneg (m e : Z) (l : location) :
  0 <= m -> nonneg_float (binary_round_aux Float.prec Float.emax false m e l).
Proof.
  intros H. unfold binary_round_aux.
  pose proof (shr_fexp_nonneg m e l H) as H1.
  destruct (shr_fexp Float.prec Float.emax m e l) as [mrs' e'].
  cbn [fst] in H1.
  pose proof (shr_fexp_nonneg _ e' loc_Exact
                (round_nearest_even_nonneg _ (loc_of_shr_record mrs') H1)) as H2.
  destruct (shr_fexp Float.prec Float.emax _ e' loc_Exact) as [mrs'' e''].
  cbn [fst] in H2.
  destruct (shr_m mrs'') as [|q|q]; [reflexivity | | lia].
  destruct (e'' <=? Float.emax - Float.prec); reflexivity.
Qed.

Lemma of_decimal_nonneg (m k : Z) : nonneg_float (Float.of_decimal m k).
Proof.
  unfold Float.of_decimal. destruct m as [|p|p]; [reflexivity | | reflexivity].
  unfold SFdiv, SFdiv_core_binary.
  set (m' := match _ - _ - _ with Z0 => _ | Zpos _ => _ | Zneg _ => _ end).
  assert (0 <= m') as Hm'.
  { subst m'. destruct (_ - _ - _); [lia | | lia].
    rewrite Z.shiftl_mul_pow2 by lia.
    apply Z.mul_nonneg_nonneg; [lia | apply Z.pow_nonneg; lia]. }
  pose proof (Z.div_pos m' (Z.pos (Z.to_pos (10 ^ k))) Hm' ltac:(lia)) as Hq.
  unfold Z.div in Hq.
  destruct (Z.div_eucl m' (Z.pos (Z.to_pos (10 ^ k)))) as [q r].
  cbn [fst] in Hq. cbn [xorb]. now apply binary_round_aux_nonneg.
Qed.

Lemma py_float_nonneg (d : string) (x : spec_float) :
  Float.py_float d = Return x -> nonneg_float x.
Proof.
  unfold Float.py_float.
  destruct (Float.scan_int 0 false d) as [[[m k] []]|]; try discriminate.
  intros [= <-]. apply of_decimal_nonneg.
Qed.

End FloatFacts.

(** X5. The distance of a record that [parse_kill_event] returns is the
    literal 0 or a float that is zero, positive or plus infinity: never a
    negative number and never a NaN. *)
Theorem parse_kill_event_distance_nonneg (now_hms line : string) (kd : KillRecord) :
  parse_kill_event now_hms line = Return (Some kd) ->
  distance kd = DZero \/ exists x, distance kd = DFloat x /\ nonneg_float x.
Proof.
  intros H.
  destruct (ExtractionFacts.parse_with_first_match now_hms line kill_patterns)
    as [Hnone | (r & c & Hin & Hs & Heq)].
  - rewrite (KillFacts.parse_kill_event_no_match now_hms line Hnone) in H. discriminate.
  - unfold parse_kill_event in H. rewrite Heq in H.
    destruct (KillShape.search_kill_pattern r line c Hin Hs)
      as (ts & v & k & w & rest & Hg & Hts & Hv & Hva & Hk & Hka & Hw & Hwa & Hrest & Hc).
    rewrite Hg in H.
    destruct Hrest as [-> | (d & -> & Hd & _)].
    + rewrite ExtractionFacts.extract_without_distance in H by assumption.
      injection H as <-. now left.
    + rewrite ExtractionFacts.extract_with_distance in H by assumption.
      destruct (Float.py_float d) as [x|] eqn:Hf; [|discriminate].
      injection H as <-. right. exists x. split; [reflexivity|].
      eapply FloatFacts.py_float_nonneg, Hf.
Qed.

Lemma parse_kill_event_distance_nonneg_witness :
  distance Samples.kill_far = DZero
  \/ exists x, distance Samples.kill_far = DFloat x /\ nonneg_float x.
Proof.
  apply (parse_kill_event_distance_nonneg "00:00:00" Samples.line_far Samples.kill_far).
  vm_compute. reflexivity.
Defined.

(** ** More on sanitisation *)

Lemma sanitize_as_escape (text : string) :
  sanitize_discord_text text = escape_each text.
Proof.
  unfold sanitize_discord_text. destruct text as [|c s]; [reflexivity|].
  apply six_replacements_escape.
Qed.

Lemma reserved_backslash (c : ascii) :
  reserved c = false -> Ascii.eqb c Text.backslash = false.
Proof.
  unfold reserved, escape_chars. cbn [existsb]. intros H.
  apply orb_false_iff in H as (H & _). exact H.
Qed.

Lemma unescape_escape_each (s : string) : unescape (escape_each s) = s.
Proof.
  induction s as [|c s IH]; [reflexivity|].
  cbn [escape_each]. destruct (reserved c) eqn:Hr.
  - cbn [unescape]. rewrite Ascii.eqb_refl, IH. reflexivity.
  - cbn [unescape]. rewrite (reserved_backslash c Hr), IH. reflexivity.
Qed.

Lemma length_escape_each (s : string) :
  String.length (escape_each s) = (String.length s + count_reserved s)%nat.
Proof.
  induction s as [|c s IH]; [reflexivity|].
  cbn [escape_each count_reserved]. destruct (reserved c); cbn [String.length]; lia.
Qed.

Lemma escape_each_plain (s : string) : count_reserved s = 0%nat -> escape_each s = s.
Proof.
  induction s as [|c s IH]; [reflexivity|].
  cbn [count_reserved escape_each]. destruct (reserved c); [discriminate|].
  intros H. now rewrite IH.
Qed.

(** X6. [sanitize_discord_text] loses nothing: dropping each escaping
    backslash gives the text back, so two different texts never have the
    same sanitised form. *)
Theorem sanitize_discord_text_injective :
  (forall text, unescape (sanitize_discord_text text) = text)
  /\ (forall a b, sanitize_discord_text a = sanitize_discord_text b -> a = b).
Proof.
  assert (forall text, unescape (sanitize_discord_text text) = text) as H
    by (intros text; rewrite sanitize_as_escape; apply unescape_escape_each).
  split; [exact H|].
  intros a b Hab. rewrite <- (H a), <- (H b), Hab. reflexivity.
Qed.

(** X7. [sanitize_discord_text] makes the text longer by exactly the
    number of reserved characters in it, and returns the text unchanged
    exactly when it holds none. *)
Theorem sanitize_discord_text_growth (text : string) :
  String.length (sanitize_discord_text text)
  = (String.length text + count_reserved text)%nat
  /\ (sanitize_discord_text text = text <-> count_reserved text = 0%nat).
Proof.
  rewrite sanitize_as_escape. split; [apply length_escape_each|].
  split.
  - intros H. apply (f_equal String.length) in H.
    rewrite length_escape_each in H. lia.
  - apply escape_each_plain.
Qed.

(** ** Runs of the queue *)

Section QueueRuns.
Variable hook : webhook.

Lemma drain_pass (now : Z) (st : Parser) (attempts : list string) :
  queue_ok st ->
  process_message_queue hook now st attempts
  = (with_queue (List.filter (fun entry => negb (is_due now entry)) (message_queue st)) st,
     (attempts ++ map fst (List.filter (is_due now) (message_queue st)))%list).
Proof.
  intros Hok. unfold process_message_queue.
  rewrite split_due_spec. cbn [app].
  rewrite send_each_attempts by (apply due_texts_ok, Hok).
  reflexivity.
Qed.

Lemma flush_all (st : Parser) (attempts : list string) :
  queue_ok st ->
  message_queue (fst (graceful_shutdown hook st attempts)) = []
  /\ snd (graceful_shutdown hook st attempts)
     = (attempts ++ map fst (message_queue st))%list.
Proof.
  intros Hok. unfold graceful_shutdown.
  destruct (message_queue st) as [|e q] eqn:Hq.
  - cbn [fst snd map]. rewrite Hq, app_nil_r. auto.
  - cbn [fst snd with_queue message_queue]. split; [reflexivity|].
    rewrite <- Hq. apply send_each_attempts, queue_ok_texts, Hok.
Qed.

(** The due and the other entries together are the queue. *)
Lemma partition_texts (f : string * Z -> bool) (q : list (string * Z)) :
  Permutation
    (map fst (List.filter f q) ++ map fst (List.filter (fun e => negb (f e)) q))
    (map fst q).
Proof.
  induction q as [|e q IH]; [constructor|].
  cbn [List.filter]. destruct (f e); cbn [negb map app].
  - now constructor.
  - etransitivity; [symmetry; apply Permutation_middle|]. now constructor.
Qed.

(** What a run keeps: the attempts made and the messages still queued
    are, together, the attempts and messages at the start and the
    messages enqueued since. *)
Lemma run_queue_conserves (ops : list queue_op) :
  forall st attempts,
    queue_ok st ->
    queue_ok (fst (run_queue hook ops st attempts))
    /\ Permutation
         (snd (run_queue hook ops st attempts)
            ++ map fst (message_queue (fst (run_queue hook ops st attempts))))
         (attempts ++ map fst (message_queue st) ++ enqueued ops).
Proof.
  induction ops as [|[now message | now] ops IH]; intros st attempts Hok.
  - cbn [run_queue fst snd enqueued]. split; [exact Hok|]. now rewrite app_nil_r.
  - cbn [run_queue enqueued].
    destruct (IH (queue_message now message st) attempts
                 (queue_message_ok now message st Hok)) as (Hok' & Hperm).
    split; [exact Hok'|]. rewrite Hperm. unfold queue_message.
    destruct (Text.truthy message); [|reflexivity].
    cbn [with_queue message_queue]. rewrite map_app, <- !app_assoc. reflexivity.
  - cbn [run_queue enqueued]. rewrite (drain_pass now st attempts Hok).
    set (st' := with_queue _ st). set (attempts' := (attempts ++ _)%list).
    assert (queue_ok st') as Hok'.
    { pose proof (process_message_queue_ok hook now st attempts Hok) as H.
      now rewrite (drain_pass now st attempts Hok) in H. }
    destruct (IH st' attempts' Hok') as (Hok'' & Hperm).
    split; [exact Hok''|]. rewrite Hperm. subst st' attempts'.
    cbn [with_queue message_queue]. rewrite <- !app_assoc.
    apply Permutation_app_head. rewrite !app_assoc.
    apply Permutation_app_tail, partition_texts.
Qed.

(** X8. Whatever the order of enqueues and drain passes and whatever the
    webhook answers, once the shutdown flush has run the queue is empty
    and every message that was queued at the start or enqueued since has
    been posted exactly once: the attempts are the earlier attempts plus
    a rearrangement of those messages. *)
Theorem run_queue_then_flush_posts_each_once (ops : list queue_op) (st : Parser)
    (attempts : list string) :
  queue_ok st ->
  let '(st1, attempts1) := run_queue hook ops st attempts in
  let '(st2, attempts2) := graceful_shutdown hook st1 attempts1 in
  message_queue st2 = []
  /\ Permutation attempts2 (attempts ++ map fst (message_queue st) ++ enqueued ops).
Proof.
  intros Hok.
  destruct (run_queue_conserves ops st attempts Hok) as (Hok1 & Hperm).
  destruct (run_queue hook ops st attempts) as [st1 attempts1].
  cbn [fst snd] in Hok1, Hperm.
  destruct (flush_all st1 attempts1 Hok1) as (Hempty & Hposted).
  destruct (graceful_shutdown hook st1 attempts1) as [st2 attempts2].
  cbn [fst snd] in Hempty, Hposted. split; [exact Hempty|].
  now rewrite Hposted.
Qed.

(** X9. A drain pass that follows another at the same or an earlier
    clock reading posts nothing and leaves the queue as it is: draining
    alone attempts a message at most once. *)
Theorem process_message_queue_twice (now now' : Z) (st : Parser)
    (attempts : list string) :
  queue_ok st ->
  now' <= now ->
  let '(st1, attempts1) := process_message_queue hook now st attempts in
  process_message_queue hook now' st1 attempts1 = (st1, attempts1).
Proof.
  intros Hok Hle.
  pose proof (process_message_queue_ok hook now st attempts Hok) as Hok1.
  rewrite (drain_pass now st attempts Hok) in *. cbn [fst] in Hok1.
  rewrite (drain_pass now' _ _ Hok1). cbn [with_queue message_queue].
  set (later := List.filter (fun entry => negb (is_due now entry)) (message_queue st)).
  assert (forall entry, In entry later -> is_due now' entry = false) as Hlater.
  { intros entry Hin. apply filter_In in Hin as (_ & Hnot).
    unfold is_due in *. apply negb_true_iff, Z.leb_gt in Hnot. apply Z.leb_gt. lia. }
  assert (List.filter (is_due now') later = []) as ->.
  { clear -Hlater. induction later as [|e l IH]; [reflexivity|].
    cbn [List.filter]. rewrite (Hlater e (or_introl eq_refl)).
    apply IH. intros e' He'. apply Hlater. now right. }
  assert (List.filter (fun entry => negb (is_due now' entry)) later = later) as ->.
  { clear -Hlater. induction later as [|e l IH]; [reflexivity|].
    cbn [List.filter]. rewrite (Hlater e (or_introl eq_refl)). cbn [negb].
    f_equal. apply IH. intros e' He'. apply Hlater. now right. }
  cbn [map]. now rewrite app_nil_r.
Qed.
End QueueRuns.

Lemma run_queue_then_flush_posts_each_once_witness :
  let '(st1, attempts1) :=
    run_queue (fun _ _ => Status 500)
      [Enqueue 0 "first"; Drain (seconds 100); Enqueue (seconds 200) "";
       Enqueue (seconds 200) "second"; Drain (seconds 301)]
      (new_parser "/logs") [] in
  let '(st2, attempts2) := graceful_shutdown (fun _ _ => Status 500) st1 attempts1 in
  message_queue st2 = []
  /\ Permutation attempts2 ([] ++ [] ++ ["first"; "second"]).
Proof.
  apply (run_queue_then_flush_posts_each_once (fun _ _ => Status 500)
           [Enqueue 0 "first"; Drain (seconds 100); Enqueue (seconds 200) "";
            Enqueue (seconds 200) "second"; Drain (seconds 301)]
           (new_parser "/logs") []).
  constructor.
Defined.

Lemma process_message_queue_twice_witness :
  let '(st1, attempts1) :=
    process_message_queue (fun _ _ => Failed) (seconds 400)
      (with_queue [("early", seconds 300); ("late", seconds 500)] (new_parser "/logs"))
      [] in
  process_message_queue (fun _ _ => Failed) (seconds 400) st1 attempts1
  = (st1, attempts1).
Proof.
  apply (process_message_queue_twice (fun _ _ => Failed) (seconds 400) (seconds 400)
           (with_queue [("early", seconds 300); ("late", seconds 500)]
              (new_parser "/logs")) []).
  - repeat constructor.
  - vm_compute. discriminate.
Defined.

(** ** Passes of the tailing loop *)

Module TailFacts.

Lemma parse_kill_event_clock (now_hms line : string) :
  parse_kill_event now_hms line = parse_kill_event "" line.
Proof.
  unfold parse_kill_event.
  apply (ExtractionFacts.parse_with_clock line kill_patterns (fun _ H => H)).
Qed.

Lemma format_truthy (kd : KillRecord) :
  Text.truthy (format_discord_message (Some kd)) = true.
Proof. reflexivity. Qed.

(** Processing lines appends to the queue and, without an exception,
    appends the messages of the lines. *)
Lemma process_lines_queue (clk : Clock) (new_lines : list string) :
  forall st,
    exists added,
      message_queue (fst (process_lines clk new_lines st)) = (message_queue st ++ added)%list
      /\ (snd (process_lines clk new_lines st) = None ->
          map fst added = messages_of new_lines).
Proof.
  induction new_lines as [|line rest IH]; intros st.
  - exists []. cbn. now rewrite app_nil_r.
  - cbn [process_lines messages_of]. rewrite parse_kill_event_clock.
    destruct (parse_kill_event "" line) as [[kd|]|e].
    + rewrite format_truthy.
      destruct (IH (queue_message (now clk) (format_discord_message (Some kd)) st))
        as (added & Hq & Ht).
      exists ((format_discord_message (Some kd), now clk + DELAY_BEFORE_SEND) :: added).
      split.
      * rewrite Hq. unfold queue_message. rewrite format_truthy.
        cbn [with_queue message_queue]. now rewrite <- app_assoc.
      * intros Hn. cbn [map fst]. now rewrite (Ht Hn).
    + apply IH.
    + exists []. cbn. split; [now rewrite app_nil_r | discriminate].
Qed.

Lemma process_lines_parses (clk : Clock) (new_lines : list string) :
  forall st,
    (forall line e, In line new_lines -> parse_kill_event "" line <> Raise e) ->
    snd (process_lines clk new_lines st) = None.
Proof.
  induction new_lines as [|line rest IH]; intros st H; [reflexivity|].
  cbn [process_lines]. rewrite parse_kill_event_clock.
  destruct (parse_kill_event "" line) as [[kd|]|e] eqn:Hp.
  - apply IH. intros l e Hl. apply H. now right.
  - apply IH. intros l e Hl. apply H. now right.
  - exfalso. apply (H line e); [now left | exact Hp].
Qed.

Lemma process_lines_shutdown (clk : Clock) (new_lines : list string) :
  forall st,
    shutdown_requested (fst (process_lines clk new_lines st)) = shutdown_requested st.
Proof.
  induction new_lines as [|line rest IH]; intros st; [reflexivity|].
  cbn [process_lines].
  destruct (parse_kill_event (now_hms clk) line) as [[kd|]|e]; [| apply IH | reflexivity].
  destruct (Text.truthy (format_discord_message (Some kd))); rewrite IH; [|reflexivity].
  unfold queue_message. destruct (Text.truthy _); reflexivity.
Qed.

Lemma get_set_other (filepath other : string) (position : Z) (st : Parser) :
  other <> filepath ->
  get_file_position other (set_file_position filepath position st)
  = get_file_position other st.
Proof.
  intros Hne. unfold get_file_position, set_file_position. cbn [last_position].
  now rewrite lookup_insert_ne by congruence.
Qed.

Lemma framed_refl (filepath : string) (st : Parser) : framed filepath st st.
Proof.
  repeat split; try reflexivity. exists []. now rewrite app_nil_r.
Qed.

Lemma framed_set (filepath : string) (position : Z) (st st' : Parser) :
  framed filepath st st' -> framed filepath st (set_file_position filepath position st').
Proof.
  intros (Hq & Hp & Hc & Hd & Hs). repeat split; try assumption.
  intros other Hne. rewrite get_set_other by exact Hne. now apply Hp.
Qed.

Lemma framed_process_lines (clk : Clock) (filepath : string) (new_lines : list string)
    (st : Parser) :
  framed filepath st (fst (process_lines clk new_lines st)).
Proof.
  destruct (process_lines_queue clk new_lines st) as (added & Hq & _).
  destruct (process_lines_fields clk new_lines st) as (Hp & Hd & Hc).
  repeat split; try assumption.
  - now exists added.
  - intros other _. unfold get_file_position. now rewrite Hp.
  - apply process_lines_shutdown.
Qed.

End TailFacts.

(** X10. Whatever a pass of [monitor_single_file] meets (a file that
    does not open, a line that raises, a newer file, a rotation), it only
    appends to the message queue and only moves the position of the file
    it monitors: the queued messages stay, in order, the positions stored
    for other files stay, and so do the current file, the directory and
    the shutdown flag. *)
Theorem monitor_single_file_frame (fs : FileSystem) (clk : Clock) (filepath : string)
    (st : Parser) (last_file_check_time : Z) :
  framed filepath st
         (fst (fst (monitor_single_file fs clk filepath st last_file_check_time))).
Proof.
  unfold monitor_single_file.
  destruct (fs_open fs filepath) as [content|[]]; try apply TailFacts.framed_refl.
  destruct (read_new (get_file_position filepath st) content) as [new_lines new_pos].
  pose proof (TailFacts.framed_process_lines clk filepath new_lines st) as H1.
  destruct (process_lines clk new_lines st) as [st1 [e|]]; cbn [fst] in *; [exact H1|].
  set (st2 := match new_lines with
              | [] => st1
              | _ :: _ => set_file_position filepath new_pos st1
              end).
  assert (framed filepath st st2) as H2
    by (subst st2; destruct new_lines; [exact H1 | now apply TailFacts.framed_set]).
  assert (framed filepath st
                 (fst (check_rotation fs filepath (get_file_position filepath st) st2)))
    as H3.
  { unfold check_rotation. destruct (fs_getsize fs filepath) as [size|]; [|exact H2].
    cbn [fst]. destruct (size <? get_file_position filepath st);
      [now apply TailFacts.framed_set | exact H2]. }
  destruct (check_rotation fs filepath (get_file_position filepath st) st2) as [st3 e].
  cbn [fst] in H3.
  destruct (FILE_CHECK_INTERVAL <=? time clk - last_file_check_time); [|exact H3].
  destruct (path_truthy _ && path_differs _ _); [exact H2 | exact H3].
Qed.

Module PassFacts.

(** The parser at the rotation check, when no line raises. *)
Lemma at_check_spec (clk : Clock) (filepath content : string) (st : Parser) :
  let last_pos := get_file_position filepath st in
  snd (process_lines clk (fst (read_new last_pos content)) st) = None ->
  map fst (message_queue (at_check clk filepath content st))
  = (map fst (message_queue st) ++ messages_of (fst (read_new last_pos content)))%list
  /\ get_file_position filepath (at_check clk filepath content st)
     = match fst (read_new last_pos content) with
       | [] => last_pos
       | _ :: _ => snd (read_new last_pos content)
       end.
Proof.
  intros last_pos Hn. unfold at_check. fold last_pos.
  destruct (read_new last_pos content) as [new_lines new_pos]. cbn [fst snd] in *.
  destruct (TailFacts.process_lines_queue clk new_lines st) as (added & Hq & Ht).
  destruct (process_lines_fields clk new_lines st) as (Hp & _ & _).
  specialize (Ht Hn).
  destruct new_lines as [|l ls].
  - split.
    + rewrite Hq, map_app, Ht. reflexivity.
    + unfold get_file_position. now rewrite Hp.
  - split.
    + cbn [set_file_position message_queue]. rewrite Hq, map_app, Ht. reflexivity.
    + apply get_set_file_position.
Qed.

(** Where a pass that opens the file and meets no exception ends: at
    the parser of the check, or at that parser with the position reset
    when the size read is below the position the pass began with. *)
Lemma pass_result (fs : FileSystem) (clk : Clock) (filepath : string) (st : Parser)
    (last_file_check_time : Z) (content : string) :
  fs_open fs filepath = Return content ->
  snd (process_lines clk (fst (read_new (get_file_position filepath st) content)) st)
  = None ->
  fst (fst (monitor_single_file fs clk filepath st last_file_check_time))
  = at_check clk filepath content st
  \/ (exists size, fs_getsize fs filepath = Some size
                   /\ size < get_file_position filepath st
                   /\ fst (fst (monitor_single_file fs clk filepath st last_file_check_time))
                      = set_file_position filepath 0 (at_check clk filepath content st)).
Proof.
  intros Hopen Hlines. unfold monitor_single_file, at_check. rewrite Hopen.
  destruct (read_new (get_file_position filepath st) content) as [new_lines new_pos].
  cbn [fst] in Hlines.
  destruct (process_lines clk new_lines st) as [st1 [e|]]; [discriminate|].
  cbn [fst].
  set (st2 := match new_lines with
              | [] => st1
              | _ :: _ => set_file_position filepath new_pos st1
              end).
  unfold check_rotation.
  destruct (FILE_CHECK_INTERVAL <=? time clk - last_file_check_time);
    [destruct (path_truthy _ && path_differs _ _); [now left|]|];
    (destruct (fs_getsize fs filepath) as [size|]; [|now left]);
    (destruct (size <? get_file_position filepath st) eqn:Hlt;
     [right; exists size; apply Z.ltb_lt in Hlt; auto | now left]).
Qed.

Lemma read_lines_some (s : string) :
  forall cur, s <> "" \/ Text.truthy cur = true -> read_lines cur s <> [].
Proof.
  induction s as [|c s IH]; intros cur H; cbn [read_lines].
  - destruct H as [H | H]; [contradiction | rewrite H; discriminate].
  - destruct (Ascii.eqb c Text.carriage).
    + destruct s as [|c2 s]; [discriminate|].
      destruct (Ascii.eqb c2 Text.newline); discriminate.
    + destruct (Ascii.eqb c Text.newline); [discriminate|].
      apply IH. right. destruct cur; reflexivity.
Qed.

Lemma read_lines_of_nonempty (s : string) :
  s <> "" -> forall cur, read_lines cur s <> [].
Proof. intros Hs cur. apply read_lines_some. now left. Qed.

(** What a pass that opens the file and meets no exception leaves in the
    queue: the messages of the lines it read, after what was there. *)
Lemma pass_queue (fs : FileSystem) (clk : Clock) (filepath : string) (st : Parser)
    (last_file_check_time : Z) (content : string) :
  fs_open fs filepath = Return content ->
  snd (process_lines clk (fst (read_new (get_file_position filepath st) content)) st)
  = None ->
  map fst (message_queue
             (fst (fst (monitor_single_file fs clk filepath st last_file_check_time))))
  = (map fst (message_queue st)
       ++ messages_of (fst (read_new (get_file_position filepath st) content)))%list.
Proof.
  intros Hopen Hlines.
  destruct (at_check_spec clk filepath content st Hlines) as (Hq & _).
  destruct (pass_result fs clk filepath st last_file_check_time content Hopen Hlines)
    as [-> | (size & _ & _ & ->)]; exact Hq.
Qed.

(** Reading a finished line, whatever follows it. *)
Lemma read_lines_whole_line (line : string) :
  forall cur rest,
    whole_line line = true ->
    read_lines cur (line ++ rest) = (cur ++ line) :: read_lines "" rest.
Proof.
  induction line as [|c line IH]; intros cur rest H; [discriminate|].
  destruct line as [|c2 line].
  - cbn [whole_line] in H. apply Ascii.eqb_eq in H. subst c. reflexivity.
  - assert (unbroken c = true /\ whole_line (String c2 line) = true) as (Hc & Hl)
      by (cbn [whole_line] in H; now apply andb_true_iff in H).
    unfold unbroken in Hc. apply andb_true_iff in Hc as (Hcr & Hnl).
    apply negb_true_iff in Hcr, Hnl.
    change (String c (String c2 line) ++ rest) with (String c (String c2 line ++ rest)).
    cbn [read_lines]. rewrite Hcr, Hnl.
    rewrite (IH (cur ++ String c "") rest Hl), append_assoc. reflexivity.
Qed.

(** The lines of a file of finished lines are those lines. *)
Lemma read_lines_joined (lines : list string) :
  Forall (fun line => whole_line line = true) lines ->
  read_lines "" (joined lines) = lines.
Proof.
  induction 1 as [|line lines Hline _ IH]; [reflexivity|].
  cbn [joined]. now rewrite (read_lines_whole_line line "" (joined lines) Hline), IH.
Qed.

(** The reading loop sees a text as it sees its translation. *)
Lemma read_lines_universal_upto (n : nat) :
  forall s cur,
    (String.length s <= n)%nat ->
    read_lines cur (universal s) = read_lines cur s.
Proof.
  induction n as [|n IH]; intros s cur Hlen.
  - destruct s; [reflexivity | simpl in Hlen; lia].
  - destruct s as [|c s]; [reflexivity|]. simpl in Hlen.
    cbn [universal]. destruct (Ascii.eqb c Text.carriage) eqn:Hcr.
    + apply Ascii.eqb_eq in Hcr. subst c.
      destruct s as [|c2 s]; [reflexivity|]. simpl in Hlen.
      change (read_lines cur (String Text.carriage (String c2 s)))
        with (if Ascii.eqb c2 Text.newline
              then (cur ++ String Text.newline "") :: read_lines "" s
              else (cur ++ String Text.newline "") :: read_lines "" (String c2 s)).
      destruct (Ascii.eqb c2 Text.newline).
      * change (read_lines cur (String Text.newline (universal s)))
          with ((cur ++ String Text.newline "") :: read_lines "" (universal s)).
        f_equal. apply IH. lia.
      * change (read_lines cur (String Text.newline (universal (String c2 s))))
          with ((cur ++ String Text.newline "") :: read_lines "" (universal (String c2 s))).
        f_equal. apply IH. simpl. lia.
    + cbn [read_lines]. rewrite Hcr.
      destruct (Ascii.eqb c Text.newline); [f_equal|]; apply IH; lia.
Qed.

Lemma read_lines_universal_eq (s cur : string) :
  read_lines cur (universal s) = read_lines cur s.
Proof. apply (read_lines_universal_upto (String.length s)). lia. Qed.

(** The lines of a file whose text, newlines translated, is a sequence of
    finished lines. *)
Lemma read_lines_written (content : string) (lines : list string) :
  universal content = joined lines ->
  Forall (fun line => whole_line line = true) lines ->
  read_lines "" content = lines.
Proof.
  intros Hu Hw. rewrite <- read_lines_universal_eq, Hu. now apply read_lines_joined.
Qed.

End PassFacts.

Module GrowthFacts.
Import TailFacts PassFacts.

(** A pass over a file that holds what was read so far and more, whose
    size is not below the stored position, with no newer file and no line
    that raises: it sleeps one second, the position is the size of the
    text in bytes and the queue has the messages of the lines appended. *)
Lemma pass_reads_to_end (fs : FileSystem) (clk : Clock) (filepath : string)
    (st : Parser) (last_file_check_time : Z) (old new : string) (size : Z) :
  get_file_position filepath st = Z.of_nat (Utf8.byte_length old) ->
  fs_open fs filepath = Return (old ++ new) ->
  fs_getsize fs filepath = Some size ->
  Z.of_nat (Utf8.byte_length old) <= size ->
  path_truthy (find_latest_adm_file fs (log_directory st))
  && path_differs (find_latest_adm_file fs (log_directory st)) filepath = false ->
  parses new ->
  exists st' t',
    monitor_single_file fs clk filepath st last_file_check_time
    = (st', t', Sleep (seconds 1))
    /\ get_file_position filepath st' = Z.of_nat (Utf8.byte_length (old ++ new))
    /\ map fst (message_queue st')
       = (map fst (message_queue st) ++ messages_of (read_lines "" new))%list
    /\ log_directory st' = log_directory st
    /\ shutdown_requested st' = shutdown_requested st.
Proof.
  intros Hpos Hopen Hsize Hle Hnewer Hparses.
  pose proof (read_new_append old new) as Hread. rewrite <- Hpos in Hread.
  assert (snd (process_lines clk
                 (fst (read_new (get_file_position filepath st) (old ++ new))) st) = None)
    as Hn.
  { rewrite Hread. cbn [fst]. apply process_lines_parses.
    intros line e Hin. now apply Hparses. }
  destruct (at_check_spec clk filepath (old ++ new) st Hn) as (Hq & Hp).
  rewrite Hread in Hq, Hp. cbn [fst snd] in Hq, Hp.
  unfold monitor_single_file. rewrite Hopen.
  unfold at_check in Hq, Hp.
  rewrite Hread in *. cbn [fst] in Hn.
  pose proof (process_lines_fields clk (read_lines "" new) st) as (_ & Hdir & _).
  pose proof (process_lines_shutdown clk (read_lines "" new) st) as Hshut.
  destruct (process_lines clk (read_lines "" new) st) as [st1 [e|]]; [discriminate|].
  cbn [fst snd] in *.
  set (st2 := match read_lines "" new with
              | [] => st1
              | _ :: _ =>
                  set_file_position filepath (Z.of_nat (Utf8.byte_length (old ++ new))) st1
              end) in *.
  assert (log_directory st2 = log_directory st /\ shutdown_requested st2 = shutdown_requested st)
    as (Hdir2 & Hshut2) by (subst st2; destruct (read_lines "" new); cbn; auto).
  assert (get_file_position filepath st2 = Z.of_nat (Utf8.byte_length (old ++ new))) as Hp2.
  { destruct (read_lines "" new) as [|l ls] eqn:Hl; [|exact Hp].
    assert (new = "") as ->.
    { destruct new as [|c new]; [reflexivity|].
      exfalso. now apply (read_lines_of_nonempty (String c new) ltac:(discriminate) ""). }
    rewrite append_nil_r. rewrite Hp. exact Hpos. }
  rewrite Hdir2.
  assert (check_rotation fs filepath (get_file_position filepath st) st2
          = (st2, Sleep (seconds 1))) as ->.
  { unfold check_rotation. rewrite Hsize.
    replace (size <? get_file_position filepath st) with false
      by (symmetry; apply Z.ltb_ge; lia).
    reflexivity. }
  destruct (FILE_CHECK_INTERVAL <=? time clk - last_file_check_time);
    [rewrite Hnewer|]; eexists; eexists; (split; [reflexivity|]); auto.
Qed.

Lemma messages_of_app (l1 l2 : list string) :
  messages_of (l1 ++ l2) = (messages_of l1 ++ messages_of l2)%list.
Proof.
  induction l1 as [|line l1 IH]; [reflexivity|].
  cbn [app messages_of]. destruct (parse_kill_event "" line) as [[kd|]|e];
    rewrite IH; reflexivity.
Qed.

(** Reading up to a finished line and then the rest gives the lines of
    the whole text. *)
Lemma read_lines_after_newline (n : nat) :
  forall body cur rest,
    (String.length body <= n)%nat ->
    read_lines cur (body ++ String Text.newline rest)
    = (read_lines cur (body ++ String Text.newline "") ++ read_lines "" rest)%list.
Proof.
  induction n as [|n IH]; intros body cur rest Hlen.
  - destruct body; [|simpl in Hlen; lia]. reflexivity.
  - destruct body as [|c body]; [reflexivity|].
    cbn [String.append read_lines]. simpl in Hlen.
    destruct (Ascii.eqb c Text.carriage).
    + destruct body as [|c2 body].
      * cbn [String.append]. rewrite Ascii.eqb_refl. reflexivity.
      * cbn [String.append]. simpl in Hlen.
        destruct (Ascii.eqb c2 Text.newline).
        -- cbn [app]. f_equal. apply IH. lia.
        -- cbn [app]. f_equal. apply (IH (String c2 body)). simpl. lia.
    + destruct (Ascii.eqb c Text.newline).
      * cbn [app]. f_equal. apply IH. lia.
      * apply IH. lia.
Qed.

Lemma read_lines_aligned (a b : string) :
  line_aligned a ->
  read_lines "" (a ++ b) = (read_lines "" a ++ read_lines "" b)%list.
Proof.
  intros [-> | (body & ->)]; [reflexivity|].
  rewrite append_assoc. cbn [String.append].
  apply (read_lines_after_newline (String.length body)). lia.
Qed.

Lemma parses_read (chunk : string) :
  parses chunk ->
  forall line e, In line (read_lines "" chunk) -> parse_kill_event "" line <> Raise e.
Proof. intros H line e. apply H. Qed.

End GrowthFacts.

(** The lines of a sample text parse. *)
Ltac sample_parses :=
  let line := fresh "line" in
  let e := fresh "e" in
  let Hin := fresh "Hin" in
  intros line e Hin; vm_compute in Hin;
  repeat (destruct Hin as [Hin | Hin]; [subst line; vm_compute; discriminate|]);
  destruct Hin.

(** A sample text ends with a line feed. *)
Ltac sample_aligned :=
  match goal with
  | |- line_aligned ?s =>
      right; exists (Text.take (String.length s - 1) s); vm_compute; reflexivity
  end.

(** Offsets are bytes.  A character of two bytes moves the offset by two;
    a seek to the size of a file with such characters finds exactly what
    is appended later; a seek into the middle of a character leaves that
    character out, and at the end of the file nothing is read and the
    offset told is the size; a carriage return before a line feed is a
    byte of the file and no character of the line; a seek beyond the end
    reads nothing and stays there. *)
Example read_new_counts_bytes :
  read_new 0 (String Accents.e_acute Samples.nl)
  = ([String Accents.e_acute Samples.nl], 3)
  /\ read_new 5 (String Accents.e_acute (String Accents.e_acute Samples.nl)
                  ++ "x" ++ Samples.nl)
     = (["x" ++ Samples.nl], 7)
  /\ read_new 5 ((Accents.zoe ++ Samples.nl) ++ "new" ++ Samples.nl)
     = (["new" ++ Samples.nl], 9)
  /\ read_new 1 (String Accents.e_acute Samples.nl) = ([Samples.nl], 3)
  /\ read_new 0 ("a" ++ String Text.carriage Samples.nl
                   ++ "b" ++ String Text.carriage Samples.nl)
     = (["a" ++ Samples.nl; "b" ++ Samples.nl], 6)
  /\ read_new 1 (String Accents.e_acute "") = ([], 2)
  /\ read_new 2 ("a" ++ String Text.carriage Samples.nl ++ "b")
     = ([Samples.nl; "b"], 4)
  /\ read_new 0 ("a" ++ String Text.carriage "") = (["a" ++ Samples.nl], 2)
  /\ read_new 9 ("abc" ++ Samples.nl) = ([], 9).
Proof. repeat split; vm_compute; reflexivity. Qed.

(** C7. In a pass of [monitor_single_file] that reaches the rotation
    check (the file opens, no line raises, no newer file makes the pass
    leave the loop) and observes a size in bytes below the position the
    pass started reading from, the stored position becomes 0 and the pass
    ends in the one-second sleep of the same loop on the same path.  The
    next pass then reads the file from its first byte: when the text of
    the file is then, newlines translated, a sequence of finished lines,
    none of which raises, the read returns all of them, from the first on,
    and the queue gains the messages of all of them. *)
Theorem monitor_single_file_rotation (fs : FileSystem) (clk : Clock)
    (filepath : string) (st : Parser) (last_file_check_time : Z)
    (content : string) (current_size : Z) :
  fs_open fs filepath = Return content ->
  snd (process_lines clk (fst (read_new (get_file_position filepath st) content)) st)
  = None ->
  (FILE_CHECK_INTERVAL <=? time clk - last_file_check_time)
  && path_truthy (find_latest_adm_file fs (log_directory st))
  && path_differs (find_latest_adm_file fs (log_directory st)) filepath = false ->
  fs_getsize fs filepath = Some current_size ->
  0 <= current_size < get_file_position filepath st ->
  exists st' t',
    monitor_single_file fs clk filepath st last_file_check_time
    = (st', t', Sleep (seconds 1))
    /\ get_file_position filepath st' = 0
    /\ current_log_file st' = current_log_file st
    /\ forall fs' clk' content' lines,
         fs_open fs' filepath = Return content' ->
         universal content' = joined lines ->
         Forall (fun line => whole_line line = true) lines ->
         (forall line e, In line lines -> parse_kill_event "" line <> Raise e) ->
         fst (read_new (get_file_position filepath st') content') = lines
         /\ map fst (message_queue
                      (fst (fst (monitor_single_file fs' clk' filepath st' t'))))
            = (map fst (message_queue st') ++ messages_of lines)%list.
Proof.
  intros Hopen Hlines Hnewer Hsize Hlt.
  assert (exists st' t',
            monitor_single_file fs clk filepath st last_file_check_time
            = (st', t', Sleep (seconds 1))
            /\ get_file_position filepath st' = 0
            /\ current_log_file st' = current_log_file st) as (st' & t' & Hpass & Hzero & Hcur).
  { unfold monitor_single_file. rewrite Hopen.
    destruct (read_new (get_file_position filepath st) content) as [new_lines new_pos].
    cbn [fst] in Hlines.
    pose proof (process_lines_fields clk new_lines st) as (Hp & Hd & Hc).
    destruct (process_lines clk new_lines st) as [st1 [e|]]; [discriminate|].
    cbn [fst snd] in *.
    set (st2 := match new_lines with
                | [] => st1
                | _ :: _ => set_file_position filepath new_pos st1
                end).
    assert (log_directory st2 = log_directory st
            /\ current_log_file st2 = current_log_file st)
      as (Hd2 & Hc2) by (subst st2; destruct new_lines; cbn; auto).
    rewrite Hd2.
    assert (check_rotation fs filepath (get_file_position filepath st) st2
            = (set_file_position filepath 0 st2, Sleep (seconds 1))) as Hrot.
    { unfold check_rotation. rewrite Hsize.
      replace (current_size <? get_file_position filepath st) with true
        by (symmetry; apply Z.ltb_lt; lia).
      reflexivity. }
    destruct (FILE_CHECK_INTERVAL <=? time clk - last_file_check_time);
      [cbn [andb] in Hnewer; rewrite Hnewer|];
      rewrite Hrot;
      (eexists; eexists; split; [reflexivity|]);
      rewrite get_set_file_position;
      (split; [reflexivity | exact Hc2]). }
  exists st', t'. split; [exact Hpass|]. split; [exact Hzero|]. split; [exact Hcur|].
  intros fs' clk' content' lines Hopen' Htext Hwhole Hparse.
  assert (fst (read_new (get_file_position filepath st') content') = lines) as Hread
    by (rewrite Hzero, read_new_from_start; cbn [fst];
        now apply PassFacts.read_lines_written).
  split; [exact Hread|].
  assert (snd (process_lines clk'
                 (fst (read_new (get_file_position filepath st') content')) st')
          = None) as Hnone
    by (rewrite Hread; now apply TailFacts.process_lines_parses).
  pose proof (PassFacts.pass_queue fs' clk' filepath st' t' content' Hopen' Hnone)
    as Hq.
  rewrite Hread in Hq. exact Hq.
Qed.

Lemma monitor_single_file_rotation_witness :
  exists st' t',
    monitor_single_file SampleFiles.rotated SampleFiles.noon
      (path_join "/profiles" SampleFiles.dash_name) SampleFiles.reader (seconds 43190)
    = (st', t', Sleep (seconds 1))
    /\ get_file_position (path_join "/profiles" SampleFiles.dash_name) st' = 0
    /\ current_log_file st' = current_log_file SampleFiles.reader
    /\ forall fs' clk' content' lines,
         fs_open fs' (path_join "/profiles" SampleFiles.dash_name) = Return content' ->
         universal content' = joined lines ->
         Forall (fun line => whole_line line = true) lines ->
         (forall line e, In line lines -> parse_kill_event "" line <> Raise e) ->
         fst (read_new (get_file_position (path_join "/profiles" SampleFiles.dash_name) st')
                       content')
         = lines
         /\ map fst (message_queue
                      (fst (fst (monitor_single_file fs' clk'
                                   (path_join "/profiles" SampleFiles.dash_name) st' t'))))
            = (map fst (message_queue st') ++ messages_of lines)%list.
Proof.
  apply (monitor_single_file_rotation SampleFiles.rotated SampleFiles.noon
           (path_join "/profiles" SampleFiles.dash_name) SampleFiles.reader
           (seconds 43190) ("fresh line" ++ Samples.nl) 11).
  - reflexivity.
  - vm_compute. reflexivity.
  - vm_compute. reflexivity.
  - reflexivity.
  - vm_compute. split; [discriminate | reflexivity].
Defined.

(** C7 as it is worded, with the stored position in the comparison, fails
    on a file that is cut down between the read and the size check of one
    pass.  The pass starts at offset 74, reads two lines and stores 163;
    the size it then observes is 84, below the stored position; the code
    compares it with 74, resets nothing and goes to sleep with 163
    stored. *)
Lemma monitor_single_file_stale_position :
  get_file_position SampleRuns.path SampleRuns.start = 74
  /\ get_file_position SampleRuns.path
       (at_check SampleFiles.noon SampleRuns.path
          (Samples.line_m4 ++ Samples.line_ak) SampleRuns.start) = 163
  /\ fs_getsize SampleRuns.cut_after_read SampleRuns.path = Some 84
  /\ snd (monitor_single_file SampleRuns.cut_after_read SampleFiles.noon
            SampleRuns.path SampleRuns.start (seconds 43190))
     = Sleep (seconds 1)
  /\ get_file_position SampleRuns.path
       (fst (fst (monitor_single_file SampleRuns.cut_after_read SampleFiles.noon
                    SampleRuns.path SampleRuns.start (seconds 43190))))
     = 163.
Proof. repeat split; vm_compute; reflexivity. Qed.

(** The cut of that file is noticed one pass later: the next pass starts
    at the stored offset 163, beyond the 84 bytes of the file, reads
    nothing, finds the size below the offset it started from and resets
    the position. *)
Example monitor_single_file_late_reset :
  let cut := SampleRuns.showing (Samples.line_m4 ++ "0123456789") in
  let once := fst (fst (monitor_single_file SampleRuns.cut_after_read SampleFiles.noon
                          SampleRuns.path SampleRuns.start (seconds 43190))) in
  let twice := fst (fst (monitor_single_file cut SampleFiles.noon SampleRuns.path once
                           (seconds 43190))) in
  fs_getsize cut SampleRuns.path = Some 84
  /\ get_file_position SampleRuns.path once = 163
  /\ get_file_position SampleRuns.path twice = 0
  /\ message_queue twice = message_queue once.
Proof. repeat split; vm_compute; reflexivity. Qed.

(** C8. When [monitor_latest_file] selects a file, be it the first one
    or one that differs from the file monitored so far, and the size of
    that file is [n] bytes, it makes the file current and stores [n] as
    its read position; the read that follows skips the [n] bytes present
    at selection, whatever characters they encode, and returns only the
    lines appended after them. *)
Theorem monitor_latest_file_starts_at_end (fs : FileSystem) (st : Parser)
    (f : string) (n : Z) :
  find_latest_adm_file fs (log_directory st) = Some f ->
  current_log_file st <> Some f ->
  fs_getsize fs f = Some n ->
  exists st',
    monitor_latest_file fs st = (st', Monitor f)
    /\ current_log_file st' = Some f
    /\ get_file_position f st' = n
    /\ forall old new,
         Z.of_nat (Utf8.byte_length old) = n ->
         read_new (get_file_position f st') (old ++ new)
         = (read_lines "" new, n + Z.of_nat (Utf8.byte_length new)).
Proof.
  intros Hlatest Hcur Hsize.
  pose proof (find_latest_adm_file_truthy fs _ f Hlatest) as Ht.
  assert (start_at_end fs f (with_current (Some f) st)
          = set_file_position f n (with_current (Some f) st)) as Hstart
    by (unfold start_at_end; now rewrite Hsize).
  exists (set_file_position f n (with_current (Some f) st)).
  split; [|split; [reflexivity|split]].
  - unfold monitor_latest_file. rewrite Hlatest, Ht, Hstart.
    destruct (current_log_file st) as [current|] eqn:Hc; [|reflexivity].
    destruct (String.eqb f current) eqn:He.
    + apply String.eqb_eq in He. subst. congruence.
    + cbn [andb negb set_file_position with_current current_log_file].
      now rewrite Ht.
  - apply get_set_file_position.
  - intros old new Hn. rewrite get_set_file_position. subst n.
    rewrite read_new_append, Utf8Facts.byte_length_append. f_equal. lia.
Qed.

(** A first selection in a directory whose latest file has 1000 bytes:
    the position is 1000, not 0. *)
Lemma monitor_latest_file_starts_at_end_witness :
  exists st',
    monitor_latest_file
      (SampleFiles.listing [SampleFiles.underscore_name; SampleFiles.dash_name])
      (new_parser "/profiles")
    = (st', Monitor (path_join "/profiles" SampleFiles.dash_name))
    /\ current_log_file st' = Some (path_join "/profiles" SampleFiles.dash_name)
    /\ get_file_position (path_join "/profiles" SampleFiles.dash_name) st' = 1000
    /\ forall old new,
         Z.of_nat (Utf8.byte_length old) = 1000 ->
         read_new (get_file_position (path_join "/profiles" SampleFiles.dash_name) st')
                  (old ++ new)
         = (read_lines "" new, 1000 + Z.of_nat (Utf8.byte_length new)).
Proof.
  apply (monitor_latest_file_starts_at_end
           (SampleFiles.listing [SampleFiles.underscore_name; SampleFiles.dash_name])
           (new_parser "/profiles") (path_join "/profiles" SampleFiles.dash_name) 1000).
  - vm_compute. reflexivity.
  - discriminate.
  - reflexivity.
Defined.

(** X11. A pass of [monitor_single_file] over a file that opens and holds
    what was read so far followed by new text, whose size is not below the
    stored position, with no newer rival and no line that raises: the pass
    ends in the one-second sleep, the stored position is the size of the
    whole text in bytes, and the queue has gained, in order, exactly the
    messages of the lines of the new text. *)
Theorem monitor_single_file_reads_to_end (fs : FileSystem) (clk : Clock)
    (filepath : string) (st : Parser) (last_file_check_time : Z)
    (old new : string) (size : Z) :
  get_file_position filepath st = Z.of_nat (Utf8.byte_length old) ->
  fs_open fs filepath = Return (old ++ new) ->
  fs_getsize fs filepath = Some size ->
  Z.of_nat (Utf8.byte_length old) <= size ->
  path_truthy (find_latest_adm_file fs (log_directory st))
  && path_differs (find_latest_adm_file fs (log_directory st)) filepath = false ->
  parses new ->
  exists st' t',
    monitor_single_file fs clk filepath st last_file_check_time
    = (st', t', Sleep (seconds 1))
    /\ get_file_position filepath st' = Z.of_nat (Utf8.byte_length (old ++ new))
    /\ map fst (message_queue st')
       = (map fst (message_queue st) ++ messages_of (read_lines "" new))%list.
Proof.
  intros Hpos Hopen Hsize Hle Hnewer Hparses.
  destruct (GrowthFacts.pass_reads_to_end fs clk filepath st last_file_check_time
              old new size Hpos Hopen Hsize Hle Hnewer Hparses)
    as (st' & t' & Hpass & Hp & Hq & _).
  exists st', t'. auto.
Qed.

(** A line with a character of two bytes is appended: the position moves
    by the bytes of the line, one more than its characters. *)
Lemma monitor_single_file_reads_to_end_witness :
  exists st' t',
    monitor_single_file (SampleRuns.showing (Samples.line_m4 ++ Accents.line_zoe))
      SampleFiles.noon SampleRuns.path SampleRuns.start (seconds 43190)
    = (st', t', Sleep (seconds 1))
    /\ get_file_position SampleRuns.path st'
       = Z.of_nat (Utf8.byte_length (Samples.line_m4 ++ Accents.line_zoe))
    /\ map fst (message_queue st')
       = (map fst (message_queue SampleRuns.start)
            ++ messages_of (read_lines "" Accents.line_zoe))%list.
Proof.
  apply (monitor_single_file_reads_to_end
           (SampleRuns.showing (Samples.line_m4 ++ Accents.line_zoe))
           SampleFiles.noon SampleRuns.path SampleRuns.start (seconds 43190)
           Samples.line_m4 Accents.line_zoe
           (Z.of_nat (Utf8.byte_length (Samples.line_m4 ++ Accents.line_zoe)))).
  - reflexivity.
  - reflexivity.
  - reflexivity.
  - vm_compute. discriminate.
  - vm_compute. reflexivity.
  - sample_parses.
Defined.

(** X12. A pass of [monitor_single_file] that opens a file whose bytes
    all lie before the stored position, and whose size is not below that
    position, returns the parser exactly as it was: no message is queued
    again and the position stays. *)
Theorem monitor_single_file_idle (fs : FileSystem) (clk : Clock) (filepath : string)
    (st : Parser) (last_file_check_time : Z) (content : string) :
  fs_open fs filepath = Return content ->
  Z.of_nat (Utf8.byte_length content) <= get_file_position filepath st ->
  (forall size, fs_getsize fs filepath = Some size ->
                get_file_position filepath st <= size) ->
  fst (fst (monitor_single_file fs clk filepath st last_file_check_time)) = st.
Proof.
  intros Hopen Hend Hsize. unfold monitor_single_file. rewrite Hopen.
  unfold read_new. rewrite seek_all by lia. cbn [read_lines Text.truthy process_lines].
  assert (fst (check_rotation fs filepath (get_file_position filepath st) st) = st) as Hrot.
  { unfold check_rotation. destruct (fs_getsize fs filepath) as [size|]; [|reflexivity].
    specialize (Hsize size eq_refl).
    replace (size <? get_file_position filepath st) with false
      by (symmetry; apply Z.ltb_ge; exact Hsize).
    reflexivity. }
  destruct (check_rotation fs filepath (get_file_position filepath st) st) as [st3 e].
  cbn [fst] in Hrot. subst st3.
  destruct (FILE_CHECK_INTERVAL <=? time clk - last_file_check_time); [|reflexivity].
  destruct (path_truthy _ && path_differs _ _); reflexivity.
Qed.

Lemma monitor_single_file_idle_witness :
  fst (fst (monitor_single_file (SampleRuns.showing Accents.line_zoe) SampleFiles.noon
              SampleRuns.path
              (set_file_position SampleRuns.path
                 (Z.of_nat (Utf8.byte_length Accents.line_zoe)) SampleRuns.start)
              (seconds 43190)))
  = set_file_position SampleRuns.path
      (Z.of_nat (Utf8.byte_length Accents.line_zoe)) SampleRuns.start.
Proof.
  apply (monitor_single_file_idle (SampleRuns.showing Accents.line_zoe) SampleFiles.noon
           SampleRuns.path
           (set_file_position SampleRuns.path
              (Z.of_nat (Utf8.byte_length Accents.line_zoe)) SampleRuns.start)
           (seconds 43190) Accents.line_zoe).
  - reflexivity.
  - vm_compute. discriminate.
  - intros size [= <-]. vm_compute. discriminate.
Defined.

Lemma byte_length_joined_step (content chunk : string) (rest : list string) :
  Utf8.byte_length ((content ++ chunk) ++ joined rest)
  = Utf8.byte_length (content ++ joined (chunk :: rest)).
Proof. cbn [joined]. now rewrite append_assoc. Qed.

(** A run of passes over a growing file. *)
Lemma monitor_passes_grows (world : list (FileSystem * Clock)) :
  forall (grown : list string) (filepath : string) (st : Parser)
         (last_file_check_time : Z) (content : string),
    shutdown_requested st = false ->
    get_file_position filepath st = Z.of_nat (Utf8.byte_length content) ->
    grows filepath (log_directory st) content world grown ->
    get_file_position filepath (monitor_passes world filepath st last_file_check_time)
    = Z.of_nat (Utf8.byte_length (content ++ joined grown))
    /\ map fst (message_queue (monitor_passes world filepath st last_file_check_time))
       = (map fst (message_queue st) ++ messages_of (read_lines "" (joined grown)))%list.
Proof.
  induction world as [|[fs clk] world IH];
    intros [|chunk grown] filepath st t content Hshut Hpos Hgrows;
    cbn [grows] in Hgrows; try contradiction.
  - cbn [monitor_passes joined]. rewrite append_nil_r, app_nil_r. auto.
  - destruct Hgrows as (Hopen & Hsize & Hnewer & Haligned & Hparses & Hrest).
    cbn [monitor_passes]. rewrite Hshut.
    destruct (GrowthFacts.pass_reads_to_end fs clk filepath st t content chunk
                (Z.of_nat (Utf8.byte_length (content ++ chunk))))
      as (st' & t' & Hpass & Hp & Hq & Hd & Hs); try assumption.
    + rewrite Utf8Facts.byte_length_append. lia.
    + rewrite Hpass.
      destruct (IH grown filepath st' t' (content ++ chunk)) as (Hp' & Hq').
      * now rewrite Hs.
      * exact Hp.
      * now rewrite Hd.
      * split.
        -- rewrite Hp'. f_equal. apply byte_length_joined_step.
        -- rewrite Hq', Hq. cbn [joined].
           rewrite (GrowthFacts.read_lines_aligned chunk (joined grown) Haligned).
           rewrite GrowthFacts.messages_of_app, app_assoc. reflexivity.
Qed.

(** X13. Over any number of passes of [monitor_single_file] on a file
    that only grows, by whole lines that parse, with its size in bytes in
    step and no newer file in sight: at the end the stored position is the
    size of the file in bytes and the queue has gained exactly the
    messages of the lines appended since the start, each once and in file
    order, whether or not the lines hold characters of more than one
    byte. *)
Theorem monitor_passes_no_loss_no_duplicate (world : list (FileSystem * Clock))
    (grown : list string) (filepath : string) (st : Parser)
    (last_file_check_time : Z) (content : string) :
  shutdown_requested st = false ->
  get_file_position filepath st = Z.of_nat (Utf8.byte_length content) ->
  grows filepath (log_directory st) content world grown ->
  get_file_position filepath (monitor_passes world filepath st last_file_check_time)
  = Z.of_nat (Utf8.byte_length (content ++ joined grown))
  /\ map fst (message_queue (monitor_passes world filepath st last_file_check_time))
     = (map fst (message_queue st) ++ messages_of (read_lines "" (joined grown)))%list.
Proof. apply monitor_passes_grows. Qed.

Lemma monitor_passes_no_loss_no_duplicate_witness :
  get_file_position SampleRuns.path
    (monitor_passes SampleRuns.two_passes SampleRuns.path SampleRuns.start (seconds 43190))
  = Z.of_nat (Utf8.byte_length
                (Samples.line_m4 ++ joined [Accents.line_zoe; Samples.line_mosin]))
  /\ map fst (message_queue
                (monitor_passes SampleRuns.two_passes SampleRuns.path SampleRuns.start
                   (seconds 43190)))
     = (map fst (message_queue SampleRuns.start)
          ++ messages_of (read_lines "" (joined [Accents.line_zoe; Samples.line_mosin])))%list.
Proof.
  apply (monitor_passes_no_loss_no_duplicate SampleRuns.two_passes
           [Accents.line_zoe; Samples.line_mosin] SampleRuns.path SampleRuns.start
           (seconds 43190) Samples.line_m4).
  - reflexivity.
  - reflexivity.
  - cbn [grows SampleRuns.two_passes].
    repeat split; try reflexivity;
      try sample_aligned; try sample_parses.
Defined.

(** The run of the sample: the file grows by a line with a character of
    two bytes, then by another line; the position ends at byte 265 of a
    text of 264 characters and both messages are queued once. *)
Example monitor_passes_accented :
  get_file_position SampleRuns.path
    (monitor_passes SampleRuns.two_passes SampleRuns.path SampleRuns.start (seconds 43190))
  = 265
  /\ String.length (Samples.line_m4 ++ joined [Accents.line_zoe; Samples.line_mosin])
     = 264%nat
  /\ map fst (message_queue
                (monitor_passes SampleRuns.two_passes SampleRuns.path SampleRuns.start
                   (seconds 43190)))
     = ["**Alice** killed **" ++ Accents.zoe ++ "** with AK74 (123m)";
        "**Al** killed **Bob** with Mosin 9130 (12m)"].
Proof. repeat split; vm_compute; reflexivity. Qed.

(** ** Selecting and switching *)

(** X14. A pass of [monitor_latest_file] never touches the message queue,
    the directory or the shutdown flag, and never the stored position of
    a file other than the one it makes current; when the selector returns
    nothing, or the file already current, the parser is returned exactly
    as it was, so the position reached in that file is kept. *)
Theorem monitor_latest_file_frame (fs : FileSystem) (st : Parser) :
  let st' := fst (monitor_latest_file fs st) in
  message_queue st' = message_queue st
  /\ log_directory st' = log_directory st
  /\ shutdown_requested st' = shutdown_requested st
  /\ (forall other, current_log_file st' <> Some other ->
        get_file_position other st' = get_file_position other st)
  /\ (find_latest_adm_file fs (log_directory st) = None
      \/ find_latest_adm_file fs (log_directory st) = current_log_file st ->
      st' = st).
Proof.
  unfold monitor_latest_file.
  assert (forall f,
             let st1 := start_at_end fs f (with_current (Some f) st) in
             message_queue st1 = message_queue st
             /\ log_directory st1 = log_directory st
             /\ shutdown_requested st1 = shutdown_requested st
             /\ current_log_file st1 = Some f
             /\ forall other, Some f <> Some other ->
                  get_file_position other st1 = get_file_position other st) as Hstart.
  { intros f. unfold start_at_end.
    destruct (fs_getsize fs f); cbn; repeat split;
      intros other Hne; (rewrite TailFacts.get_set_other by congruence); reflexivity. }
  destruct (find_latest_adm_file fs (log_directory st)) as [f|] eqn:Hl;
    destruct (current_log_file st) as [cur|] eqn:Hc.
  - destruct (Text.truthy f && negb (String.eqb f cur)) eqn:Hsw.
    + destruct (Hstart f) as (H1 & H2 & H3 & H4 & H5).
      rewrite H4. apply andb_true_iff in Hsw as (Ht & Hne). rewrite Ht.
      cbn [fst]. repeat split; try assumption.
      * intros other Hn. apply H5. rewrite <- H4. exact Hn.
      * intros [H | H]; [discriminate|]. injection H as ->.
        rewrite String.eqb_refl in Hne. discriminate.
    + rewrite Hc. destruct (Text.truthy cur); cbn [fst]; repeat split; auto.
  - destruct (Text.truthy f) eqn:Ht.
    + destruct (Hstart f) as (H1 & H2 & H3 & H4 & H5).
      cbn [fst]. repeat split; try assumption.
      * intros other Hn. apply H5. rewrite <- H4. exact Hn.
      * intros [H | H]; discriminate.
    + cbn [fst]. repeat split; auto.
  - destruct (Text.truthy cur); cbn [fst]; repeat split; auto.
  - cbn [fst]. repeat split; auto.
Qed.

(** ** The order of the listing *)

Module OrderFacts.

Lemma lex_ltb_antisym (a : list Z) :
  forall b, length a = length b ->
            lex_ltb a b = false -> lex_ltb b a = false -> a = b.
Proof.
  induction a as [|x a IH]; intros [|y b] Hlen Hab Hba; try discriminate; [reflexivity|].
  cbn [lex_ltb] in Hab, Hba. injection Hlen as Hlen.
  apply orb_false_iff in Hab as (Hxy & Hab). apply orb_false_iff in Hba as (Hyx & Hba).
  apply Z.ltb_ge in Hxy, Hyx. assert (x = y) as -> by lia.
  rewrite Z.eqb_refl in Hab, Hba. cbn [andb] in Hab, Hba.
  f_equal. now apply IH.
Qed.

Lemma dt_ltb_antisym (a b : datetime) :
  dt_ltb a b = false -> dt_ltb b a = false -> a = b.
Proof.
  intros Hab Hba.
  assert (dt_fields a = dt_fields b) as H
    by (apply lex_ltb_antisym; [reflexivity | exact Hab | exact Hba]).
  destruct a, b. unfold dt_fields in H. cbn in H. now injection H as -> -> -> -> -> -> ->.
Qed.

Lemma collect_adm_same (fs fs' : FileSystem) (log_dir : string)
    (names names' : list string) (entry : string * string) :
  (forall p, fs_exists fs' p = fs_exists fs p) ->
  Permutation names names' ->
  In entry (collect_adm fs log_dir names) -> In entry (collect_adm fs' log_dir names').
Proof.
  intros Hex Hperm. destruct entry as [p n]. rewrite !collect_adm_In.
  intros (Hn & He & Hp & Hx). repeat split; try assumption.
  - eapply Permutation_in; eassumption.
  - now rewrite Hex.
Qed.

Lemma stamp_same (fs fs' : FileSystem) (entry : string * string) :
  (forall p, fs_getmtime fs' p = fs_getmtime fs p) -> stamp fs' entry = stamp fs entry.
Proof.
  intros Hm. unfold stamp. destruct (String.eqb (snd entry) "DayZServer_x64.ADM"); auto.
Qed.

End OrderFacts.

(** X16. The order in which the directory is listed does not change what
    [find_latest_adm_file] finds: over two listings of the same names,
    either both results are none, or both are files with the same logical
    timestamp; when no two candidates share a timestamp, the two results
    are the same file. *)
Theorem find_latest_adm_file_listing_order (fs fs' : FileSystem) (log_dir : string)
    (names names' : list string) :
  fs_exists fs log_dir = true ->
  (forall p, fs_exists fs' p = fs_exists fs p) ->
  (forall p, fs_getmtime fs' p = fs_getmtime fs p) ->
  fs_listdir fs log_dir = Some names ->
  fs_listdir fs' log_dir = Some names' ->
  Permutation names names' ->
  match find_latest_adm_file fs log_dir, find_latest_adm_file fs' log_dir with
  | Some f, Some f' =>
      (exists n n' t, In (f, n) (candidates fs log_dir)
                      /\ In (f', n') (candidates fs log_dir)
                      /\ stamp fs (f, n) = Some t /\ stamp fs (f', n') = Some t)
      /\ ((forall e1 e2 t, In e1 (candidates fs log_dir) -> In e2 (candidates fs log_dir) ->
                           stamp fs e1 = Some t -> stamp fs e2 = Some t -> e1 = e2) ->
          f = f')
  | None, None => True
  | _, _ => False
  end.
Proof.
  intros Hdir Hex Hm Hl Hl' Hperm.
  assert (forall e, In e (candidates fs log_dir) <-> In e (candidates fs' log_dir)) as Hsame.
  { intros e. unfold candidates. rewrite Hex, Hdir, Hl, Hl'. split.
    - intros Hin. apply (OrderFacts.collect_adm_same fs fs' log_dir names names');
        assumption.
    - intros Hin. apply (OrderFacts.collect_adm_same fs' fs log_dir names' names);
        [intros p; now rewrite Hex | now symmetry | assumption]. }
  pose proof (find_latest_adm_file_latest fs log_dir) as H.
  pose proof (find_latest_adm_file_latest fs' log_dir) as H'.
  destruct (find_latest_adm_file fs log_dir) as [f|],
           (find_latest_adm_file fs' log_dir) as [f'|].
  - destruct H as (n & t & Hin & Hst & Hmax), H' as (n' & t' & Hin' & Hst' & Hmax').
    rewrite (OrderFacts.stamp_same fs fs') in Hst' by exact Hm.
    apply Hsame in Hin'.
    assert (t = t') as <-.
    { apply OrderFacts.dt_ltb_antisym.
      - eapply Hmax; eassumption.
      - eapply Hmax'; [apply Hsame; exact Hin|].
        now rewrite (OrderFacts.stamp_same fs fs') by exact Hm. }
    split; [exists n, n', t; auto|].
    intros Hinj. specialize (Hinj _ _ t Hin Hin' Hst Hst'). congruence.
  - destruct H as (n & t & Hin & Hst & _).
    apply Hsame in Hin. apply H' in Hin.
    rewrite (OrderFacts.stamp_same fs fs') in Hin by exact Hm. congruence.
  - destruct H' as (n' & t' & Hin' & Hst' & _).
    rewrite (OrderFacts.stamp_same fs fs') in Hst' by exact Hm.
    apply Hsame in Hin'. apply H in Hin'. congruence.
  - exact I.
Qed.

Lemma find_latest_adm_file_listing_order_witness :
  match find_latest_adm_file
          (SampleFiles.listing [SampleFiles.underscore_name; SampleFiles.dash_name])
          "/profiles",
        find_latest_adm_file
          (SampleFiles.listing [SampleFiles.dash_name; SampleFiles.underscore_name])
          "/profiles" with
  | Some f, Some f' =>
      (exists n n' t,
          In (f, n) (candidates (SampleFiles.listing
                                   [SampleFiles.underscore_name; SampleFiles.dash_name])
                                "/profiles")
          /\ In (f', n') (candidates (SampleFiles.listing
                                        [SampleFiles.underscore_name; SampleFiles.dash_name])
                                     "/profiles")
          /\ stamp (SampleFiles.listing [SampleFiles.underscore_name; SampleFiles.dash_name])
                   (f, n) = Some t
          /\ stamp (SampleFiles.listing [SampleFiles.underscore_name; SampleFiles.dash_name])
                   (f', n') = Some t)
      /\ ((forall e1 e2 t,
              In e1 (candidates (SampleFiles.listing
                                   [SampleFiles.underscore_name; SampleFiles.dash_name])
                                "/profiles") ->
              In e2 (candidates (SampleFiles.listing
                                   [SampleFiles.underscore_name; SampleFiles.dash_name])
                                "/profiles") ->
              stamp (SampleFiles.listing [SampleFiles.underscore_name; SampleFiles.dash_name])
                    e1 = Some t ->
              stamp (SampleFiles.listing [SampleFiles.underscore_name; SampleFiles.dash_name])
                    e2 = Some t -> e1 = e2) ->
          f = f')
  | None, None => True
  | _, _ => False
  end.
Proof.
  apply (find_latest_adm_file_listing_order
           (SampleFiles.listing [SampleFiles.underscore_name; SampleFiles.dash_name])
           (SampleFiles.listing [SampleFiles.dash_name; SampleFiles.underscore_name])
           "/profiles"
           [SampleFiles.underscore_name; SampleFiles.dash_name]
           [SampleFiles.dash_name; SampleFiles.underscore_name]).
  - reflexivity.
  - reflexivity.
  - reflexivity.
  - reflexivity.
  - reflexivity.
  - apply perm_swap.
Defined.

(** ** File names of the two conventions *)

Module NameFacts.
Import Re.

Section Runs.
Context {R : Type}.

Lemma run_chr (a : ascii) (s : string) (c : captures)
    (k : string -> captures -> option R) :
  run (Chr a) (String a s) c k = k s c.
Proof. cbn [run]. now rewrite Ascii.eqb_refl. Qed.

Lemma run_lit (p : string) :
  forall (s : string) (c : captures) (k : string -> captures -> option R),
    run (lit p) (p ++ s) c k = k s c.
Proof.
  induction p as [|a p IH]; intros s c k; [reflexivity|].
  cbn [lit String.append]. cbn [run]. rewrite Ascii.eqb_refl. apply IH.
Qed.

Lemma rep_min_digits (p : ascii -> bool) (w : string) :
  forall (s : string) (k : string -> option R),
    all_in p w -> rep_min p (String.length w) (w ++ s) k = k s.
Proof.
  induction w as [|a w IH]; intros s k Hw; [reflexivity|].
  cbn [String.length String.append rep_min].
  rewrite (Hw a (or_introl eq_refl)). apply IH. intros b Hb. apply Hw. now right.
Qed.

Lemma rep_greedy_zero (p : ascii -> bool) (s : string) (k : string -> option R) :
  rep_greedy p (Some 0%nat) s k = k s.
Proof. destruct s; reflexivity. Qed.

(** A greedy run over characters of the class, up to a text that does
    not go on with one: when the continuation succeeds there, that is the
    result. *)
Lemma rep_greedy_all (p : ascii -> bool) (w : string) :
  forall (s : string) (k : string -> option R) (x : R),
    all_in p w ->
    Text.startswith "." s = true -> p "."%char = false ->
    k s = Some x ->
    rep_greedy p None (w ++ s) k = Some x.
Proof.
  induction w as [|a w IH]; intros s k x Hw Hs Hp Hk.
  - cbn [String.append]. destruct s as [|b s]; [discriminate|].
    cbn [Text.startswith] in Hs. apply andb_true_iff in Hs as (Hb & _).
    apply Ascii.eqb_eq in Hb. subst b.
    cbn [rep_greedy spend]. now rewrite Hp.
  - cbn [String.append rep_greedy spend].
    rewrite (Hw a (or_introl eq_refl)).
    rewrite (IH s k x); auto. intros b Hb. apply Hw. now right.
Qed.
End Runs.

(** A group of exactly [n] digits. *)
Lemma run_digits_group {R : Type} (i n : nat) (w s : string) (c : captures)
    (k : string -> captures -> option R) :
  digit_text n w ->
  run (Grp i (digits n)) (w ++ s) c k = k s ((i, w) :: c).
Proof.
  intros (Hlen & Hw). unfold digits. cbn [run]. unfold rep. subst n.
  rewrite rep_min_digits by exact Hw.
  cbn [option_map]. rewrite Nat.sub_diag, rep_greedy_zero.
  now rewrite Inversion.take_consumed.
Qed.

(** The group of one or more digits before the extension. *)
Lemma run_digits_plus {R : Type} (i : nat) (w s : string) (c : captures)
    (k : string -> captures -> option R) (x : R) :
  all_in digit w -> w <> "" ->
  Text.startswith "." s = true ->
  k s ((i, w) :: c) = Some x ->
  run (Grp i (Rep digit 1 None true)) (w ++ s) c k = Some x.
Proof.
  intros Hw Hne Hs Hk. destruct w as [|a w]; [contradiction|].
  cbn [run]. unfold rep. cbn [option_map String.append rep_min].
  rewrite (Hw a (or_introl eq_refl)).
  apply rep_greedy_all; [intros b Hb; apply Hw; now right | exact Hs | reflexivity |].
  change (String a (w ++ s)) with (String a w ++ s).
  now rewrite Inversion.take_consumed.
Qed.

End NameFacts.

Module NameRuns.
Import NameFacts.

Lemma run_cat {R : Type} (r1 r2 : Re.regex) s c (k : string -> Re.captures -> option R) :
  Re.run (Re.Cat r1 r2) s c k = Re.run r1 s c (fun s' c' => Re.run r2 s' c' k).
Proof. reflexivity. Qed.

Lemma run_eps {R : Type} s c (k : string -> Re.captures -> option R) :
  Re.run Re.Eps s c k = k s c.
Proof. reflexivity. Qed.

(** One step of the matcher on a text built from literals and digit
    texts. *)
Ltac run_step :=
  repeat first
    [ rewrite run_cat
    | rewrite run_lit
    | rewrite run_chr
    | rewrite run_digits_group by assumption
    | rewrite run_eps
    | progress cbn [String.append]
    | progress cbv beta ].

(** The dash pattern gives up on an underscore name after the year, and
    the underscore pattern on a dash name. *)
Lemma dash_pattern_on_underscore (y rest : string) :
  digit_text 4 y ->
  Re.run dash_pattern ("DayZServer_x64_" ++ y ++ "_" ++ rest) [] (fun _ c => Some c)
  = None.
Proof.
  intros Hy. unfold dash_pattern. cbn [Re.cat].
  rewrite run_cat, run_lit. cbv beta.
  rewrite run_cat, run_digits_group by assumption. cbv beta.
  reflexivity.
Qed.

Lemma underscore_pattern_on_dash (y rest : string) :
  digit_text 4 y ->
  Re.run underscore_pattern ("DayZServer_x64_" ++ y ++ "-" ++ rest) []
         (fun _ c => Some c)
  = None.
Proof.
  intros Hy. unfold underscore_pattern. cbn [Re.cat].
  rewrite run_cat, run_lit. cbv beta.
  rewrite run_cat, run_digits_group by assumption. cbv beta.
  reflexivity.
Qed.

End NameRuns.

(** The digits of a sample text. *)
Ltac sample_digits :=
  split; [reflexivity |
          let a := fresh "a" in
          let Hin := fresh "Hin" in
          intros a Hin;
          repeat (destruct Hin as [<- | Hin]; [reflexivity|]); destruct Hin].

(** X17. For a name of the dash convention, whatever follows its
    extension, [parse_adm_timestamp] returns the datetime of its six
    fields when they are a date, and none when they are not. *)
Theorem parse_adm_timestamp_dash (y mo d h mi s junk : string) :
  digit_text 4 y -> digit_text 2 mo -> digit_text 2 d ->
  digit_text 2 h -> digit_text 2 mi -> digit_text 2 s ->
  parse_adm_timestamp (dash_format y mo d h mi s ++ junk)
  = datetime_of_texts y mo d h mi s.
Proof.
  intros Hy Hmo Hd Hh Hmi Hs.
  unfold parse_adm_timestamp, try_pattern, Re.re_match, dash_format.
  rewrite !append_assoc.
  rewrite (NameRuns.underscore_pattern_on_dash y _ Hy).
  unfold dash_pattern. cbn [Re.cat].
  rewrite NameRuns.run_cat, NameFacts.run_lit. cbv beta.
  NameRuns.run_step.
  reflexivity.
Qed.

Lemma parse_adm_timestamp_dash_witness :
  parse_adm_timestamp (dash_format "2025" "08" "12" "13" "38" "51" ++ "")
  = datetime_of_texts "2025" "08" "12" "13" "38" "51".
Proof.
  apply (parse_adm_timestamp_dash "2025" "08" "12" "13" "38" "51" ""); sample_digits.
Defined.

(** X18. For a name of the underscore convention, with one or more
    digits after the seconds and whatever follows its extension,
    [parse_adm_timestamp] returns the datetime of its first six fields
    when they are a date, and none when they are not; the digits after
    the seconds do not count. *)
Theorem parse_adm_timestamp_underscore (y mo d h mi s frac junk : string) :
  digit_text 4 y -> digit_text 2 mo -> digit_text 2 d ->
  digit_text 2 h -> digit_text 2 mi -> digit_text 2 s ->
  all_in Re.digit frac -> frac <> "" ->
  parse_adm_timestamp (underscore_format y mo d h mi s frac ++ junk)
  = datetime_of_texts y mo d h mi s.
Proof.
  intros Hy Hmo Hd Hh Hmi Hs Hf Hfn.
  unfold parse_adm_timestamp, try_pattern, Re.re_match, underscore_format.
  rewrite !append_assoc.
  rewrite (NameRuns.dash_pattern_on_underscore y _ Hy).
  unfold underscore_pattern. cbn [Re.cat].
  rewrite NameRuns.run_cat, NameFacts.run_lit. cbv beta.
  NameRuns.run_step.
  erewrite NameFacts.run_digits_plus;
    [| assumption | assumption | reflexivity | reflexivity].
  match goal with
  | |- match ?X with Some t => Some t | None => None end = ?T =>
      change X with T; destruct T; reflexivity
  end.
Qed.

Lemma parse_adm_timestamp_underscore_witness :
  parse_adm_timestamp (underscore_format "2025" "05" "24" "22" "49" "40" "076" ++ "")
  = datetime_of_texts "2025" "05" "24" "22" "49" "40".
Proof.
  apply (parse_adm_timestamp_underscore "2025" "05" "24" "22" "49" "40" "076" "");
    try sample_digits.
  - intros a Hin. repeat (destruct Hin as [<- | Hin]; [reflexivity|]). destruct Hin.
  - discriminate.
Defined.

(** ** Configuration and start *)



(** X21. [should_check_for_newer_file] answers yes at most once per
    interval: after a yes at some time, the next calls answer yes exactly
    from thirty seconds after that time on, and a no leaves the time of
    the last check as it was. *)
Theorem should_check_for_newer_file_rate (current_time last_file_check later : Z) :
  (fst (should_check_for_newer_file current_time last_file_check) = true ->
   (fst (should_check_for_newer_file later
           (snd (should_check_for_newer_file current_time last_file_check))) = true
    <-> current_time + seconds 30 <= later))
  /\ (fst (should_check_for_newer_file current_time last_file_check) = false ->
      snd (should_check_for_newer_file current_time last_file_check) = last_file_check).
Proof.
  unfold should_check_for_newer_file, FILE_CHECK_INTERVAL.
  destruct (seconds 30 <=? current_time - last_file_check); cbn [fst snd].
  - split; [|discriminate]. intros _.
    destruct (seconds 30 <=? later - current_time) eqn:H; cbn [fst].
    + apply Z.leb_le in H. split; [lia | reflexivity].
    + apply Z.leb_gt in H. split; [discriminate | lia].
  - split; [discriminate | reflexivity].
Qed.

(** X22. [send_to_discord] reports success exactly when the message is
    non-empty and the webhook answers 204; any other status and a failed
    request give false without an exception; a non-empty message is
    posted exactly once and an empty one never. *)
Theorem send_to_discord_result (hook : webhook) (message : string)
    (attempts : list string) :
  (fst (send_to_discord hook message attempts) = true
   <-> message <> "" /\ hook attempts message = Status 204)
  /\ snd (send_to_discord hook message attempts)
     = (if Text.truthy message then attempts ++ [message] else attempts)%list.
Proof.
  unfold send_to_discord. destruct message as [|a m]; cbn [Text.truthy negb].
  - split; [|reflexivity]. split; [discriminate | intros ([] & _); reflexivity].
  - destruct (hook attempts (String a m)) as [code|] eqn:Hh; cbn [fst snd].
    + split; [|reflexivity]. split.
      * intros H. apply Z.eqb_eq in H. subst. split; [discriminate | reflexivity].
      * intros (_ & [= ->]). reflexivity.
    + split; [|reflexivity]. split; [discriminate | intros (_ & H); discriminate].
Qed.
